(** * Streamline tractography: a shallow embedding of
    [itk::StreamlineTrackingFilter] (itkStreamlineTrackingFilter.cpp)

    The filter follows locally estimated fibre directions from seed points,
    building one polyline per seed trial, and collects the accepted ones in
    a shared tractogram or in a visitation map.

    Conventions of the embedding.
    - [float] and [double] values are idealised as real numbers ([R]):
      rounding is not modelled.  [int] and [unsigned int] values are
      integers ([Z]); where the source relies on the width of the type the
      wrap-around is written out.
    - [std::deque] and [std::vector] are lists; [push_front] is [cons] and
      [push_back] appends at the end.
    - The tracking handler, the image functions of ITK and MITK and the
      flags written by other threads are not part of the file: they are the
      fields of the records [TrackingDataHandler] and [External].
    - Effects are threaded explicitly: the handler's random state through a
      state monad over [World], the members written while tracking through
      [RunState], the fatal error of [mitkThrow] through [Result]. *)

From Stdlib Require Import Reals Lra Lia ZArith List Bool.
Import ListNotations.

Set Implicit Arguments.

Open Scope R_scope.

(** ** Real comparisons as booleans *)

Definition Rltb (x y : R) : bool := if Rlt_dec x y then true else false.
Definition Rgtb (x y : R) : bool := Rltb y x.
Definition Rleb (x y : R) : bool := if Rle_dec x y then true else false.
Definition Rgeb (x y : R) : bool := Rleb y x.
Definition Reqb (x y : R) : bool := if Req_dec_T x y then true else false.

Lemma Rltb_true (x y : R) : Rltb x y = true <-> x < y.
Proof. unfold Rltb; destruct (Rlt_dec x y); split; intros; auto; discriminate. Qed.

Lemma Rltb_false (x y : R) : Rltb x y = false <-> y <= x.
Proof.
  unfold Rltb; destruct (Rlt_dec x y); split; intros; auto; try discriminate; lra.
Qed.

Lemma Rgtb_true (x y : R) : Rgtb x y = true <-> y < x.
Proof. apply Rltb_true. Qed.

Lemma Rgtb_false (x y : R) : Rgtb x y = false <-> x <= y.
Proof. apply Rltb_false. Qed.

Lemma Rleb_true (x y : R) : Rleb x y = true <-> x <= y.
Proof. unfold Rleb; destruct (Rle_dec x y); split; intros; auto; discriminate. Qed.

Lemma Rleb_false (x y : R) : Rleb x y = false <-> y < x.
Proof.
  unfold Rleb; destruct (Rle_dec x y); split; intros; auto; try discriminate; lra.
Qed.

Lemma Rgeb_true (x y : R) : Rgeb x y = true <-> y <= x.
Proof. apply Rleb_true. Qed.

Lemma Reqb_true (x y : R) : Reqb x y = true <-> x = y.
Proof. unfold Reqb; destruct (Req_dec_T x y); split; intros; auto; discriminate. Qed.

(** ** [vnl_vector_fixed<float,3>] and [itk::Point<float,3>] *)

Record vec3 : Type := mkVec { vx : R; vy : R; vz : R }.

Definition Point : Type := vec3.

Definition fill (c : R) : vec3 := mkVec c c c.
Definition zero_dir : vec3 := fill 0.

Definition vadd (a b : vec3) : vec3 :=
  mkVec (vx a + vx b) (vy a + vy b) (vz a + vz b).
Definition vscale (c : R) (a : vec3) : vec3 :=
  mkVec (c * vx a) (c * vy a) (c * vz a).
Definition vneg (a : vec3) : vec3 := mkVec (- vx a) (- vy a) (- vz a).
Definition dot_product (a b : vec3) : R :=
  vx a * vx b + vy a * vy b + vz a * vz b.
Definition squared_magnitude (a : vec3) : R := dot_product a a.
Definition magnitude (a : vec3) : R := sqrt (squared_magnitude a).

(** [vnl_vector_fixed::normalize]: the vector is scaled by the inverse of
    its norm, and left as it is when its squared norm is zero. *)
Definition normalize (a : vec3) : vec3 :=
  if Reqb (squared_magnitude a) 0 then a
  else vscale (1 / sqrt (squared_magnitude a)) a.

(** Euclidean distance between two points. *)
Definition distance (p q : Point) : R := magnitude (vadd q (vneg p)).

(** [itk::Index<3>] *)
Record Index : Type := mkIndex { ix : Z; iy : Z; iz : Z }.

Definition Index_eqb (a b : Index) : bool :=
  (ix a =? ix b)%Z && (iy a =? iy b)%Z && (iz a =? iz b)%Z.

Definition zeroIndex : Index := mkIndex 0 0 0.

Lemma Index_eqb_eq (a b : Index) : Index_eqb a b = true <-> a = b.
Proof.
  destruct a, b; unfold Index_eqb; simpl.
  rewrite !andb_true_iff, !Z.eqb_eq. split.
  - intros [[-> ->] ->]; reflexivity.
  - intros H; inversion H; auto.
Qed.

Lemma Index_eqb_refl (a : Index) : Index_eqb a a = true.
Proof. apply Index_eqb_eq; reflexivity. Qed.

Lemma Index_eqb_neq (a b : Index) : Index_eqb a b = false <-> a <> b.
Proof.
  rewrite <- Index_eqb_eq. destruct (Index_eqb a b); split; intros; congruence.
Qed.

(** ** Vector facts *)

Lemma squared_magnitude_nonneg (a : vec3) : 0 <= squared_magnitude a.
Proof. unfold squared_magnitude, dot_product; nra. Qed.

Lemma magnitude_nonneg (a : vec3) : 0 <= magnitude a.
Proof. apply sqrt_pos. Qed.

Lemma magnitude_zero_dir : magnitude zero_dir = 0.
Proof.
  unfold magnitude, squared_magnitude, dot_product, zero_dir, fill; simpl.
  replace (0 * 0 + 0 * 0 + 0 * 0) with 0 by ring. apply sqrt_0.
Qed.

Lemma magnitude_vscale (c : R) (a : vec3) :
  magnitude (vscale c a) = Rabs c * magnitude a.
Proof.
  unfold magnitude, squared_magnitude, dot_product, vscale; simpl.
  replace (c * vx a * (c * vx a) + c * vy a * (c * vy a) + c * vz a * (c * vz a))
    with (Rsqr c * (vx a * vx a + vy a * vy a + vz a * vz a))
    by (unfold Rsqr; ring).
  rewrite sqrt_mult_alt by apply Rle_0_sqr.
  rewrite sqrt_Rsqr_abs. reflexivity.
Qed.

Lemma magnitude_vneg (a : vec3) : magnitude (vneg a) = magnitude a.
Proof.
  unfold magnitude, squared_magnitude, dot_product, vneg; simpl.
  f_equal; ring.
Qed.

Lemma magnitude_pos_sq (a : vec3) : 0 < magnitude a -> squared_magnitude a <> 0.
Proof.
  unfold magnitude; intros H E. rewrite E, sqrt_0 in H. lra.
Qed.

(** A normalised vector has norm one or is the vector it was (of norm zero). *)
Lemma magnitude_normalize (a : vec3) :
  0 < magnitude a -> magnitude (normalize a) = 1.
Proof.
  intros H. unfold normalize.
  destruct (Reqb (squared_magnitude a) 0) eqn:E.
  - apply Reqb_true in E. apply magnitude_pos_sq in H. contradiction.
  - rewrite magnitude_vscale. fold (magnitude a).
    rewrite Rabs_right.
    + field. lra.
    + apply Rle_ge. apply Rlt_le. apply Rdiv_lt_0_compat; lra.
Qed.

Lemma magnitude_normalize_cases (a : vec3) :
  magnitude (normalize a) = 1 \/ magnitude (normalize a) = 0.
Proof.
  destruct (Rle_lt_or_eq_dec 0 (magnitude a) (magnitude_nonneg a)) as [H | H].
  - left. apply magnitude_normalize; assumption.
  - right. unfold normalize.
    destruct (Reqb (squared_magnitude a) 0) eqn:E; [symmetry; assumption|].
    exfalso. assert (squared_magnitude a = 0).
    { apply sqrt_eq_0; [apply squared_magnitude_nonneg | symmetry; exact H]. }
    apply Reqb_true in H0. congruence.
Qed.

Lemma distance_step (p d : vec3) (s : R) :
  distance p (vadd p (vscale s d)) = Rabs s * magnitude d.
Proof.
  unfold distance. rewrite <- magnitude_vscale. unfold magnitude. f_equal.
  unfold squared_magnitude, dot_product, vadd, vneg, vscale; simpl. ring.
Qed.

(** ** Enumerations, fibres and results *)

(** [EndpointConstraints] *)
Inductive EndpointConstraints : Type :=
| NONE
| EPS_IN_TARGET
| EPS_IN_TARGET_LABELDIFF
| EPS_IN_SEED_AND_TARGET
| MIN_ONE_EP_IN_TARGET
| ONE_EP_IN_TARGET
| NO_EP_IN_TARGET.

(** [mitk::TrackingDataHandler::MODE] *)
Inductive MODE : Type := DETERMINISTIC | PROBABILISTIC.

Definition MODE_eqb (a b : MODE) : bool :=
  match a, b with
  | DETERMINISTIC, DETERMINISTIC | PROBABILISTIC, PROBABILISTIC => true
  | _, _ => false
  end.

(** [FiberType] is a [std::deque] of points, [DirectionContainer] one of
    directions. *)
Definition FiberType : Type := list Point.
Definition DirectionContainer : Type := list vec3.

Definition push_front {A : Type} (x : A) (d : list A) : list A := x :: d.
Definition push_back {A : Type} (x : A) (d : list A) : list A := d ++ [x].
Definition pop_front {A : Type} (d : list A) : list A := tl d.
Definition pop_back {A : Type} (d : list A) : list A := removelast d.

(** [front()] and [back()] are undefined on an empty deque; the default
    point stands for that case, which no caller of this file reaches. *)
Definition front (fib : FiberType) : Point := hd zero_dir fib.
Definition back (fib : FiberType) : Point := last fib zero_dir.

(** A call either returns or throws the exception of [mitkThrow], whose
    message is kept. *)
Inductive ErrorMessage : Type :=
| NoTarget_EPS_IN_TARGET
| NoTarget_EPS_IN_TARGET_LABELDIFF
| NoTargetOrSeed_EPS_IN_SEED_AND_TARGET
| NoTarget_MIN_ONE_EP_IN_TARGET
| NoTarget_ONE_EP_IN_TARGET
| NoTarget_NO_EP_IN_TARGET.

Inductive Result (A : Type) : Type :=
| Ok : A -> Result A
| Throw : ErrorMessage -> Result A.

Arguments Ok {A} _.
Arguments Throw {A} _.

Definition is_Throw {A : Type} (r : Result A) : bool :=
  match r with Ok _ => false | Throw _ => true end.

(** Wrap-around of [unsigned int]. *)
Definition to_unsigned (z : Z) : Z := (z mod 2 ^ 32)%Z.

(** ** The state monad of the code that only talks to the handler *)

Definition M (S A : Type) : Type := S -> A * S.

Definition ret {S A : Type} (a : A) : M S A := fun s => (a, s).
Definition bind {S A B : Type} (m : M S A) (k : A -> M S B) : M S B :=
  fun s => let (a, s') := m s in k a s'.

Declare Scope monad_scope.
Delimit Scope monad_scope with monad.
Notation "x <- m ;; k" := (bind m (fun x => k))
  (at level 61, m at next level, right associativity) : monad_scope.

(** ** What the filter is given *)

(** [mitk::TrackingDataHandler]: the direction model.  [World] is the state
    its calls read and advance (its random generator, its settings). *)
Record TrackingDataHandler (World : Type) : Type := mkHandler {
  ProposeDirection : Point -> list vec3 -> Index -> M World vec3;
  GetRandDouble : R -> R -> M World R;
  WorldToIndex : Point -> Index;
  GetMode : MODE;
  GetSpacing : vec3;
  SetRandom : bool -> World -> World;
  InitForTracking : World -> World;
  SetAngularThreshold : R -> World -> World
}.

(** Functions of ITK, MITK and the C++ library the code calls, and the
    flags other threads write.  [Image] is [ItkFloatImgType] together with
    the interpolator reading it.
    - [IsInsideMask] and [GetImageValue] are the functions of [mitk::imv];
    - [FilledImage c] is an image of the handler's geometry filled with [c];
    - [ImageVoxels] lists the voxels of an image with their values, in the
      order of [ImageRegionConstIterator];
    - [TransformPhysicalPointToIndex] and [RegionIsInside] are those of the
      output probability map, which has the handler's geometry;
    - [RescaleIntensity] is [itk::RescaleIntensityImageFilter] to [0,1];
    - [PollAbort] reads [m_AbortTracking], which another thread may set;
    - [omp_get_max_threads] is the size of the thread team;
    - [mitk_eps] is [mitk::eps]. *)
Record External (World Image : Type) : Type := mkExternal {
  IsInsideMask : Point -> bool -> Image -> bool;
  GetImageValue : Point -> bool -> Image -> R;
  FilledImage : R -> Image;
  ImageVoxels : Image -> list (Index * R);
  TransformContinuousIndexToPhysicalPoint : Image -> vec3 -> Point;
  TransformPhysicalPointToIndex : Point -> Index;
  RegionIsInside : Index -> bool;
  RescaleIntensity : (Index -> R) -> Index -> R;
  random_shuffle : list Point -> M World (list Point);
  PollAbort : M World bool;
  omp_get_max_threads : Z;
  mitk_eps : R
}.

(** ** [CreateDirections] *)

(** Writing position [i] of a [std::vector] of fixed size. *)
Fixpoint set_at {A : Type} (l : list A) (i : nat) (x : A) : list A :=
  match l, i with
  | [], _ => []
  | _ :: t, O => x :: t
  | h :: t, S j => h :: set_at t j x
  end.

Definition at_ (l : list R) (i : nat) : R := nth i l 0.

Lemma set_at_length {A : Type} (l : list A) (i : nat) (x : A) :
  length (set_at l i x) = length l.
Proof.
  revert i; induction l as [|h t IH]; intros [|j]; simpl; auto.
Qed.

Section CreateDirections.

Variable NPoints : Z.

(** [-1.0+2.0*i/(NPoints-1.0)] *)
Definition shell_height (i : nat) : R :=
  -1 + 2 * INR i / (IZR NPoints - 1).

(** One round of the first loop: it writes [theta[i]], and [phi[i]] for the
    inner indices. *)
Definition shell_angles_step (C : R) (tp : list R * list R) (i : nat)
  : list R * list R :=
  let (theta, phi) := tp in
  let theta := set_at theta i (acos (shell_height i) - PI / 2) in
  if ((0 <? Z.of_nat i) && (Z.of_nat i <? NPoints - 1))%Z
  then (theta,
        set_at phi i
          (at_ phi (i - 1)
           + C / sqrt (IZR NPoints * (1 - shell_height i * shell_height i))))
  else (theta, phi).

Definition shell_direction (theta phi : list R) (i : nat) : vec3 :=
  mkVec (cos (at_ theta i) * cos (at_ phi i))
        (cos (at_ theta i) * sin (at_ phi i))
        (sin (at_ theta i)).

Definition CreateDirections : list vec3 :=
  if (NPoints <? 2)%Z then []
  else
    let n := Z.to_nat NPoints in
    let theta := repeat 0 n in
    let phi := repeat 0 n in
    let C := sqrt (4 * PI) in
    let phi := set_at phi 0 0 in
    let phi := set_at phi (n - 1) 0 in
    let (theta, phi) := fold_left (shell_angles_step C) (seq 0 n) (theta, phi) in
    map (shell_direction theta phi) (seq 0 n).

End CreateDirections.

(** ** The members of the filter *)

(** The members that are set before tracking and by [BeforeTracking], and
    only read while the seeds are processed.  An image member is [None]
    when the smart pointer is null; an interpolator member is [None] until
    [SetInputImage] gives it an image. *)
Record Filter (World Image : Type) : Type := mkFilter {
  m_TrackingHandler : TrackingDataHandler World;
  m_TrackingPriorHandler : option (TrackingDataHandler World);
  m_StoppingRegions : option Image;
  m_TargetRegions : option Image;
  m_SeedImage : option Image;
  m_MaskImage : option Image;
  m_ExclusionRegions : option Image;
  m_MaskInterpolator : option Image;
  m_StopInterpolator : option Image;
  m_SeedInterpolator : option Image;
  m_TargetInterpolator : option Image;
  m_ExclusionInterpolator : option Image;
  m_TargetImageSet : bool;
  m_SeedImageSet : bool;
  m_MinVoxelSize : R;
  m_AngularThresholdDeg : R;
  m_StepSizeVox : R;
  m_SamplingDistanceVox : R;
  m_AngularThreshold : R;
  m_StepSize : R;
  m_MaxLength : Z;
  m_MinTractLength : R;
  m_MaxTractLength : R;
  m_SeedsPerVoxel : Z;
  m_AvoidStop : bool;
  m_RandomSampling : bool;
  m_SamplingDistance : R;
  m_DeflectionMod : R;
  m_OnlyForwardSamples : bool;
  m_UseStopVotes : bool;
  m_NumberOfSamples : Z;
  m_NumPreviousDirections : Z;
  m_MaxNumTracts : Z;
  m_LoopCheck : R;
  m_DemoMode : bool;
  m_Random : bool;
  m_UseOutputProbabilityMap : bool;
  m_InterpolateMasks : bool;
  m_TrialsPerSeed : Z;
  m_EndpointConstraint : EndpointConstraints;
  m_IntroduceDirectionsFromPrior : bool;
  m_TrackingPriorAsMask : bool;
  m_TrackingPriorWeight : R;
  m_SeedPoints : list Point
}.

(** The members written while the seeds are processed, shared by all
    threads, with the seed cursor [i] of [GenerateData]. *)
Record RunState : Type := mkRun {
  m_CurrentTracts : Z;
  m_StopTracking : bool;
  m_Tractogram : list FiberType;
  m_OutputProbabilityMap : Index -> R;
  m_BuildFibersReady : Z;
  m_BuildFibersFinished : bool;
  m_FiberPolyData : list FiberType;
  m_Progress : Z;
  m_Verbose : bool;
  seed_cursor : Z
}.

Definition set_Tractogram (rs : RunState) (t : list FiberType) : RunState :=
  mkRun (m_CurrentTracts rs) (m_StopTracking rs) t (m_OutputProbabilityMap rs)
        (m_BuildFibersReady rs) (m_BuildFibersFinished rs) (m_FiberPolyData rs)
        (m_Progress rs) (m_Verbose rs) (seed_cursor rs).

Definition set_OutputProbabilityMap (rs : RunState) (m : Index -> R) : RunState :=
  mkRun (m_CurrentTracts rs) (m_StopTracking rs) (m_Tractogram rs) m
        (m_BuildFibersReady rs) (m_BuildFibersFinished rs) (m_FiberPolyData rs)
        (m_Progress rs) (m_Verbose rs) (seed_cursor rs).

Definition set_CurrentTracts (rs : RunState) (c : Z) : RunState :=
  mkRun c (m_StopTracking rs) (m_Tractogram rs) (m_OutputProbabilityMap rs)
        (m_BuildFibersReady rs) (m_BuildFibersFinished rs) (m_FiberPolyData rs)
        (m_Progress rs) (m_Verbose rs) (seed_cursor rs).

Definition set_StopTracking (rs : RunState) (b : bool) : RunState :=
  mkRun (m_CurrentTracts rs) b (m_Tractogram rs) (m_OutputProbabilityMap rs)
        (m_BuildFibersReady rs) (m_BuildFibersFinished rs) (m_FiberPolyData rs)
        (m_Progress rs) (m_Verbose rs) (seed_cursor rs).

Definition set_BuildFibersReady (rs : RunState) (n : Z) : RunState :=
  mkRun (m_CurrentTracts rs) (m_StopTracking rs) (m_Tractogram rs)
        (m_OutputProbabilityMap rs) n (m_BuildFibersFinished rs)
        (m_FiberPolyData rs) (m_Progress rs) (m_Verbose rs) (seed_cursor rs).

Definition set_Progress (rs : RunState) (n : Z) : RunState :=
  mkRun (m_CurrentTracts rs) (m_StopTracking rs) (m_Tractogram rs)
        (m_OutputProbabilityMap rs) (m_BuildFibersReady rs)
        (m_BuildFibersFinished rs) (m_FiberPolyData rs) n (m_Verbose rs)
        (seed_cursor rs).

Definition set_seed_cursor (rs : RunState) (n : Z) : RunState :=
  mkRun (m_CurrentTracts rs) (m_StopTracking rs) (m_Tractogram rs)
        (m_OutputProbabilityMap rs) (m_BuildFibersReady rs)
        (m_BuildFibersFinished rs) (m_FiberPolyData rs) (m_Progress rs)
        (m_Verbose rs) n.

(** ** Direction estimation *)

Section Tracking.

Context {World Image : Type}.
Variable ext : External World Image.
Variable f : Filter World Image.

Open Scope monad_scope.

(** [mitk::imv::IsInsideMask(pos, m_InterpolateMasks, interpolator)].  The
    code never queries an interpolator that has no image. *)
Definition InsideMask (pos : Point) (interpolator : option Image) : bool :=
  match interpolator with
  | Some img => IsInsideMask ext pos (m_InterpolateMasks f) img
  | None => false
  end.

(** [m_ExclusionRegions.IsNotNull() && IsInsideMask(pos, ..., m_ExclusionInterpolator)] *)
Definition InExclusion (pos : Point) : bool :=
  match m_ExclusionRegions f with
  | Some _ => InsideMask pos (m_ExclusionInterpolator f)
  | None => false
  end.

Fixpoint foldM {S A B : Type} (body : A -> B -> M S A) (l : list B) (a : A)
  : M S A :=
  match l with
  | [] => ret a
  | b :: t => a' <- body a b ;; foldM body t a'
  end.

(** The locals of [GetNewDirection] that the loop over the probes updates. *)
Record Votes : Type := mkVotes {
  direction : vec3;
  stop_votes : Z;
  possible_stop_votes : Z;
  alternatives : Z
}.

(** The head of the loop body: the offset [d] of the probe, whether it is
    a stop voter, and the count of possible stop voters; [None] is the
    [continue] of the forward-only filter. *)
Definition probe_offset (olddir probeVec : vec3) (possible : Z)
  : M World (option (vec3 * bool * Z)) :=
  if m_Random f && m_RandomSampling f then
    d0 <- GetRandDouble (m_TrackingHandler f) (-0.5) 0.5 ;;
    d1 <- GetRandDouble (m_TrackingHandler f) (-0.5) 0.5 ;;
    d2 <- GetRandDouble (m_TrackingHandler f) (-0.5) 0.5 ;;
    r <- GetRandDouble (m_TrackingHandler f) 0 (m_SamplingDistance f) ;;
    ret (Some (vscale r (normalize (mkVec d0 d1 d2)), false, possible))
  else
    let d := probeVec in
    let dot := dot_product d olddir in
    if m_UseStopVotes f && Rgtb dot 0.7 then
      ret (Some (vscale (m_SamplingDistance f) d, true, (possible + 1)%Z))
    else if m_OnlyForwardSamples f && Rltb dot 0 then
      ret None
    else
      ret (Some (vscale (m_SamplingDistance f) d, false, possible)).

(** [tempDir]: the handler's proposal at a sample position inside the
    tracking mask, the zero vector outside. *)
Definition sample_direction (sample_pos : Point) (olddirs : list vec3)
  (oldIndex : Index) : M World vec3 :=
  if InsideMask sample_pos (m_MaskInterpolator f)
  then ProposeDirection (m_TrackingHandler f) sample_pos olddirs oldIndex
  else ret zero_dir.

(** One round of the loop over [probeVecs]. *)
Definition probe_sample (pos : Point) (olddirs : list vec3) (oldIndex : Index)
  (olddir : vec3) (v : Votes) (probeVec : vec3) : M World Votes :=
  o <- probe_offset olddir probeVec (possible_stop_votes v) ;;
  match o with
  | None => ret v
  | Some (d, is_stop_voter, possible) =>
    tempDir <- sample_direction (vadd pos d) olddirs oldIndex ;;
    if Rgtb (magnitude tempDir) (mitk_eps ext) then
      ret (mkVotes (vadd (direction v) tempDir) (stop_votes v) possible
             (alternatives v))
    else if m_AvoidStop f && Rgtb (magnitude olddir) 0.5 then
      let votes := if is_stop_voter then (stop_votes v + 1)%Z else stop_votes v in
      let dot := dot_product d olddir in
      let d := if Rgeb dot 0
               then vadd (vneg d) (vscale (2 * dot) olddir)
               else vneg d in
      tempDir <- sample_direction (vadd pos d) olddirs oldIndex ;;
      if Rgtb (magnitude tempDir) (mitk_eps ext) then
        ret (mkVotes
               (vadd (vadd (direction v) (vscale (m_DeflectionMod f) d)) tempDir)
               votes possible (alternatives v + 1)%Z)
      else
        ret (mkVotes (direction v) votes possible (alternatives v + 1)%Z)
    else
      ret (mkVotes (direction v)
             (if is_stop_voter then (stop_votes v + 1)%Z else stop_votes v)
             possible (alternatives v))
  end.

(** [direction.magnitude()>0.001 && (possible_stop_votes==0 ||
    (float)stop_votes/possible_stop_votes<0.5)] *)
Definition votes_valid (v : Votes) : bool :=
  Rgtb (magnitude (direction v)) 0.001
  && ((possible_stop_votes v =? 0)%Z
      || Rltb (IZR (stop_votes v) / IZR (possible_stop_votes v)) 0.5).

(** The direction after the vote: normalised when valid, zero otherwise. *)
Definition voted_direction (v : Votes) : vec3 :=
  if votes_valid v then normalize (direction v) else fill 0.

(** The blending with the directional prior, when a prior handler is set. *)
Definition blend_prior (pos : Point) (olddirs : list vec3) (oldIndex : Index)
  (direction : vec3) (valid : bool) : M World vec3 :=
  match m_TrackingPriorHandler f with
  | Some priorHandler =>
    if m_IntroduceDirectionsFromPrior f || valid then
      prior <- ProposeDirection priorHandler pos olddirs oldIndex ;;
      if Rgtb (magnitude prior) 0.001 then
        let prior := normalize prior in
        let prior := if Rltb (dot_product prior direction) 0
                     then vscale (-1) prior else prior in
        ret (normalize
               (vadd (vscale (1 - m_TrackingPriorWeight f) direction)
                     (vscale (m_TrackingPriorWeight f) prior)))
      else if m_TrackingPriorAsMask f then ret (fill 0)
      else ret direction
    else ret direction
  | None => ret direction
  end.

(** The votes after the loop over the probes ([olddirs] not empty), or the
    initial ones. *)
Definition collect_votes (pos : Point) (olddirs : list vec3) (oldIndex : Index)
  (proposal : vec3) : M World Votes :=
  let v0 := mkVotes proposal 0 0 1 in
  match olddirs with
  | [] => ret v0
  | _ =>
    let olddir := last olddirs zero_dir in
    let probeVecs := CreateDirections (m_NumberOfSamples f) in
    foldM (probe_sample pos olddirs oldIndex olddir) probeVecs v0
  end.

(** The point sets that demo mode fills for display are written and never
    read by the filter; they are left out. *)
Definition GetNewDirection (pos : Point) (olddirs : list vec3) (oldIndex : Index)
  : M World vec3 :=
  if InsideMask pos (m_MaskInterpolator f)
     && negb (InsideMask pos (m_StopInterpolator f))
  then
    proposal <- ProposeDirection (m_TrackingHandler f) pos olddirs oldIndex ;;
    v <- collect_votes pos olddirs oldIndex proposal ;;
    blend_prior pos olddirs oldIndex (voted_direction v) (votes_valid v)
  else ret (fill 0).

End Tracking.

(** ** Propagation of one streamline *)

Section Propagation.

Context {World Image : Type}.
Variable ext : External World Image.
Variable f : Filter World Image.

Open Scope monad_scope.

(** The code that also writes members threads the handler's state and the
    run state together. *)
Definition liftW {A : Type} (m : M World A) : M (World * RunState) A :=
  fun s => let (a, w) := m (fst s) in (a, (w, snd s)).

Definition modify_run (g : RunState -> RunState) : M (World * RunState) unit :=
  fun s => (tt, (fst s, g (snd s))).

Definition CalculateNewPosition (pos : Point) (dir : vec3) : Point :=
  mkVec (vx pos + vx dir * m_StepSize f)
        (vy pos + vy dir * m_StepSize f)
        (vz pos + vz dir * m_StepSize f).

(** The two [while] loops of [CheckCurvature]: they read the directions in
    the order given (from the front, or from the back), while the covered
    length is below [m_Distance]. *)
Fixpoint curvature_window (m_Distance : R) (candidates : list vec3) (dist : R)
  (vectors : list vec3) (meanV : vec3) : list vec3 * vec3 :=
  match candidates with
  | [] => (vectors, meanV)
  | v :: rest =>
    if Rltb dist m_Distance then
      let v := if Rltb (dot_product v meanV) 0 then vneg v else v in
      curvature_window m_Distance rest (dist + m_StepSize f)
        (push_back v vectors) (vadd meanV v)
    else (vectors, meanV)
  end.

Definition CheckCurvature (fib : DirectionContainer) (front : bool) : R :=
  if (length fib <? 8)%nat then 0
  else
    let m_Distance := Rmax (m_MinVoxelSize f * 4) (m_StepSize f * 8) in
    let candidates :=
      if front then firstn (length fib - 1) fib else rev fib in
    let (vectors, meanV) :=
      curvature_window m_Distance candidates 0 [] (fill 0) in
    let meanV := normalize meanV in
    let dev :=
      fold_left
        (fun dev v =>
           let angle := Rabs (dot_product meanV v) in
           let angle := if Rgtb angle 1 then 1 else angle in
           dev + acos angle * 180 / PI)
        vectors 0 in
    if (0 <? length vectors)%nat then dev / INR (length vectors) else dev.

(** [omp_get_num_threads()] inside the parallel region: [BeforeTracking]
    sets the team to one thread in demo mode. *)
Definition omp_get_num_threads : Z :=
  if m_DemoMode f then 1%Z else omp_get_max_threads ext.

Fixpoint pop_back_n {A : Type} (n : nat) (l : list A) : list A :=
  match n with
  | O => l
  | S k => pop_back_n k (pop_back l)
  end.

(** [BuildFibers]: the poly data is the list of the fibres it was built
    from. *)
Definition BuildFibers (check : bool) (rs : RunState) : RunState :=
  if (m_BuildFibersReady rs <? omp_get_num_threads)%Z && check then rs
  else
    mkRun (m_CurrentTracts rs) (m_StopTracking rs)
      (if check
       then pop_back_n (Z.to_nat (m_BuildFibersReady rs)) (m_Tractogram rs)
       else m_Tractogram rs)
      (m_OutputProbabilityMap rs) 0%Z true (m_Tractogram rs)
      (m_Progress rs) (m_Verbose rs) (seed_cursor rs).

(** The critical section of demo mode in [FollowStreamline]: the fibre as
    it stands is shown and taken back.  The wait on [m_Stop] that follows
    changes no member and is left out, as is the one on [m_PauseTracking]. *)
Definition show_partial_fiber (fib : FiberType) (rs : RunState) : RunState :=
  let rs := set_BuildFibersReady rs (m_BuildFibersReady rs + 1)%Z in
  let rs := set_Tractogram rs (push_back fib (m_Tractogram rs)) in
  BuildFibers true rs.

(** What [FollowStreamline] leaves in its by-reference arguments and
    returns. *)
Record Streamline : Type := mkStreamline {
  sl_fib : FiberType;
  sl_container : DirectionContainer;
  sl_tractLength : R;
  sl_exclude : bool
}.

(** The [for] loop of [FollowStreamline], [steps] iterations left. *)
Fixpoint follow_steps (steps : nat) (front : bool) (pos : Point) (dir : vec3)
  (last_dirs : list vec3) (sl : Streamline) : M (World * RunState) Streamline :=
  match steps with
  | O => ret sl
  | S steps' =>
    let oldIndex := WorldToIndex (m_TrackingHandler f) pos in
    let pos := CalculateNewPosition pos dir in
    if InExclusion ext f pos then
      ret (mkStreamline (sl_fib sl) (sl_container sl) (sl_tractLength sl) true)
    else
      abort <- liftW (PollAbort ext) ;;
      if (abort : bool) then ret sl
      else
        let dir := normalize dir in
        let fib :=
          if front then push_front pos (sl_fib sl) else push_back pos (sl_fib sl) in
        let container :=
          if front then push_front dir (sl_container sl)
          else push_back dir (sl_container sl) in
        let tractLength := sl_tractLength sl + m_StepSize f in
        let sl := mkStreamline fib container tractLength (sl_exclude sl) in
        if Rgeb (m_LoopCheck f) 0
           && Rgtb (CheckCurvature container front) (m_LoopCheck f)
        then ret sl
        else if Rgtb tractLength (m_MaxTractLength f) then ret sl
        else
          _ <- (if m_DemoMode f && negb (m_UseOutputProbabilityMap f)
                then modify_run (show_partial_fiber fib)
                else ret tt) ;;
          let last_dirs := push_back dir last_dirs in
          let last_dirs :=
            if (m_NumPreviousDirections f <? Z.of_nat (length last_dirs))%Z
            then pop_front last_dirs else last_dirs in
          dir <- liftW (GetNewDirection ext f pos last_dirs oldIndex) ;;
          if Rltb (magnitude dir) 0.0001 then ret sl
          else follow_steps steps' front pos dir last_dirs sl
  end.

Definition FollowStreamline (pos : Point) (dir : vec3) (fib : FiberType)
  (container : DirectionContainer) (tractLength : R) (front : bool)
  (exclude : bool) : M (World * RunState) Streamline :=
  let last_dirs :=
    repeat zero_dir (Z.to_nat (to_unsigned (m_NumPreviousDirections f - 1))) in
  follow_steps (Z.to_nat (Z.quot (m_MaxLength f) 2)) front pos dir last_dirs
    (mkStreamline fib container tractLength exclude).

End Propagation.

(** ** Validation and acceptance of a fibre *)

Section Acceptance.

Context {World Image : Type}.
Variable ext : External World Image.
Variable f : Filter World Image.

Definition InTarget (p : Point) : bool := InsideMask ext f p (m_TargetInterpolator f).
Definition InSeed (p : Point) : bool := InsideMask ext f p (m_SeedInterpolator f).

(** [GetImageValue<float>(p, false, m_TargetInterpolator)] *)
Definition TargetValue (p : Point) : R :=
  match m_TargetInterpolator f with
  | Some img => GetImageValue ext p false img
  | None => 0
  end.

Definition IsValidFiber (fib : FiberType) : Result bool :=
  match m_EndpointConstraint f with
  | NONE => Ok true
  | EPS_IN_TARGET =>
    if m_TargetImageSet f then
      if InTarget (front fib) && InTarget (back fib) then Ok true else Ok false
    else Throw NoTarget_EPS_IN_TARGET
  | EPS_IN_TARGET_LABELDIFF =>
    if m_TargetImageSet f then
      let v1 := TargetValue (front fib) in
      let v2 := TargetValue (back fib) in
      if Rgtb v1 0 && Rgtb v2 0 && negb (Reqb v1 v2) then Ok true else Ok false
    else Throw NoTarget_EPS_IN_TARGET_LABELDIFF
  | EPS_IN_SEED_AND_TARGET =>
    if m_TargetImageSet f && m_SeedImageSet f then
      if InSeed (front fib) && InTarget (back fib) then Ok true
      else if InSeed (back fib) && InTarget (front fib) then Ok true
      else Ok false
    else Throw NoTargetOrSeed_EPS_IN_SEED_AND_TARGET
  | MIN_ONE_EP_IN_TARGET =>
    if m_TargetImageSet f then
      if InTarget (front fib) || InTarget (back fib) then Ok true else Ok false
    else Throw NoTarget_MIN_ONE_EP_IN_TARGET
  | ONE_EP_IN_TARGET =>
    if m_TargetImageSet f then
      if InTarget (front fib) && negb (InTarget (back fib)) then Ok true
      else if negb (InTarget (back fib)) && InTarget (front fib) then Ok true
      else Ok false
    else Throw NoTarget_ONE_EP_IN_TARGET
  | NO_EP_IN_TARGET =>
    if m_TargetImageSet f then
      if InTarget (front fib) || InTarget (back fib) then Ok false else Ok true
    else Throw NoTarget_NO_EP_IN_TARGET
  end.

(** [SetPixel(idx, GetPixel(idx)+1)] *)
Definition increment_pixel (map : Index -> R) (idx : Index) : Index -> R :=
  fun j => if Index_eqb j idx then map idx + 1 else map j.

(** One round of the loop of [FiberToProbmap] over the points of the fibre;
    the state is the map and [last_idx]. *)
Definition probmap_step (st : (Index -> R) * Index) (p : Point)
  : (Index -> R) * Index :=
  let (map, last_idx) := st in
  let idx := TransformPhysicalPointToIndex ext p in
  if negb (Index_eqb idx last_idx) then
    (if RegionIsInside ext idx then increment_pixel map idx else map, idx)
  else (map, last_idx).

Definition FiberToProbmap (fib : FiberType) (map : Index -> R) : Index -> R :=
  fst (fold_left probmap_step fib (map, zeroIndex)).

(** The body of the test on [m_StopTracking] inside the critical section:
    the fibre goes to the output and is counted. *)
Definition keep_fiber (fib : FiberType) (rs : RunState) : RunState :=
  let rs :=
    if negb (m_UseOutputProbabilityMap f)
    then set_Tractogram rs (push_back fib (m_Tractogram rs))
    else set_OutputProbabilityMap rs (FiberToProbmap fib (m_OutputProbabilityMap rs)) in
  set_CurrentTracts rs (to_unsigned (m_CurrentTracts rs + 1)).

(** The test of the limit that follows it. *)
Definition check_limit (rs : RunState) : RunState :=
  if (0 <? m_MaxNumTracts f)%Z
     && (to_unsigned (m_MaxNumTracts f) <=? m_CurrentTracts rs)%Z
  then set_StopTracking rs true else rs.

(** The critical section of [GenerateData] that accepts a fibre; the
    boolean is [success]. *)
Definition accept_fiber (fib : FiberType) (rs : RunState)
  : Result (bool * RunState) :=
  match IsValidFiber fib with
  | Throw e => Throw e
  | Ok false => Ok (false, rs)
  | Ok true =>
    if negb (m_StopTracking rs)
    then Ok (true, check_limit (keep_fiber fib rs))
    else Ok (false, check_limit rs)
  end.

End Acceptance.

(** ** Seed trials *)

Section Trials.

Context {World Image : Type}.
Variable ext : External World Image.
Variable f : Filter World Image.

(** The part of a trial before the acceptance test: the starting
    direction, the forward pass, the seed point, the backward pass.  [None]
    when the trial does not track (no starting direction, or a seed in the
    exclusion mask). *)
Definition track_seed (worldPos : Point) (s : World * RunState)
  : option Streamline * (World * RunState) :=
  let (dir0, w) := GetNewDirection ext f worldPos [] zeroIndex (fst s) in
  let dir := vscale 0.5 dir0 in
  let exclude := InExclusion ext f worldPos in
  if Rgtb (magnitude dir) 0.0001 && negb exclude then
    let (fwd, s1) :=
      FollowStreamline ext f worldPos dir [] [] 0 false exclude (w, snd s) in
    let fib := push_front worldPos (sl_fib fwd) in
    if negb (sl_exclude fwd) then
      let (sl, s2) :=
        FollowStreamline ext f worldPos (vneg dir) fib (sl_container fwd)
          (sl_tractLength fwd) true (sl_exclude fwd) s1 in
      (Some sl, s2)
    else
      (Some (mkStreamline fib (sl_container fwd) (sl_tractLength fwd)
               (sl_exclude fwd)), s1)
  else (None, (w, snd s)).

(** [tractLength>=m_MinTractLength && counter>=2 && !exclude], with
    [counter] the size of the fibre as an [unsigned int].  [tractLength]
    is the sum the two passes have accumulated step by step: the code
    keeps it in a [float], here it is the exact sum, so at a length within
    rounding of [m_MinTractLength] the code can decide the other way. *)
Definition is_candidate (sl : Streamline) : bool :=
  Rgeb (sl_tractLength sl) (m_MinTractLength f)
  && (2 <=? to_unsigned (Z.of_nat (length (sl_fib sl))))%Z
  && negb (sl_exclude sl).

(** One round of the loop over the trials; the boolean is [success]. *)
Definition trial (worldPos : Point) (s : World * RunState)
  : Result (bool * (World * RunState)) :=
  match track_seed worldPos s with
  | (Some sl, s') =>
    if is_candidate sl then
      match accept_fiber ext f (sl_fib sl) (snd s') with
      | Throw e => Throw e
      | Ok (success, rs) => Ok (success, (fst s', rs))
      end
    else Ok (false, s')
  | (None, s') => Ok (false, s')
  end.

(** The loop over the trials of one seed, [n] rounds left.  It returns the
    [success] flag of every trial it performed, in order. *)
Fixpoint trials_loop (n : nat) (worldPos : Point) (s : World * RunState)
  : Result (list bool * (World * RunState)) :=
  match n with
  | O => Ok ([], s)
  | S n' =>
    match trial worldPos s with
    | Throw e => Throw e
    | Ok (success, s') =>
      if success || negb (MODE_eqb (GetMode (m_TrackingHandler f)) PROBABILISTIC)
      then Ok ([success], s')
      else
        match trials_loop n' worldPos s' with
        | Throw e => Throw e
        | Ok (l, s'') => Ok (success :: l, s'')
        end
    end
  end.

Definition seed_trials (worldPos : Point) (s : World * RunState)
  : Result (list bool * (World * RunState)) :=
  trials_loop (Z.to_nat (m_TrialsPerSeed f)) worldPos s.

(** The critical section that takes the next seed. *)
Definition take_seed (rs : RunState) : Z * RunState :=
  (seed_cursor rs, set_seed_cursor rs (seed_cursor rs + 1)%Z).

Definition report_progress (print_interval : Z) (rs : RunState) : RunState :=
  set_Progress rs (m_Progress rs + print_interval)%Z.

(** The loop over the seeds as one thread runs it, [fuel] rounds left. *)
Fixpoint seed_loop (fuel : nat) (num_seeds print_interval : Z)
  (s : World * RunState) : Result (World * RunState) :=
  match fuel with
  | O => Ok s
  | S fuel' =>
    if (seed_cursor (snd s) <? num_seeds)%Z && negb (m_StopTracking (snd s)) then
      let (temp_i, rs) := take_seed (snd s) in
      if (num_seeds <=? temp_i)%Z || m_StopTracking rs then
        seed_loop fuel' num_seeds print_interval (fst s, rs)
      else
        let rs :=
          if m_Verbose rs && (Z.rem (seed_cursor rs) print_interval =? 0)%Z
          then report_progress print_interval rs else rs in
        let worldPos := nth (Z.to_nat temp_i) (m_SeedPoints f) zero_dir in
        match seed_trials worldPos (fst s, rs) with
        | Throw e => Throw e
        | Ok (_, s') => seed_loop fuel' num_seeds print_interval s'
        end
    else Ok s
  end.

End Trials.

(** ** The whole run *)

Section Run.

Context {World Image : Type}.
Variable ext : External World Image.

Open Scope monad_scope.

Definition set_SeedPoints (f : Filter World Image) (seeds : list Point)
  : Filter World Image :=
  mkFilter (m_TrackingHandler f) (m_TrackingPriorHandler f)
    (m_StoppingRegions f) (m_TargetRegions f) (m_SeedImage f) (m_MaskImage f)
    (m_ExclusionRegions f) (m_MaskInterpolator f) (m_StopInterpolator f)
    (m_SeedInterpolator f) (m_TargetInterpolator f) (m_ExclusionInterpolator f)
    (m_TargetImageSet f) (m_SeedImageSet f) (m_MinVoxelSize f)
    (m_AngularThresholdDeg f) (m_StepSizeVox f) (m_SamplingDistanceVox f)
    (m_AngularThreshold f) (m_StepSize f) (m_MaxLength f) (m_MinTractLength f)
    (m_MaxTractLength f) (m_SeedsPerVoxel f) (m_AvoidStop f)
    (m_RandomSampling f) (m_SamplingDistance f) (m_DeflectionMod f)
    (m_OnlyForwardSamples f) (m_UseStopVotes f) (m_NumberOfSamples f)
    (m_NumPreviousDirections f) (m_MaxNumTracts f) (m_LoopCheck f)
    (m_DemoMode f) (m_Random f) (m_UseOutputProbabilityMap f)
    (m_InterpolateMasks f) (m_TrialsPerSeed f) (m_EndpointConstraint f)
    (m_IntroduceDirectionsFromPrior f) (m_TrackingPriorAsMask f)
    (m_TrackingPriorWeight f) seeds.

Definition index_as_continuous (index : Index) (jitter : vec3) : vec3 :=
  mkVec (IZR (ix index) + vx jitter) (IZR (iy index) + vy jitter)
        (IZR (iz index) + vz jitter).

(** The jittered seeds of one voxel, [n] of them. *)
Fixpoint jittered_seeds (f : Filter World Image) (seedImage : Image)
  (index : Index) (n : nat) : M World (list Point) :=
  match n with
  | O => ret []
  | S n' =>
    j0 <- GetRandDouble (m_TrackingHandler f) (-0.5) 0.5 ;;
    j1 <- GetRandDouble (m_TrackingHandler f) (-0.5) 0.5 ;;
    j2 <- GetRandDouble (m_TrackingHandler f) (-0.5) 0.5 ;;
    rest <- jittered_seeds f seedImage index n' ;;
    ret (TransformContinuousIndexToPhysicalPoint ext seedImage
           (index_as_continuous index (mkVec j0 j1 j2)) :: rest)
  end.

Definition GetSeedPointsFromSeedImage (f : Filter World Image)
  : M World (list Point) :=
  match m_SeedImage f with
  | None => ret []
  | Some seedImage =>
    foldM
      (fun seeds (voxel : Index * R) =>
         let (index, value) := voxel in
         if Rgtb value 0 then
           let worldPos :=
             TransformContinuousIndexToPhysicalPoint ext seedImage
               (index_as_continuous index (fill 0)) in
           if InsideMask ext f worldPos (m_MaskInterpolator f) then
             more <- jittered_seeds f seedImage index
                       (Z.to_nat (m_SeedsPerVoxel f - 1)) ;;
             ret (seeds ++ worldPos :: more)
           else ret seeds
         else ret seeds)
      (ImageVoxels ext seedImage) []
  end.

Definition or_filled (image : option Image) (c : R) : Image :=
  match image with
  | Some img => img
  | None => FilledImage ext c
  end.

Definition is_set (image : option Image) : bool :=
  match image with Some _ => true | None => false end.

(** The members [BeforeTracking] derives from the settings: voxel size,
    step size, angular threshold, sampling distance, the default images,
    the interpolators, the flags of the target and seed image, and the
    endpoint constraint chosen when none was. *)
Definition prepare_members (f : Filter World Image) : Filter World Image :=
  let imageSpacing := GetSpacing (m_TrackingHandler f) in
  let minVoxelSize :=
    if Rltb (vx imageSpacing) (vy imageSpacing)
       && Rltb (vx imageSpacing) (vz imageSpacing)
    then vx imageSpacing
    else if Rltb (vy imageSpacing) (vz imageSpacing) then vy imageSpacing
    else vz imageSpacing in
  let stepSize :=
    if Rltb (m_StepSizeVox f) (mitk_eps ext) then 0.5 * minVoxelSize
    else m_StepSizeVox f * minVoxelSize in
  let angularThreshold :=
    if Rltb (m_AngularThresholdDeg f) 0 then
      if Rleb (stepSize / minVoxelSize) 0.966
      then cos (0.5 * PI * stepSize / minVoxelSize)
      else cos (0.5 * PI * 0.966)
    else cos (m_AngularThresholdDeg f * PI / 180) in
  let samplingDistance :=
    if Rltb (m_SamplingDistanceVox f) (mitk_eps ext) then minVoxelSize * 0.25
    else m_SamplingDistanceVox f * minVoxelSize in
  let targetImageSet := is_set (m_TargetRegions f) in
  let seedImageSet := is_set (m_SeedImage f) in
  let endpointConstraint :=
    match m_EndpointConstraint f with
    | NONE =>
      if targetImageSet && seedImageSet then EPS_IN_SEED_AND_TARGET
      else if targetImageSet then EPS_IN_TARGET
      else NONE
    | c => c
    end in
  mkFilter (m_TrackingHandler f) (m_TrackingPriorHandler f)
    (Some (or_filled (m_StoppingRegions f) 0))
    (Some (or_filled (m_TargetRegions f) 1))
    (Some (or_filled (m_SeedImage f) 1))
    (Some (or_filled (m_MaskImage f) 1))
    (m_ExclusionRegions f)
    (Some (or_filled (m_MaskImage f) 1))
    (Some (or_filled (m_StoppingRegions f) 0))
    (Some (or_filled (m_SeedImage f) 1))
    (m_TargetRegions f)
    (m_ExclusionRegions f)
    targetImageSet seedImageSet minVoxelSize
    (m_AngularThresholdDeg f) (m_StepSizeVox f) (m_SamplingDistanceVox f)
    angularThreshold stepSize (m_MaxLength f) (m_MinTractLength f)
    (m_MaxTractLength f) (m_SeedsPerVoxel f) (m_AvoidStop f)
    (m_RandomSampling f) samplingDistance (m_DeflectionMod f)
    (m_OnlyForwardSamples f) (m_UseStopVotes f) (m_NumberOfSamples f)
    (m_NumPreviousDirections f) (m_MaxNumTracts f) (m_LoopCheck f)
    (m_DemoMode f) (m_Random f) (m_UseOutputProbabilityMap f)
    (m_InterpolateMasks f) (m_TrialsPerSeed f) endpointConstraint
    (m_IntroduceDirectionsFromPrior f) (m_TrackingPriorAsMask f)
    (m_TrackingPriorWeight f) (m_SeedPoints f).

(** The calls that set up the handler and the prior handler. *)
Definition init_handlers (f : Filter World Image) (w : World) : World :=
  let h := m_TrackingHandler f in
  let w := InitForTracking h (SetRandom h (m_Random f) w) in
  let w := SetAngularThreshold h (m_AngularThreshold (prepare_members f)) w in
  match m_TrackingPriorHandler f with
  | Some p =>
    SetAngularThreshold p (m_AngularThreshold (prepare_members f))
      (InitForTracking p (SetRandom p (m_Random f) w))
  | None => w
  end.

(** The fibre of two points at the origin on which [BeforeTracking] tries
    the endpoint constraint. *)
Definition test_fib : FiberType := [fill 0; fill 0].

(** [BeforeTracking].  Console output, the VTK containers, the point sets
    of demo mode and the clock are left out. *)
Definition BeforeTracking (f : Filter World Image) (rs : RunState) (w : World)
  : Result (Filter World Image * RunState * World) :=
  let w := init_handlers f w in
  let f' := prepare_members f in
  let map :=
    if m_UseOutputProbabilityMap f then (fun _ : Index => 0)
    else m_OutputProbabilityMap rs in
  match IsValidFiber ext f' test_fib with
  | Throw e => Throw e
  | Ok _ =>
    let (seeds, w) :=
      match m_SeedPoints f' with
      | [] => GetSeedPointsFromSeedImage f' w
      | _ => (m_SeedPoints f', w)
      end in
    Ok (set_SeedPoints f' seeds,
        mkRun (m_CurrentTracts rs) false [] map 0%Z false []
          (m_Progress rs) (m_Verbose rs) (seed_cursor rs),
        w)
  end.

(** [AfterTracking]: the output is built, the seed points are cleared. *)
Definition AfterTracking (f : Filter World Image) (rs : RunState)
  : Filter World Image * RunState :=
  (set_SeedPoints f [],
   if negb (m_UseOutputProbabilityMap f) then BuildFibers ext f false rs
   else set_OutputProbabilityMap rs (RescaleIntensity ext (m_OutputProbabilityMap rs))).

(** The members [GenerateData] resets before the parallel loop. *)
Definition start_run (num_seeds : Z) (rs : RunState) : RunState :=
  mkRun 0%Z (m_StopTracking rs) (m_Tractogram rs) (m_OutputProbabilityMap rs)
    (m_BuildFibersReady rs) (m_BuildFibersFinished rs) (m_FiberPolyData rs)
    0%Z
    (if (Z.quot num_seeds 100 <? 100)%Z then false else m_Verbose rs)
    0%Z.

(** [GenerateData] with the parallel loop run by one thread. *)
Definition GenerateData (f : Filter World Image) (rs : RunState) (w : World)
  : Result (Filter World Image * RunState * World) :=
  match BeforeTracking f rs w with
  | Throw e => Throw e
  | Ok (f, rs, w) =>
    let (seeds, w) :=
      if m_Random f then random_shuffle ext (m_SeedPoints f) w
      else (m_SeedPoints f, w) in
    let f := set_SeedPoints f seeds in
    let num_seeds := Z.of_nat (length (m_SeedPoints f)) in
    let rs := start_run num_seeds rs in
    match seed_loop ext f (length (m_SeedPoints f)) num_seeds
            (Z.quot num_seeds 100) (w, rs) with
    | Throw e => Throw e
    | Ok (w, rs) =>
      let (f, rs) := AfterTracking f rs in
      Ok (f, rs, w)
    end
  end.

End Run.

(** ** The constructor and the setters of the filter *)

Section Setters.

Context {World Image : Type}.

(** The values the constructor gives the members; the two flags it leaves
    uninitialised are [false]. *)
Definition StreamlineTrackingFilter (handler : TrackingDataHandler World)
  : Filter World Image :=
  mkFilter handler None None None None None None None None None None None
    false false (-1) (-1) (-1) (-1) (-1) 0 10000%Z 20 400 1%Z true false (-1) 1
    true true 30%Z 1%Z (-1)%Z (-1) false true false true 10%Z NONE true true 1
    [].

Definition initial_run : RunState :=
  mkRun 0%Z false [] (fun _ => 0) 0%Z false [] 0%Z true 0%Z.

Definition SetTrackingPriorHandler (v : option (TrackingDataHandler World)) (f : Filter World Image)
  : Filter World Image :=
  mkFilter (m_TrackingHandler f) v (m_StoppingRegions f) (m_TargetRegions f)
    (m_SeedImage f) (m_MaskImage f) (m_ExclusionRegions f)
    (m_MaskInterpolator f) (m_StopInterpolator f) (m_SeedInterpolator f)
    (m_TargetInterpolator f) (m_ExclusionInterpolator f) (m_TargetImageSet
    f) (m_SeedImageSet f) (m_MinVoxelSize f) (m_AngularThresholdDeg f)
    (m_StepSizeVox f) (m_SamplingDistanceVox f) (m_AngularThreshold f)
    (m_StepSize f) (m_MaxLength f) (m_MinTractLength f) (m_MaxTractLength f)
    (m_SeedsPerVoxel f) (m_AvoidStop f) (m_RandomSampling f)
    (m_SamplingDistance f) (m_DeflectionMod f) (m_OnlyForwardSamples f)
    (m_UseStopVotes f) (m_NumberOfSamples f) (m_NumPreviousDirections f)
    (m_MaxNumTracts f) (m_LoopCheck f) (m_DemoMode f) (m_Random f)
    (m_UseOutputProbabilityMap f) (m_InterpolateMasks f) (m_TrialsPerSeed f)
    (m_EndpointConstraint f) (m_IntroduceDirectionsFromPrior f)
    (m_TrackingPriorAsMask f) (m_TrackingPriorWeight f) (m_SeedPoints f).

Definition SetTargetRegions (v : option Image) (f : Filter World Image)
  : Filter World Image :=
  mkFilter (m_TrackingHandler f) (m_TrackingPriorHandler f)
    (m_StoppingRegions f) v (m_SeedImage f) (m_MaskImage f)
    (m_ExclusionRegions f) (m_MaskInterpolator f) (m_StopInterpolator f)
    (m_SeedInterpolator f) (m_TargetInterpolator f) (m_ExclusionInterpolator
    f) (m_TargetImageSet f) (m_SeedImageSet f) (m_MinVoxelSize f)
    (m_AngularThresholdDeg f) (m_StepSizeVox f) (m_SamplingDistanceVox f)
    (m_AngularThreshold f) (m_StepSize f) (m_MaxLength f) (m_MinTractLength
    f) (m_MaxTractLength f) (m_SeedsPerVoxel f) (m_AvoidStop f)
    (m_RandomSampling f) (m_SamplingDistance f) (m_DeflectionMod f)
    (m_OnlyForwardSamples f) (m_UseStopVotes f) (m_NumberOfSamples f)
    (m_NumPreviousDirections f) (m_MaxNumTracts f) (m_LoopCheck f)
    (m_DemoMode f) (m_Random f) (m_UseOutputProbabilityMap f)
    (m_InterpolateMasks f) (m_TrialsPerSeed f) (m_EndpointConstraint f)
    (m_IntroduceDirectionsFromPrior f) (m_TrackingPriorAsMask f)
    (m_TrackingPriorWeight f) (m_SeedPoints f).

Definition SetSeedImage (v : option Image) (f : Filter World Image)
  : Filter World Image :=
  mkFilter (m_TrackingHandler f) (m_TrackingPriorHandler f)
    (m_StoppingRegions f) (m_TargetRegions f) v (m_MaskImage f)
    (m_ExclusionRegions f) (m_MaskInterpolator f) (m_StopInterpolator f)
    (m_SeedInterpolator f) (m_TargetInterpolator f) (m_ExclusionInterpolator
    f) (m_TargetImageSet f) (m_SeedImageSet f) (m_MinVoxelSize f)
    (m_AngularThresholdDeg f) (m_StepSizeVox f) (m_SamplingDistanceVox f)
    (m_AngularThreshold f) (m_StepSize f) (m_MaxLength f) (m_MinTractLength
    f) (m_MaxTractLength f) (m_SeedsPerVoxel f) (m_AvoidStop f)
    (m_RandomSampling f) (m_SamplingDistance f) (m_DeflectionMod f)
    (m_OnlyForwardSamples f) (m_UseStopVotes f) (m_NumberOfSamples f)
    (m_NumPreviousDirections f) (m_MaxNumTracts f) (m_LoopCheck f)
    (m_DemoMode f) (m_Random f) (m_UseOutputProbabilityMap f)
    (m_InterpolateMasks f) (m_TrialsPerSeed f) (m_EndpointConstraint f)
    (m_IntroduceDirectionsFromPrior f) (m_TrackingPriorAsMask f)
    (m_TrackingPriorWeight f) (m_SeedPoints f).

Definition SetExclusionRegions (v : option Image) (f : Filter World Image)
  : Filter World Image :=
  mkFilter (m_TrackingHandler f) (m_TrackingPriorHandler f)
    (m_StoppingRegions f) (m_TargetRegions f) (m_SeedImage f) (m_MaskImage
    f) v (m_MaskInterpolator f) (m_StopInterpolator f) (m_SeedInterpolator
    f) (m_TargetInterpolator f) (m_ExclusionInterpolator f)
    (m_TargetImageSet f) (m_SeedImageSet f) (m_MinVoxelSize f)
    (m_AngularThresholdDeg f) (m_StepSizeVox f) (m_SamplingDistanceVox f)
    (m_AngularThreshold f) (m_StepSize f) (m_MaxLength f) (m_MinTractLength
    f) (m_MaxTractLength f) (m_SeedsPerVoxel f) (m_AvoidStop f)
    (m_RandomSampling f) (m_SamplingDistance f) (m_DeflectionMod f)
    (m_OnlyForwardSamples f) (m_UseStopVotes f) (m_NumberOfSamples f)
    (m_NumPreviousDirections f) (m_MaxNumTracts f) (m_LoopCheck f)
    (m_DemoMode f) (m_Random f) (m_UseOutputProbabilityMap f)
    (m_InterpolateMasks f) (m_TrialsPerSeed f) (m_EndpointConstraint f)
    (m_IntroduceDirectionsFromPrior f) (m_TrackingPriorAsMask f)
    (m_TrackingPriorWeight f) (m_SeedPoints f).

Definition SetMaxLength (v : Z) (f : Filter World Image)
  : Filter World Image :=
  mkFilter (m_TrackingHandler f) (m_TrackingPriorHandler f)
    (m_StoppingRegions f) (m_TargetRegions f) (m_SeedImage f) (m_MaskImage
    f) (m_ExclusionRegions f) (m_MaskInterpolator f) (m_StopInterpolator f)
    (m_SeedInterpolator f) (m_TargetInterpolator f) (m_ExclusionInterpolator
    f) (m_TargetImageSet f) (m_SeedImageSet f) (m_MinVoxelSize f)
    (m_AngularThresholdDeg f) (m_StepSizeVox f) (m_SamplingDistanceVox f)
    (m_AngularThreshold f) (m_StepSize f) v (m_MinTractLength f)
    (m_MaxTractLength f) (m_SeedsPerVoxel f) (m_AvoidStop f)
    (m_RandomSampling f) (m_SamplingDistance f) (m_DeflectionMod f)
    (m_OnlyForwardSamples f) (m_UseStopVotes f) (m_NumberOfSamples f)
    (m_NumPreviousDirections f) (m_MaxNumTracts f) (m_LoopCheck f)
    (m_DemoMode f) (m_Random f) (m_UseOutputProbabilityMap f)
    (m_InterpolateMasks f) (m_TrialsPerSeed f) (m_EndpointConstraint f)
    (m_IntroduceDirectionsFromPrior f) (m_TrackingPriorAsMask f)
    (m_TrackingPriorWeight f) (m_SeedPoints f).

Definition SetMinTractLength (v : R) (f : Filter World Image)
  : Filter World Image :=
  mkFilter (m_TrackingHandler f) (m_TrackingPriorHandler f)
    (m_StoppingRegions f) (m_TargetRegions f) (m_SeedImage f) (m_MaskImage
    f) (m_ExclusionRegions f) (m_MaskInterpolator f) (m_StopInterpolator f)
    (m_SeedInterpolator f) (m_TargetInterpolator f) (m_ExclusionInterpolator
    f) (m_TargetImageSet f) (m_SeedImageSet f) (m_MinVoxelSize f)
    (m_AngularThresholdDeg f) (m_StepSizeVox f) (m_SamplingDistanceVox f)
    (m_AngularThreshold f) (m_StepSize f) (m_MaxLength f) v
    (m_MaxTractLength f) (m_SeedsPerVoxel f) (m_AvoidStop f)
    (m_RandomSampling f) (m_SamplingDistance f) (m_DeflectionMod f)
    (m_OnlyForwardSamples f) (m_UseStopVotes f) (m_NumberOfSamples f)
    (m_NumPreviousDirections f) (m_MaxNumTracts f) (m_LoopCheck f)
    (m_DemoMode f) (m_Random f) (m_UseOutputProbabilityMap f)
    (m_InterpolateMasks f) (m_TrialsPerSeed f) (m_EndpointConstraint f)
    (m_IntroduceDirectionsFromPrior f) (m_TrackingPriorAsMask f)
    (m_TrackingPriorWeight f) (m_SeedPoints f).

Definition SetNumberOfSamples (v : Z) (f : Filter World Image)
  : Filter World Image :=
  mkFilter (m_TrackingHandler f) (m_TrackingPriorHandler f)
    (m_StoppingRegions f) (m_TargetRegions f) (m_SeedImage f) (m_MaskImage
    f) (m_ExclusionRegions f) (m_MaskInterpolator f) (m_StopInterpolator f)
    (m_SeedInterpolator f) (m_TargetInterpolator f) (m_ExclusionInterpolator
    f) (m_TargetImageSet f) (m_SeedImageSet f) (m_MinVoxelSize f)
    (m_AngularThresholdDeg f) (m_StepSizeVox f) (m_SamplingDistanceVox f)
    (m_AngularThreshold f) (m_StepSize f) (m_MaxLength f) (m_MinTractLength
    f) (m_MaxTractLength f) (m_SeedsPerVoxel f) (m_AvoidStop f)
    (m_RandomSampling f) (m_SamplingDistance f) (m_DeflectionMod f)
    (m_OnlyForwardSamples f) (m_UseStopVotes f) v (m_NumPreviousDirections
    f) (m_MaxNumTracts f) (m_LoopCheck f) (m_DemoMode f) (m_Random f)
    (m_UseOutputProbabilityMap f) (m_InterpolateMasks f) (m_TrialsPerSeed f)
    (m_EndpointConstraint f) (m_IntroduceDirectionsFromPrior f)
    (m_TrackingPriorAsMask f) (m_TrackingPriorWeight f) (m_SeedPoints f).

Definition SetMaxNumTracts (v : Z) (f : Filter World Image)
  : Filter World Image :=
  mkFilter (m_TrackingHandler f) (m_TrackingPriorHandler f)
    (m_StoppingRegions f) (m_TargetRegions f) (m_SeedImage f) (m_MaskImage
    f) (m_ExclusionRegions f) (m_MaskInterpolator f) (m_StopInterpolator f)
    (m_SeedInterpolator f) (m_TargetInterpolator f) (m_ExclusionInterpolator
    f) (m_TargetImageSet f) (m_SeedImageSet f) (m_MinVoxelSize f)
    (m_AngularThresholdDeg f) (m_StepSizeVox f) (m_SamplingDistanceVox f)
    (m_AngularThreshold f) (m_StepSize f) (m_MaxLength f) (m_MinTractLength
    f) (m_MaxTractLength f) (m_SeedsPerVoxel f) (m_AvoidStop f)
    (m_RandomSampling f) (m_SamplingDistance f) (m_DeflectionMod f)
    (m_OnlyForwardSamples f) (m_UseStopVotes f) (m_NumberOfSamples f)
    (m_NumPreviousDirections f) v (m_LoopCheck f) (m_DemoMode f) (m_Random
    f) (m_UseOutputProbabilityMap f) (m_InterpolateMasks f) (m_TrialsPerSeed
    f) (m_EndpointConstraint f) (m_IntroduceDirectionsFromPrior f)
    (m_TrackingPriorAsMask f) (m_TrackingPriorWeight f) (m_SeedPoints f).

Definition SetRandomSampling (v : bool) (f : Filter World Image)
  : Filter World Image :=
  mkFilter (m_TrackingHandler f) (m_TrackingPriorHandler f)
    (m_StoppingRegions f) (m_TargetRegions f) (m_SeedImage f) (m_MaskImage
    f) (m_ExclusionRegions f) (m_MaskInterpolator f) (m_StopInterpolator f)
    (m_SeedInterpolator f) (m_TargetInterpolator f) (m_ExclusionInterpolator
    f) (m_TargetImageSet f) (m_SeedImageSet f) (m_MinVoxelSize f)
    (m_AngularThresholdDeg f) (m_StepSizeVox f) (m_SamplingDistanceVox f)
    (m_AngularThreshold f) (m_StepSize f) (m_MaxLength f) (m_MinTractLength
    f) (m_MaxTractLength f) (m_SeedsPerVoxel f) (m_AvoidStop f) v
    (m_SamplingDistance f) (m_DeflectionMod f) (m_OnlyForwardSamples f)
    (m_UseStopVotes f) (m_NumberOfSamples f) (m_NumPreviousDirections f)
    (m_MaxNumTracts f) (m_LoopCheck f) (m_DemoMode f) (m_Random f)
    (m_UseOutputProbabilityMap f) (m_InterpolateMasks f) (m_TrialsPerSeed f)
    (m_EndpointConstraint f) (m_IntroduceDirectionsFromPrior f)
    (m_TrackingPriorAsMask f) (m_TrackingPriorWeight f) (m_SeedPoints f).

Definition SetUseOutputProbabilityMap (v : bool) (f : Filter World Image)
  : Filter World Image :=
  mkFilter (m_TrackingHandler f) (m_TrackingPriorHandler f)
    (m_StoppingRegions f) (m_TargetRegions f) (m_SeedImage f) (m_MaskImage
    f) (m_ExclusionRegions f) (m_MaskInterpolator f) (m_StopInterpolator f)
    (m_SeedInterpolator f) (m_TargetInterpolator f) (m_ExclusionInterpolator
    f) (m_TargetImageSet f) (m_SeedImageSet f) (m_MinVoxelSize f)
    (m_AngularThresholdDeg f) (m_StepSizeVox f) (m_SamplingDistanceVox f)
    (m_AngularThreshold f) (m_StepSize f) (m_MaxLength f) (m_MinTractLength
    f) (m_MaxTractLength f) (m_SeedsPerVoxel f) (m_AvoidStop f)
    (m_RandomSampling f) (m_SamplingDistance f) (m_DeflectionMod f)
    (m_OnlyForwardSamples f) (m_UseStopVotes f) (m_NumberOfSamples f)
    (m_NumPreviousDirections f) (m_MaxNumTracts f) (m_LoopCheck f)
    (m_DemoMode f) (m_Random f) v (m_InterpolateMasks f) (m_TrialsPerSeed f)
    (m_EndpointConstraint f) (m_IntroduceDirectionsFromPrior f)
    (m_TrackingPriorAsMask f) (m_TrackingPriorWeight f) (m_SeedPoints f).

Definition SetTrialsPerSeed (v : Z) (f : Filter World Image)
  : Filter World Image :=
  mkFilter (m_TrackingHandler f) (m_TrackingPriorHandler f)
    (m_StoppingRegions f) (m_TargetRegions f) (m_SeedImage f) (m_MaskImage
    f) (m_ExclusionRegions f) (m_MaskInterpolator f) (m_StopInterpolator f)
    (m_SeedInterpolator f) (m_TargetInterpolator f) (m_ExclusionInterpolator
    f) (m_TargetImageSet f) (m_SeedImageSet f) (m_MinVoxelSize f)
    (m_AngularThresholdDeg f) (m_StepSizeVox f) (m_SamplingDistanceVox f)
    (m_AngularThreshold f) (m_StepSize f) (m_MaxLength f) (m_MinTractLength
    f) (m_MaxTractLength f) (m_SeedsPerVoxel f) (m_AvoidStop f)
    (m_RandomSampling f) (m_SamplingDistance f) (m_DeflectionMod f)
    (m_OnlyForwardSamples f) (m_UseStopVotes f) (m_NumberOfSamples f)
    (m_NumPreviousDirections f) (m_MaxNumTracts f) (m_LoopCheck f)
    (m_DemoMode f) (m_Random f) (m_UseOutputProbabilityMap f)
    (m_InterpolateMasks f) v (m_EndpointConstraint f)
    (m_IntroduceDirectionsFromPrior f) (m_TrackingPriorAsMask f)
    (m_TrackingPriorWeight f) (m_SeedPoints f).

Definition SetEndpointConstraint (v : EndpointConstraints) (f : Filter World Image)
  : Filter World Image :=
  mkFilter (m_TrackingHandler f) (m_TrackingPriorHandler f)
    (m_StoppingRegions f) (m_TargetRegions f) (m_SeedImage f) (m_MaskImage
    f) (m_ExclusionRegions f) (m_MaskInterpolator f) (m_StopInterpolator f)
    (m_SeedInterpolator f) (m_TargetInterpolator f) (m_ExclusionInterpolator
    f) (m_TargetImageSet f) (m_SeedImageSet f) (m_MinVoxelSize f)
    (m_AngularThresholdDeg f) (m_StepSizeVox f) (m_SamplingDistanceVox f)
    (m_AngularThreshold f) (m_StepSize f) (m_MaxLength f) (m_MinTractLength
    f) (m_MaxTractLength f) (m_SeedsPerVoxel f) (m_AvoidStop f)
    (m_RandomSampling f) (m_SamplingDistance f) (m_DeflectionMod f)
    (m_OnlyForwardSamples f) (m_UseStopVotes f) (m_NumberOfSamples f)
    (m_NumPreviousDirections f) (m_MaxNumTracts f) (m_LoopCheck f)
    (m_DemoMode f) (m_Random f) (m_UseOutputProbabilityMap f)
    (m_InterpolateMasks f) (m_TrialsPerSeed f) v
    (m_IntroduceDirectionsFromPrior f) (m_TrackingPriorAsMask f)
    (m_TrackingPriorWeight f) (m_SeedPoints f).

Definition SetStepSizeVox (v : R) (f : Filter World Image)
  : Filter World Image :=
  mkFilter (m_TrackingHandler f) (m_TrackingPriorHandler f)
    (m_StoppingRegions f) (m_TargetRegions f) (m_SeedImage f) (m_MaskImage
    f) (m_ExclusionRegions f) (m_MaskInterpolator f) (m_StopInterpolator f)
    (m_SeedInterpolator f) (m_TargetInterpolator f) (m_ExclusionInterpolator
    f) (m_TargetImageSet f) (m_SeedImageSet f) (m_MinVoxelSize f)
    (m_AngularThresholdDeg f) v (m_SamplingDistanceVox f)
    (m_AngularThreshold f) (m_StepSize f) (m_MaxLength f) (m_MinTractLength
    f) (m_MaxTractLength f) (m_SeedsPerVoxel f) (m_AvoidStop f)
    (m_RandomSampling f) (m_SamplingDistance f) (m_DeflectionMod f)
    (m_OnlyForwardSamples f) (m_UseStopVotes f) (m_NumberOfSamples f)
    (m_NumPreviousDirections f) (m_MaxNumTracts f) (m_LoopCheck f)
    (m_DemoMode f) (m_Random f) (m_UseOutputProbabilityMap f)
    (m_InterpolateMasks f) (m_TrialsPerSeed f) (m_EndpointConstraint f)
    (m_IntroduceDirectionsFromPrior f) (m_TrackingPriorAsMask f)
    (m_TrackingPriorWeight f) (m_SeedPoints f).

Definition SetDemoMode (v : bool) (f : Filter World Image)
  : Filter World Image :=
  mkFilter (m_TrackingHandler f) (m_TrackingPriorHandler f)
    (m_StoppingRegions f) (m_TargetRegions f) (m_SeedImage f) (m_MaskImage
    f) (m_ExclusionRegions f) (m_MaskInterpolator f) (m_StopInterpolator f)
    (m_SeedInterpolator f) (m_TargetInterpolator f) (m_ExclusionInterpolator
    f) (m_TargetImageSet f) (m_SeedImageSet f) (m_MinVoxelSize f)
    (m_AngularThresholdDeg f) (m_StepSizeVox f) (m_SamplingDistanceVox f)
    (m_AngularThreshold f) (m_StepSize f) (m_MaxLength f) (m_MinTractLength
    f) (m_MaxTractLength f) (m_SeedsPerVoxel f) (m_AvoidStop f)
    (m_RandomSampling f) (m_SamplingDistance f) (m_DeflectionMod f)
    (m_OnlyForwardSamples f) (m_UseStopVotes f) (m_NumberOfSamples f)
    (m_NumPreviousDirections f) (m_MaxNumTracts f) (m_LoopCheck f) v
    (m_Random f) (m_UseOutputProbabilityMap f) (m_InterpolateMasks f)
    (m_TrialsPerSeed f) (m_EndpointConstraint f)
    (m_IntroduceDirectionsFromPrior f) (m_TrackingPriorAsMask f)
    (m_TrackingPriorWeight f) (m_SeedPoints f).

End Setters.

(** ** A concrete setting for examples

    The world has no state; an image gives a value at every world
    position, and a position is inside a mask when the value there is at
    least 0.5.  The handler proposes one fixed direction everywhere. *)

Definition PlainImage : Type := Point -> R.

Definition constant_handler (proposal : vec3) (mode : MODE)
  : TrackingDataHandler unit :=
  mkHandler
    (fun _ _ _ => ret proposal)
    (fun lo _ => ret lo)
    (fun _ => zeroIndex)
    mode
    (mkVec 1 1 1)
    (fun _ w => w)
    (fun w => w)
    (fun _ w => w).

(** Voxels of unit size: the index of a position is [(1,0,0)] below
    [x = 1.5] and [(2,0,0)] from there on. *)
Definition two_voxels (p : Point) : Index :=
  if Rltb (vx p) 1.5 then mkIndex 1 0 0 else mkIndex 2 0 0.

Definition plain_ext : External unit PlainImage :=
  mkExternal
    (fun p _ img => Rgeb (img p) 0.5)
    (fun p _ img => img p)
    (fun c _ => c)
    (fun _ => [])
    (fun _ v => v)
    two_voxels
    (fun _ => true)
    (fun m => m)
    (fun l => ret l)
    (ret false)
    4%Z
    (1 / 4503599627370496).

Definition x_axis : vec3 := mkVec 1 0 0.
Definition origin : Point := mkVec 0 0 0.

(** The half space [x >= 0.5] as a mask. *)
Definition right_half : PlainImage := fun p => vx p.

Definition everywhere : PlainImage := fun _ => 1.
Definition nowhere : PlainImage := fun _ => 0.

(** A direction field along the x axis: the handler proposes the
    orientation that agrees with the last direction. *)
Definition along_x (olddirs : list vec3) : vec3 :=
  if Rltb (vx (last olddirs x_axis)) 0 then vneg x_axis else x_axis.

Definition x_handler : TrackingDataHandler unit :=
  mkHandler
    (fun _ olddirs _ => ret (along_x olddirs))
    (fun lo _ => ret lo)
    (fun _ => zeroIndex)
    DETERMINISTIC
    (mkVec 1 1 1)
    (fun _ w => w)
    (fun w => w)
    (fun _ w => w).

(** The members after [BeforeTracking] for a volume of unit voxels without
    masks: a step of one voxel, at most two steps to either side, no
    neighbourhood samples, no minimal length. *)
Definition tracking_filter (handler : TrackingDataHandler unit)
  (prior : option (TrackingDataHandler unit)) (maxNumTracts : Z)
  : Filter unit PlainImage :=
  mkFilter handler prior
    (Some nowhere) (Some everywhere) (Some everywhere) (Some everywhere) None
    (Some everywhere) (Some nowhere) (Some everywhere) None None
    false false 1 (-1) 1 (-1) (cos (0.5 * PI * 0.966)) 1 4%Z 0 400 1%Z true false
    0.25 1 true true 0%Z 1%Z maxNumTracts (-1) false true false true 10%Z NONE
    true true 1 [].

Definition line_filter : Filter unit PlainImage := tracking_filter x_handler None (-1).

(** The settings [line_filter] is prepared from. *)
Definition line_settings : Filter unit PlainImage :=
  SetMaxLength 4
    (SetNumberOfSamples 0
       (SetStepSizeVox 1
          (SetMinTractLength 0 (StreamlineTrackingFilter x_handler)))).

(** The points of the trial of [line_filter] at the origin. *)
Definition forward_1 : Point :=
  CalculateNewPosition line_filter origin (vscale 0.5 x_axis).
Definition forward_2 : Point := CalculateNewPosition line_filter forward_1 x_axis.
Definition backward_1 : Point :=
  CalculateNewPosition line_filter origin (vneg (vscale 0.5 x_axis)).
Definition backward_2 : Point :=
  CalculateNewPosition line_filter backward_1 (vneg x_axis).

(** The directions [FollowStreamline] hands to the next estimation when one
    previous direction is kept. *)
Definition next_dirs (dir : vec3) (last_dirs : list vec3) : list vec3 :=
  let l := push_back (normalize dir) last_dirs in
  if (1 <? Z.of_nat (length l))%Z then pop_front l else l.

(** * Properties *)

(** ** The point shell *)

Lemma shell_direction_unit (theta phi : list R) (i : nat) :
  magnitude (shell_direction theta phi i) = 1.
Proof.
  unfold magnitude, squared_magnitude, dot_product, shell_direction; simpl.
  set (t := at_ theta i). set (p := at_ phi i).
  assert (Ht := sin2_cos2 t). assert (Hp := sin2_cos2 p). unfold Rsqr in Ht, Hp.
  replace (cos t * cos p * (cos t * cos p) + cos t * sin p * (cos t * sin p)
           + sin t * sin t)
    with (cos t * cos t * (sin p * sin p + cos p * cos p) + sin t * sin t) by ring.
  rewrite Hp, Rmult_1_r, Rplus_comm, Ht. apply sqrt_1.
Qed.

Lemma CreateDirections_shape (NPoints : Z) :
  (2 <= NPoints)%Z ->
  exists theta phi,
    CreateDirections NPoints
    = map (shell_direction theta phi) (seq 0 (Z.to_nat NPoints)).
Proof.
  intros H. unfold CreateDirections.
  destruct (NPoints <? 2)%Z eqn:E; [apply Z.ltb_lt in E; lia|].
  destruct (fold_left _ _ _) as [theta phi]. eauto.
Qed.

(** C4.  [CreateDirections(n)] is empty for [n < 2]; for [n >= 2] it has
    exactly [n] vectors, each of magnitude 1 (so within 1e-5 of 1).  The
    sequence is a function of [n] alone: the definition reads no state. *)
Theorem CreateDirections_unit_shell (n : Z) :
  if (n <? 2)%Z then CreateDirections n = []
  else length (CreateDirections n) = Z.to_nat n
       /\ Forall (fun d => Rabs (magnitude d - 1) <= 1e-5) (CreateDirections n).
Proof.
  destruct (n <? 2)%Z eqn:E.
  - unfold CreateDirections. rewrite E. reflexivity.
  - apply Z.ltb_ge in E. destruct (CreateDirections_shape E) as (theta & phi & ->).
    split.
    + rewrite length_map, length_seq. reflexivity.
    + apply Forall_forall. intros d Hd. apply in_map_iff in Hd.
      destruct Hd as (i & <- & _). rewrite shell_direction_unit.
      replace (1 - 1) with 0 by ring. rewrite Rabs_R0. lra.
Qed.

(** ** Configuration errors *)

(** The masks an endpoint constraint needs. *)
Definition requires_target (c : EndpointConstraints) : bool :=
  match c with NONE => false | _ => true end.

Definition requires_seed (c : EndpointConstraints) : bool :=
  match c with EPS_IN_SEED_AND_TARGET => true | _ => false end.

(** The constraint of the filter needs a mask that was not set. *)
Definition missing_required_mask {World Image : Type} (f : Filter World Image)
  : bool :=
  (requires_target (m_EndpointConstraint f) && negb (m_TargetImageSet f))
  || (requires_seed (m_EndpointConstraint f) && negb (m_SeedImageSet f)).

Section ConfigurationErrors.

Context {World Image : Type}.
Variable ext : External World Image.

Lemma IsValidFiber_throws (f : Filter World Image) (fib : FiberType) :
  is_Throw (IsValidFiber ext f fib) = missing_required_mask f.
Proof.
  unfold IsValidFiber, missing_required_mask.
  destruct (m_EndpointConstraint f); simpl; try reflexivity;
    destruct (m_TargetImageSet f); simpl; try reflexivity;
    try (destruct (m_SeedImageSet f); simpl; try reflexivity);
    repeat match goal with
           | |- context [if ?b then _ else _] => destruct b; simpl; try reflexivity
           end.
Qed.

Lemma IsValidFiber_returns (f : Filter World Image) (fib : FiberType) :
  missing_required_mask f = false -> exists b, IsValidFiber ext f fib = Ok b.
Proof.
  intros H. rewrite <- (IsValidFiber_throws f fib) in H.
  destruct (IsValidFiber ext f fib); [eauto | discriminate].
Qed.

Lemma accept_fiber_returns (f : Filter World Image) (fib : FiberType)
  (rs : RunState) :
  missing_required_mask f = false ->
  exists success rs', accept_fiber ext f fib rs = Ok (success, rs').
Proof.
  intros H. unfold accept_fiber.
  destruct (IsValidFiber_returns f fib H) as [b ->].
  destruct b; [destruct (negb (m_StopTracking rs))|]; eauto.
Qed.

Lemma trial_returns (f : Filter World Image) (worldPos : Point)
  (s : World * RunState) :
  missing_required_mask f = false ->
  exists success s', trial ext f worldPos s = Ok (success, s').
Proof.
  intros H. unfold trial.
  destruct (track_seed ext f worldPos s) as [[sl|] s']; [|eauto].
  destruct (is_candidate f sl); [|eauto].
  destruct (accept_fiber_returns f (sl_fib sl) (snd s') H) as (b & rs' & ->).
  eauto.
Qed.

Lemma trials_loop_returns (f : Filter World Image) (n : nat) (worldPos : Point)
  (s : World * RunState) :
  missing_required_mask f = false ->
  exists l s', trials_loop ext f n worldPos s = Ok (l, s').
Proof.
  intros H. revert s. induction n as [|n IH]; intros s; simpl; [eauto|].
  destruct (trial_returns f worldPos s H) as (b & s1 & ->).
  destruct (b || _); [eauto|].
  destruct (IH s1) as (l & s2 & ->). eauto.
Qed.

Lemma seed_loop_returns (f : Filter World Image) (fuel : nat)
  (num_seeds print_interval : Z) (s : World * RunState) :
  missing_required_mask f = false ->
  exists s', seed_loop ext f fuel num_seeds print_interval s = Ok s'.
Proof.
  intros H. revert s. induction fuel as [|fuel IH]; intros s; simpl; [eauto|].
  destruct (_ && _); [|eauto].
  destruct (_ || _); [apply IH|].
  match goal with
  | |- context [seed_trials ext f ?p ?s0] =>
    destruct (trials_loop_returns f (Z.to_nat (m_TrialsPerSeed f)) p s0 H)
      as (l & s1 & E)
  end.
  unfold seed_trials. rewrite E. apply IH.
Qed.

Lemma missing_required_mask_set_SeedPoints (f : Filter World Image)
  (seeds : list Point) :
  missing_required_mask (set_SeedPoints f seeds) = missing_required_mask f.
Proof. reflexivity. Qed.

Lemma BeforeTracking_throws (f : Filter World Image) (rs : RunState) (w : World) :
  is_Throw (BeforeTracking ext f rs w) = missing_required_mask (prepare_members ext f).
Proof.
  unfold BeforeTracking.
  rewrite <- (IsValidFiber_throws (prepare_members ext f) test_fib).
  destruct (IsValidFiber ext (prepare_members ext f) test_fib); [|reflexivity].
  destruct (match m_SeedPoints (prepare_members ext f) with [] => _ | _ => _ end).
  reflexivity.
Qed.

Lemma BeforeTracking_checked (f f' : Filter World Image) (rs rs' : RunState)
  (w w' : World) :
  BeforeTracking ext f rs w = Ok (f', rs', w') ->
  missing_required_mask f' = false.
Proof.
  intros H. assert (T := BeforeTracking_throws f rs w). rewrite H in T. simpl in T.
  unfold BeforeTracking in H.
  destruct (IsValidFiber ext (prepare_members ext f) test_fib); [|discriminate].
  destruct (match m_SeedPoints (prepare_members ext f) with [] => _ | _ => _ end).
  inversion H; subst. rewrite missing_required_mask_set_SeedPoints. auto.
Qed.

(** C7.  [IsValidFiber] throws exactly when the endpoint constraint needs a
    target mask, or for [EPS_IN_SEED_AND_TARGET] a seed mask, that was not
    set, whatever the fibre; [BeforeTracking] throws exactly when the
    members it has derived are in that case; and [GenerateData] throws
    exactly when [BeforeTracking] does, so never while the seeds are
    processed. *)
Theorem configuration_error_only_before_tracking (f : Filter World Image)
  (rs : RunState) (w : World) :
  (forall fib, is_Throw (IsValidFiber ext f fib) = missing_required_mask f)
  /\ is_Throw (BeforeTracking ext f rs w)
     = missing_required_mask (prepare_members ext f)
  /\ is_Throw (GenerateData ext f rs w) = is_Throw (BeforeTracking ext f rs w).
Proof.
  split; [intros fib; apply IsValidFiber_throws|].
  split; [apply BeforeTracking_throws|].
  unfold GenerateData.
  destruct (BeforeTracking ext f rs w) as [[[f' rs'] w']|e] eqn:B; [|reflexivity].
  apply BeforeTracking_checked in B. simpl.
  destruct (if m_Random f' then _ else _) as [seeds w1].
  match goal with
  | |- context [seed_loop ext ?g ?n ?k ?p ?s0] =>
    destruct (seed_loop_returns g n k p s0) as [[w2 rs2] ->]
  end.
  - rewrite missing_required_mask_set_SeedPoints. exact B.
  - unfold AfterTracking. reflexivity.
Qed.

End ConfigurationErrors.

(** ** Endpoint constraints under reversal of the fibre *)

Section Reversal.

Context {World Image : Type}.
Variable ext : External World Image.
Variable f : Filter World Image.

Lemma front_rev (fib : FiberType) : front (rev fib) = back fib.
Proof.
  unfold front, back. destruct fib as [|p t] using rev_ind; [reflexivity|].
  rewrite rev_app_distr, last_last. reflexivity.
Qed.

Lemma back_rev (fib : FiberType) : back (rev fib) = front fib.
Proof.
  rewrite <- (rev_involutive fib) at 2. rewrite front_rev. reflexivity.
Qed.

(** X2.  Every constraint but [ONE_EP_IN_TARGET] gives a fibre and its
    reversal the same result: the error when a required image is missing,
    the verdict otherwise. *)
Lemma IsValidFiber_rev (fib : FiberType) :
  m_EndpointConstraint f <> ONE_EP_IN_TARGET ->
  IsValidFiber ext f (rev fib) = IsValidFiber ext f fib.
Proof.
  intros H. unfold IsValidFiber. rewrite front_rev, back_rev.
  destruct (m_EndpointConstraint f); try congruence; try reflexivity;
    destruct (m_TargetImageSet f); simpl; try reflexivity.
  - destruct (InTarget ext f (front fib)), (InTarget ext f (back fib)); reflexivity.
  - destruct (Rgtb (TargetValue ext f (front fib)) 0),
             (Rgtb (TargetValue ext f (back fib)) 0); simpl; try reflexivity.
    unfold Reqb.
    destruct (Req_dec_T (TargetValue ext f (back fib)) (TargetValue ext f (front fib))),
             (Req_dec_T (TargetValue ext f (front fib)) (TargetValue ext f (back fib)));
      try reflexivity; congruence.
  - destruct (m_SeedImageSet f); simpl; try reflexivity.
    destruct (InSeed ext f (front fib)), (InSeed ext f (back fib)),
             (InTarget ext f (front fib)), (InTarget ext f (back fib));
      reflexivity.
  - destruct (InTarget ext f (front fib)), (InTarget ext f (back fib)); reflexivity.
  - destruct (InTarget ext f (front fib)), (InTarget ext f (back fib)); reflexivity.
Qed.

(** Under [ONE_EP_IN_TARGET] both tests of the code ask for the front
    inside and the back outside the target. *)
Lemma IsValidFiber_ONE_EP_IN_TARGET (fib : FiberType) :
  m_EndpointConstraint f = ONE_EP_IN_TARGET ->
  m_TargetImageSet f = true ->
  IsValidFiber ext f fib
  = Ok (InTarget ext f (front fib) && negb (InTarget ext f (back fib))).
Proof.
  intros Hc Ht. unfold IsValidFiber. rewrite Hc, Ht.
  destruct (InTarget ext f (front fib)), (InTarget ext f (back fib)); reflexivity.
Qed.

End Reversal.

(** The filter of the example: the target mask is the half space
    [x >= 0.5], the constraint is [ONE_EP_IN_TARGET]. *)
Definition one_ep_filter : Filter unit PlainImage :=
  prepare_members plain_ext
    (SetEndpointConstraint ONE_EP_IN_TARGET
       (SetTargetRegions (Some right_half)
          (StreamlineTrackingFilter (constant_handler x_axis DETERMINISTIC)))).

Lemma Rgeb_0_half : Rgeb 0 0.5 = false.
Proof. apply Rleb_false. lra. Qed.

Lemma Rgeb_1_half : Rgeb 1 0.5 = true.
Proof. apply Rleb_true. lra. Qed.

(** C10.  Under [ONE_EP_IN_TARGET] the fibre from [(0,0,0)] to [(1,0,0)],
    whose back endpoint alone lies in the target, is rejected, and the
    same fibre reversed is accepted: the result is not symmetric under
    reversal. *)
Theorem ONE_EP_IN_TARGET_not_symmetric :
  IsValidFiber plain_ext one_ep_filter [origin; x_axis] = Ok false
  /\ IsValidFiber plain_ext one_ep_filter (rev [origin; x_axis]) = Ok true
  /\ missing_required_mask one_ep_filter = false.
Proof.
  repeat split.
  - rewrite IsValidFiber_ONE_EP_IN_TARGET by reflexivity.
    unfold InTarget, InsideMask, front, back; simpl. unfold right_half; simpl.
    rewrite Rgeb_0_half. reflexivity.
  - rewrite IsValidFiber_ONE_EP_IN_TARGET by reflexivity.
    unfold InTarget, InsideMask, front, back; simpl. unfold right_half; simpl.
    rewrite Rgeb_0_half, Rgeb_1_half. reflexivity.
Qed.

(** ** The visitation map *)

(** How often a sequence of voxel indices enters the voxel [v]: the
    positions that hold [v] and whose predecessor, if any, holds another
    index.  This is the number of maximal runs of [v] in the sequence. *)
Fixpoint entries (v : Index) (prev : option Index) (idxs : list Index) : nat :=
  match idxs with
  | [] => 0
  | i :: t =>
    (if Index_eqb i v
        && negb (match prev with Some p => Index_eqb i p | None => false end)
     then 1 else 0)
    + entries v (Some i) t
  end.

Section Probmap.

Context {World Image : Type}.
Variable ext : External World Image.

Definition fiber_indices (fib : FiberType) : list Index :=
  map (TransformPhysicalPointToIndex ext) fib.

Lemma probmap_loop (fib : FiberType) (map0 : Index -> R) (last_idx v : Index) :
  fst (fold_left (probmap_step ext) fib (map0, last_idx)) v
  = map0 v
    + (if RegionIsInside ext v
       then INR (entries v (Some last_idx) (fiber_indices fib)) else 0).
Proof.
  revert map0 last_idx. induction fib as [|p t IH]; intros map0 last_idx; simpl.
  - destruct (RegionIsInside ext v); simpl; ring.
  - set (idx := TransformPhysicalPointToIndex ext p).
    destruct (Index_eqb idx last_idx) eqn:El; simpl.
    + apply Index_eqb_eq in El. rewrite IH. fold idx. rewrite El.
      rewrite andb_false_r. reflexivity.
    + rewrite IH. rewrite andb_true_r.
      destruct (Index_eqb idx v) eqn:Ev.
      * apply Index_eqb_eq in Ev. subst v.
        destruct (RegionIsInside ext idx) eqn:Ei.
        -- unfold increment_pixel. rewrite Index_eqb_refl.
           rewrite S_INR. simpl plus. ring.
        -- reflexivity.
      * destruct (RegionIsInside ext idx) eqn:Ei; [|reflexivity].
        unfold increment_pixel.
        assert (Index_eqb v idx = false) as ->.
        { apply Index_eqb_neq. apply Index_eqb_neq in Ev. congruence. }
        reflexivity.
Qed.




End Probmap.

(** ** Trials per seed *)

Section TrialCount.

Context {World Image : Type}.
Variable ext : External World Image.
Variable f : Filter World Image.

Lemma trials_loop_deterministic (n : nat) (worldPos : Point)
  (s s' : World * RunState) (l : list bool) :
  GetMode (m_TrackingHandler f) <> PROBABILISTIC ->
  trials_loop ext f n worldPos s = Ok (l, s') ->
  length l = Nat.min 1 n.
Proof.
  intros Hm H. destruct n as [|n]; simpl in H.
  - inversion H; reflexivity.
  - destruct (trial ext f worldPos s) as [[b s1]|]; [|discriminate].
    assert (MODE_eqb (GetMode (m_TrackingHandler f)) PROBABILISTIC = false) as E.
    { destruct (GetMode (m_TrackingHandler f)); [reflexivity | congruence]. }
    rewrite E, orb_true_r in H. inversion H; reflexivity.
Qed.

Lemma trials_loop_probabilistic (n : nat) (worldPos : Point)
  (s s' : World * RunState) (l : list bool) :
  GetMode (m_TrackingHandler f) = PROBABILISTIC ->
  trials_loop ext f n worldPos s = Ok (l, s') ->
  (exists k, (k < n)%nat /\ l = repeat false k ++ [true])
  \/ l = repeat false n.
Proof.
  intros Hm. revert s l. induction n as [|n IH]; intros s l H; simpl in H.
  - inversion H; right; reflexivity.
  - destruct (trial ext f worldPos s) as [[b s1]|]; [|discriminate].
    rewrite Hm in H. simpl in H. rewrite orb_false_r in H.
    destruct b.
    + inversion H; subst. left. exists O. split; [lia | reflexivity].
    + destruct (trials_loop ext f n worldPos s1) as [[l1 s2]|] eqn:E;
        [|discriminate].
      inversion H; subst. destruct (IH _ _ E) as [(k & Hk & ->) | ->].
      * left. exists (S k). split; [lia | reflexivity].
      * right. reflexivity.
Qed.

(** C8, as the code has it.  When no required mask is missing the loop
    over the trials of a seed returns; [l] holds the [success] flag of
    every trial performed.  In a mode other than [PROBABILISTIC] one trial
    is performed when [m_TrialsPerSeed] is at least 1 (none when it is 0).
    In [PROBABILISTIC] mode either a successful trial ends the loop, after
    fewer than [m_TrialsPerSeed] failed ones, or all [m_TrialsPerSeed]
    trials are performed and fail. *)
Theorem seed_trials_count (worldPos : Point) (s : World * RunState) :
  missing_required_mask f = false ->
  exists l s',
    seed_trials ext f worldPos s = Ok (l, s')
    /\ (GetMode (m_TrackingHandler f) <> PROBABILISTIC ->
        (1 <= m_TrialsPerSeed f)%Z -> length l = 1%nat)
    /\ (GetMode (m_TrackingHandler f) = PROBABILISTIC ->
        (exists k, (Z.of_nat k < m_TrialsPerSeed f)%Z
                   /\ l = repeat false k ++ [true])
        \/ l = repeat false (Z.to_nat (m_TrialsPerSeed f))).
Proof.
  intros H. unfold seed_trials.
  destruct (trials_loop_returns ext f (Z.to_nat (m_TrialsPerSeed f)) worldPos s H)
    as (l & s' & E).
  exists l, s'. split; [exact E|]. split.
  - intros Hm Hn. rewrite (trials_loop_deterministic _ _ _ Hm E). lia.
  - intros Hm. destruct (trials_loop_probabilistic _ _ _ Hm E) as [(k & Hk & ->)| ->].
    + left. exists k. split; [lia | reflexivity].
    + right. reflexivity.
Qed.

End TrialCount.

(** A deterministic filter with [m_TrialsPerSeed] set to 0. *)
Definition no_trial_filter : Filter unit PlainImage :=
  prepare_members plain_ext
    (SetTrialsPerSeed 0
       (StreamlineTrackingFilter (constant_handler x_axis DETERMINISTIC))).

(** With [m_TrialsPerSeed = 0] a deterministic run performs no trial at
    all for a seed, not exactly one. *)
Lemma seed_trials_none :
  GetMode (m_TrackingHandler no_trial_filter) <> PROBABILISTIC
  /\ seed_trials plain_ext no_trial_filter origin (tt, initial_run)
     = Ok ([], (tt, initial_run)).
Proof.
  split; [discriminate | reflexivity].
Qed.

(** A probabilistic filter with the default ten trials per seed. *)
Definition ten_trials_filter : Filter unit PlainImage :=
  prepare_members plain_ext
    (StreamlineTrackingFilter (constant_handler x_axis PROBABILISTIC)).

Lemma seed_trials_count_witness :
  missing_required_mask ten_trials_filter = false
  /\ exists l s',
       seed_trials plain_ext ten_trials_filter origin (tt, initial_run)
       = Ok (l, s')
       /\ ((exists k, (Z.of_nat k < 10)%Z /\ l = repeat false k ++ [true])
           \/ l = repeat false 10).
Proof.
  split; [reflexivity|].
  destruct (seed_trials_count plain_ext ten_trials_filter origin
              (tt, initial_run) eq_refl) as (l & s' & E & _ & P).
  exists l, s'. split; [exact E|]. exact (P eq_refl).
Defined.

(** ** Rules for the propagation loop *)

Section PropagationRules.

Context {World Image : Type}.
Variable ext : External World Image.
Variable f : Filter World Image.

Definition unit_or_zero (d : vec3) : Prop := magnitude d = 1 \/ magnitude d = 0.

Lemma unit_or_zero_fill : unit_or_zero (fill 0).
Proof. right. apply magnitude_zero_dir. Qed.

Lemma voted_direction_unit_or_zero (v : Votes) : unit_or_zero (voted_direction v).
Proof.
  unfold voted_direction. destruct (votes_valid v) eqn:E.
  - left. apply magnitude_normalize. unfold votes_valid in E.
    apply andb_true_iff in E. destruct E as [E _]. apply Rgtb_true in E. lra.
  - apply unit_or_zero_fill.
Qed.

Lemma blend_prior_unit_or_zero (pos : Point) (olddirs : list vec3)
  (oldIndex : Index) (d : vec3) (valid : bool) (w : World) :
  unit_or_zero d ->
  unit_or_zero (fst (blend_prior f pos olddirs oldIndex d valid w)).
Proof.
  intros Hd. unfold blend_prior, bind, ret.
  destruct (m_TrackingPriorHandler f) as [p|]; [|exact Hd].
  destruct (m_IntroduceDirectionsFromPrior f || valid); [|exact Hd].
  destruct (ProposeDirection p pos olddirs oldIndex w) as [prior w'].
  destruct (Rgtb (magnitude prior) 0.001).
  - simpl. apply magnitude_normalize_cases.
  - destruct (m_TrackingPriorAsMask f); simpl; [apply unit_or_zero_fill | exact Hd].
Qed.

(** Every direction [GetNewDirection] returns has norm one or zero. *)
Lemma GetNewDirection_unit_or_zero (pos : Point) (olddirs : list vec3)
  (oldIndex : Index) (w : World) :
  unit_or_zero (fst (GetNewDirection ext f pos olddirs oldIndex w)).
Proof.
  unfold GetNewDirection, bind, ret.
  destruct (_ && _); [|apply unit_or_zero_fill].
  destruct (ProposeDirection _ _ _ _ w) as [proposal w1].
  destruct (collect_votes ext f pos olddirs oldIndex proposal w1) as [v w2].
  apply blend_prior_unit_or_zero. apply voted_direction_unit_or_zero.
Qed.

(** The streamline after one more accepted step. *)
Definition advance (front : bool) (pos : Point) (dir : vec3) (sl : Streamline)
  : Streamline :=
  mkStreamline
    (if front then push_front pos (sl_fib sl) else push_back pos (sl_fib sl))
    (if front then push_front (normalize dir) (sl_container sl)
     else push_back (normalize dir) (sl_container sl))
    (sl_tractLength sl + m_StepSize f)
    (sl_exclude sl).

Definition excluded (sl : Streamline) : Streamline :=
  mkStreamline (sl_fib sl) (sl_container sl) (sl_tractLength sl) true.

(** An invariant [I] of the position, the direction and the streamline
    that every accepted step keeps gives [Q] of the streamline the loop
    returns, when [Q] follows from [I] wherever the loop can stop. *)
Lemma follow_steps_rule (I : Point -> vec3 -> Streamline -> Prop)
  (Q : Streamline -> Prop) (front : bool) :
  (forall pos dir sl, I pos dir sl -> Q sl) ->
  (forall pos dir sl, I pos dir sl ->
     InExclusion ext f (CalculateNewPosition f pos dir) = true ->
     Q (excluded sl)) ->
  (forall pos dir sl, I pos dir sl ->
     InExclusion ext f (CalculateNewPosition f pos dir) = false ->
     Q (advance front (CalculateNewPosition f pos dir) dir sl)
     /\ forall dir', magnitude dir' = 1 ->
          I (CalculateNewPosition f pos dir) dir'
            (advance front (CalculateNewPosition f pos dir) dir sl)) ->
  forall steps pos dir last_dirs sl s,
    I pos dir sl ->
    Q (fst (follow_steps ext f steps front pos dir last_dirs sl s)).
Proof.
  intros Hstop Hexcl Hadv.
  induction steps as [|steps IH]; intros pos dir last_dirs sl s HI; simpl.
  - eapply Hstop; eassumption.
  - destruct (InExclusion ext f (CalculateNewPosition f pos dir)) eqn:Ex.
    + simpl. eapply Hexcl; eassumption.
    + destruct (Hadv pos dir sl HI Ex) as [HQ HI'].
      unfold bind, liftW, ret, modify_run.
      destruct (PollAbort ext (fst s)) as [abort w1].
      destruct abort; simpl; [eapply Hstop; eassumption|].
      fold (advance front (CalculateNewPosition f pos dir) dir sl).
      destruct (_ && _); simpl; [exact HQ|].
      destruct (Rgtb _ (m_MaxTractLength f)); simpl; [exact HQ|].
      destruct (m_DemoMode f && negb (m_UseOutputProbabilityMap f)); simpl;
        match goal with
        | |- context [GetNewDirection ext f ?p ?l ?i ?w] =>
          assert (U := GetNewDirection_unit_or_zero p l i w);
          destruct (GetNewDirection ext f p l i w) as [dir' w2]
        end;
        (destruct (Rltb (magnitude dir') 0.0001) eqn:El; simpl; [exact HQ|]);
        apply IH; apply HI'; apply Rltb_false in El;
        (destruct U as [U | U]; simpl in U; [exact U | lra]).
Qed.

(** A property of the run state that showing a partial fibre keeps is
    kept by the loop; fibres are shown in demo mode only. *)
Lemma follow_steps_run_rule (R : RunState -> Prop) :
  (m_DemoMode f = true ->
   forall fib rs, R rs -> R (show_partial_fiber ext f fib rs)) ->
  forall steps front pos dir last_dirs sl s,
    R (snd s) ->
    R (snd (snd (follow_steps ext f steps front pos dir last_dirs sl s))).
Proof.
  intros Hshow.
  induction steps as [|steps IH]; intros front pos dir last_dirs sl s HR; simpl;
    [exact HR|].
  destruct (InExclusion ext f (CalculateNewPosition f pos dir)); simpl;
    [exact HR|].
  unfold bind, liftW, ret, modify_run.
  destruct (PollAbort ext (fst s)) as [abort w1].
  destruct abort; simpl; [exact HR|].
  destruct (_ && _); simpl; [exact HR|].
  destruct (Rgtb _ (m_MaxTractLength f)); simpl; [exact HR|].
  destruct (m_DemoMode f && negb (m_UseOutputProbabilityMap f)) eqn:Ed; simpl.
  - apply andb_true_iff in Ed. destruct Ed as [Ed _].
    match goal with
    | |- context [GetNewDirection ext f ?p ?l ?i ?w] =>
      destruct (GetNewDirection ext f p l i w) as [dir' w2]
    end.
    destruct (Rltb (magnitude dir') 0.0001); simpl;
      [apply (Hshow Ed); exact HR|].
    apply IH. simpl. apply (Hshow Ed); exact HR.
  - match goal with
    | |- context [GetNewDirection ext f ?p ?l ?i ?w] =>
      destruct (GetNewDirection ext f p l i w) as [dir' w2]
    end.
    destruct (Rltb (magnitude dir') 0.0001); simpl; [exact HR|].
    apply IH. exact HR.
Qed.

End PropagationRules.

(** ** Points and directions of a streamline *)

Section Lengths.

Context {World Image : Type}.
Variable ext : External World Image.
Variable f : Filter World Image.

(** A pass adds as many points as directions. *)
Lemma FollowStreamline_lengths (pos : Point) (dir : vec3) (fib : FiberType)
  (container : DirectionContainer) (tractLength : R) (front exclude : bool)
  (s : World * RunState) :
  let r := fst (FollowStreamline ext f pos dir fib container tractLength front
                  exclude s) in
  (length (sl_fib r) + length container
   = length (sl_container r) + length fib)%nat.
Proof.
  unfold FollowStreamline.
  apply (follow_steps_rule ext f
           (fun _ _ sl => length (sl_fib sl) + length container
                          = length (sl_container sl) + length fib)%nat).
  - auto.
  - auto.
  - intros p d sl H _. assert (E : forall A (x : A) l,
        length (if front then push_front x l else push_back x l) = S (length l)).
    { intros A x l. destruct front; unfold push_front, push_back; simpl; auto.
      rewrite length_app; simpl; lia. }
    split; [|intros _ _]; unfold advance; cbn [sl_fib sl_container];
      rewrite !E; lia.
  - simpl. lia.
Qed.

(** C6.  After the forward pass and the insertion of the seed point the
    fibre has one point more than the container has directions; a pass
    started from such a pair returns such a pair; so this holds of the
    streamline of every trial that tracks. *)
Theorem points_exceed_directions_by_one (worldPos : Point) :
  (forall dir s,
     let fwd := fst (FollowStreamline ext f worldPos dir [] [] 0 false false s) in
     length (push_front worldPos (sl_fib fwd)) = S (length (sl_container fwd)))
  /\ (forall dir fib container tractLength front exclude s,
        length fib = S (length container) ->
        let r := fst (FollowStreamline ext f worldPos dir fib container
                        tractLength front exclude s) in
        length (sl_fib r) = S (length (sl_container r)))
  /\ (forall s,
        match fst (track_seed ext f worldPos s) with
        | Some sl => length (sl_fib sl) = S (length (sl_container sl))
        | None => True
        end).
Proof.
  assert (Hfwd : forall dir s,
    length (push_front worldPos
              (sl_fib (fst (FollowStreamline ext f worldPos dir [] [] 0 false
                              false s))))
    = S (length (sl_container (fst (FollowStreamline ext f worldPos dir [] [] 0
                                      false false s))))).
  { intros dir s.
    assert (H := FollowStreamline_lengths worldPos dir [] [] 0 false false s).
    simpl in H. unfold push_front. simpl. lia. }
  assert (Hpass : forall dir fib container tractLength front exclude s,
    length fib = S (length container) ->
    length (sl_fib (fst (FollowStreamline ext f worldPos dir fib container
                           tractLength front exclude s)))
    = S (length (sl_container (fst (FollowStreamline ext f worldPos dir fib
                                      container tractLength front exclude s))))).
  { intros dir fib container tractLength front exclude s E.
    assert (H := FollowStreamline_lengths worldPos dir fib container tractLength
                   front exclude s).
    simpl in H. lia. }
  split; [exact Hfwd|]. split; [exact Hpass|].
  intros s. unfold track_seed.
  destruct (GetNewDirection ext f worldPos [] zeroIndex (fst s)) as [dir0 w].
  destruct (_ && _) eqn:Eg; [|exact Logic.I].
  apply andb_true_iff in Eg. destruct Eg as [_ Eg]. apply negb_true_iff in Eg.
  rewrite Eg.
  specialize (Hfwd (vscale 0.5 dir0) (w, snd s)).
  destruct (FollowStreamline ext f worldPos (vscale 0.5 dir0) [] [] 0 false false
              (w, snd s)) as [fwd s1].
  simpl in Hfwd.
  destruct (negb (sl_exclude fwd)).
  - specialize (Hpass (vneg (vscale 0.5 dir0)) (push_front worldPos (sl_fib fwd))
                  (sl_container fwd) (sl_tractLength fwd) true (sl_exclude fwd) s1
                  Hfwd).
    destruct (FollowStreamline ext f worldPos (vneg (vscale 0.5 dir0)) _ _ _ true
                _ s1) as [sl s2].
    simpl. exact Hpass.
  - simpl. exact Hfwd.
Qed.

End Lengths.

(** ** The shared output while the seeds are processed *)

(** Two run states with the same output and the same count and flag. *)
Definition same_outputs (a b : RunState) : Prop :=
  m_Tractogram a = m_Tractogram b
  /\ m_OutputProbabilityMap a = m_OutputProbabilityMap b
  /\ m_CurrentTracts a = m_CurrentTracts b
  /\ m_StopTracking a = m_StopTracking b.

Lemma same_outputs_refl (a : RunState) : same_outputs a a.
Proof. repeat split. Qed.

Lemma same_outputs_trans (a b c : RunState) :
  same_outputs a b -> same_outputs b c -> same_outputs a c.
Proof.
  unfold same_outputs. intros (A1 & A2 & A3 & A4) (B1 & B2 & B3 & B4).
  repeat split; congruence.
Qed.

Section SharedOutput.

Context {World Image : Type}.
Variable ext : External World Image.
Variable f : Filter World Image.

Lemma pop_back_push_back {A : Type} (x : A) (l : list A) :
  pop_back (push_back x l) = l.
Proof. unfold pop_back, push_back. apply removelast_last. Qed.

(** In demo mode the fibre that is shown is taken back in the same
    critical section. *)
Lemma show_partial_fiber_restores (fib : FiberType) (rs : RunState) :
  m_DemoMode f = true ->
  m_BuildFibersReady rs = 0%Z ->
  m_BuildFibersReady (show_partial_fiber ext f fib rs) = 0%Z
  /\ same_outputs rs (show_partial_fiber ext f fib rs).
Proof.
  intros Hd Hr. unfold show_partial_fiber, BuildFibers, omp_get_num_threads.
  rewrite Hd. simpl. rewrite Hr. simpl.
  split; [reflexivity|]. unfold same_outputs; simpl.
  rewrite pop_back_push_back. repeat split.
Qed.

Lemma FollowStreamline_keeps_outputs (pos : Point) (dir : vec3) (fib : FiberType)
  (container : DirectionContainer) (tractLength : R) (front exclude : bool)
  (s : World * RunState) :
  m_BuildFibersReady (snd s) = 0%Z ->
  let rs := snd (snd (FollowStreamline ext f pos dir fib container tractLength
                        front exclude s)) in
  m_BuildFibersReady rs = 0%Z /\ same_outputs (snd s) rs.
Proof.
  intros Hr. unfold FollowStreamline.
  apply (follow_steps_run_rule ext f
           (fun rs => m_BuildFibersReady rs = 0%Z /\ same_outputs (snd s) rs)).
  - intros Hd shown rs [R0 So].
    destruct (show_partial_fiber_restores shown rs Hd R0) as [R1 S1].
    split; [exact R1 | eapply same_outputs_trans; eassumption].
  - split; [exact Hr | apply same_outputs_refl].
Qed.

Lemma track_seed_keeps_outputs (worldPos : Point) (s : World * RunState) :
  m_BuildFibersReady (snd s) = 0%Z ->
  let rs := snd (snd (track_seed ext f worldPos s)) in
  m_BuildFibersReady rs = 0%Z /\ same_outputs (snd s) rs.
Proof.
  intros Hr. unfold track_seed.
  destruct (GetNewDirection ext f worldPos [] zeroIndex (fst s)) as [dir0 w].
  destruct (_ && _); [|simpl; split; [exact Hr | apply same_outputs_refl]].
  assert (F := FollowStreamline_keeps_outputs worldPos (vscale 0.5 dir0) [] [] 0
                 false (InExclusion ext f worldPos) (w, snd s) Hr).
  destruct (FollowStreamline ext f worldPos (vscale 0.5 dir0) [] [] 0 false _
              (w, snd s)) as [fwd s1].
  simpl in F. destruct F as [R1 S1].
  destruct (negb (sl_exclude fwd)); [|simpl; split; assumption].
  assert (B := FollowStreamline_keeps_outputs worldPos (vneg (vscale 0.5 dir0))
                 (push_front worldPos (sl_fib fwd)) (sl_container fwd)
                 (sl_tractLength fwd) true (sl_exclude fwd) s1 R1).
  destruct (FollowStreamline ext f worldPos (vneg (vscale 0.5 dir0)) _ _ _ true _
              s1) as [sl s2].
  simpl in B. destruct B as [R2 S2]. simpl.
  split; [exact R2 | eapply same_outputs_trans; eassumption].
Qed.

(** What the critical section of acceptance does, by its result. *)
Lemma accept_fiber_cases (fib : FiberType) (rs rs' : RunState) (success : bool) :
  accept_fiber ext f fib rs = Ok (success, rs') ->
  (success = true /\ IsValidFiber ext f fib = Ok true
   /\ m_StopTracking rs = false
   /\ rs' = check_limit f (keep_fiber ext f fib rs))
  \/ (success = false /\ IsValidFiber ext f fib = Ok true
      /\ m_StopTracking rs = true /\ rs' = check_limit f rs)
  \/ (success = false /\ IsValidFiber ext f fib = Ok false /\ rs' = rs).
Proof.
  unfold accept_fiber. intros H.
  destruct (IsValidFiber ext f fib) as [[|]|]; [| |discriminate].
  - destruct (m_StopTracking rs); simpl in H; inversion H; subst; auto 10.
  - inversion H; subst; auto 10.
Qed.

Lemma check_limit_fields (rs : RunState) :
  m_Tractogram (check_limit f rs) = m_Tractogram rs
  /\ m_OutputProbabilityMap (check_limit f rs) = m_OutputProbabilityMap rs
  /\ m_CurrentTracts (check_limit f rs) = m_CurrentTracts rs
  /\ m_BuildFibersReady (check_limit f rs) = m_BuildFibersReady rs
  /\ (m_StopTracking rs = true -> m_StopTracking (check_limit f rs) = true).
Proof.
  unfold check_limit. destruct (_ && _); simpl; auto.
Qed.

(** A fibre that is not kept leaves the outputs as they were. *)
Lemma accept_fiber_rejects (fib : FiberType) (rs rs' : RunState) :
  accept_fiber ext f fib rs = Ok (false, rs') ->
  same_outputs rs rs' /\ m_BuildFibersReady rs' = m_BuildFibersReady rs.
Proof.
  intros H. apply accept_fiber_cases in H.
  destruct H as [(E & _) | [(_ & _ & Hs & ->) | (_ & _ & ->)]].
  - discriminate.
  - destruct (check_limit_fields rs) as (A & B & C & D & E).
    unfold same_outputs. rewrite A, B, C, D, (E Hs), Hs. auto.
  - split; [apply same_outputs_refl | reflexivity].
Qed.

End SharedOutput.

(** ** The exclusion mask *)

Section Exclusion.

Context {World Image : Type}.
Variable ext : External World Image.
Variable f : Filter World Image.

Definition outside_exclusion (fib : FiberType) : Prop :=
  Forall (fun p => InExclusion ext f p = false) fib.

(** A step onto a position inside the exclusion mask sets the flag and
    ends the pass at once, with the streamline and the state as they were. *)
Lemma follow_steps_excluded (steps : nat) (front : bool) (pos : Point)
  (dir : vec3) (last_dirs : list vec3) (sl : Streamline) (s : World * RunState) :
  InExclusion ext f (CalculateNewPosition f pos dir) = true ->
  follow_steps ext f (S steps) front pos dir last_dirs sl s = (excluded sl, s).
Proof.
  intros H. simpl. rewrite H. reflexivity.
Qed.

(** Every point a pass adds is outside the exclusion mask. *)
Lemma FollowStreamline_outside_exclusion (pos : Point) (dir : vec3)
  (fib : FiberType) (container : DirectionContainer) (tractLength : R)
  (front exclude : bool) (s : World * RunState) :
  outside_exclusion fib ->
  outside_exclusion
    (sl_fib (fst (FollowStreamline ext f pos dir fib container tractLength front
                    exclude s))).
Proof.
  intros H. unfold FollowStreamline.
  apply (follow_steps_rule ext f (fun _ _ sl => outside_exclusion (sl_fib sl))).
  - auto.
  - auto.
  - intros p d sl Hsl Ex.
    assert (outside_exclusion
              (sl_fib (advance f front (CalculateNewPosition f p d) d sl))).
    { unfold advance, outside_exclusion; simpl.
      destruct front; unfold push_front, push_back.
      - constructor; assumption.
      - apply Forall_app; split; [assumption | constructor; auto]. }
    split; auto.
  - exact H.
Qed.

Lemma track_seed_outside_exclusion (worldPos : Point) (s : World * RunState)
  (sl : Streamline) :
  fst (track_seed ext f worldPos s) = Some sl ->
  outside_exclusion (sl_fib sl).
Proof.
  unfold track_seed.
  destruct (GetNewDirection ext f worldPos [] zeroIndex (fst s)) as [dir0 w].
  destruct (_ && _) eqn:Eg; [|discriminate].
  apply andb_true_iff in Eg. destruct Eg as [_ Eg]. apply negb_true_iff in Eg.
  assert (F := @FollowStreamline_outside_exclusion worldPos (vscale 0.5 dir0) []
                 [] 0 false (InExclusion ext f worldPos) (w, snd s)
                 (Forall_nil _)).
  destruct (FollowStreamline ext f worldPos (vscale 0.5 dir0) [] [] 0 false _
              (w, snd s)) as [fwd s1].
  simpl in F.
  assert (Hseed : outside_exclusion (push_front worldPos (sl_fib fwd))).
  { constructor; assumption. }
  destruct (negb (sl_exclude fwd)).
  - assert (B := @FollowStreamline_outside_exclusion worldPos
                   (vneg (vscale 0.5 dir0)) (push_front worldPos (sl_fib fwd))
                   (sl_container fwd) (sl_tractLength fwd) true (sl_exclude fwd)
                   s1 Hseed).
    destruct (FollowStreamline ext f worldPos (vneg (vscale 0.5 dir0)) _ _ _ true
                _ s1) as [bwd s2].
    simpl. intros E; inversion E; subst. exact B.
  - simpl. intros E; inversion E; subst. exact Hseed.
Qed.

Lemma track_seed_excluded_seed (worldPos : Point) (s : World * RunState) :
  InExclusion ext f worldPos = true ->
  fst (track_seed ext f worldPos s) = None.
Proof.
  intros H. unfold track_seed.
  destruct (GetNewDirection ext f worldPos [] zeroIndex (fst s)) as [dir0 w].
  rewrite H, andb_false_r. reflexivity.
Qed.

Open Scope monad_scope.

(** The loop of [FollowStreamline] with a log: next to what [follow_steps]
    returns, the positions [CalculateNewPosition] has given the pass, in
    the order of the rounds, whether the round has pushed them or not. *)
Fixpoint follow_steps_log (steps : nat) (front : bool) (pos : Point) (dir : vec3)
  (last_dirs : list vec3) (sl : Streamline)
  : M (World * RunState) (Streamline * list Point) :=
  match steps with
  | O => ret (sl, [])
  | S steps' =>
    let oldIndex := WorldToIndex (m_TrackingHandler f) pos in
    let pos := CalculateNewPosition f pos dir in
    if InExclusion ext f pos then
      ret (mkStreamline (sl_fib sl) (sl_container sl) (sl_tractLength sl) true,
           [pos])
    else
      abort <- liftW (PollAbort ext) ;;
      if (abort : bool) then ret (sl, [pos])
      else
        let dir := normalize dir in
        let fib :=
          if front then push_front pos (sl_fib sl) else push_back pos (sl_fib sl) in
        let container :=
          if front then push_front dir (sl_container sl)
          else push_back dir (sl_container sl) in
        let tractLength := sl_tractLength sl + m_StepSize f in
        let sl := mkStreamline fib container tractLength (sl_exclude sl) in
        if Rgeb (m_LoopCheck f) 0
           && Rgtb (CheckCurvature f container front) (m_LoopCheck f)
        then ret (sl, [pos])
        else if Rgtb tractLength (m_MaxTractLength f) then ret (sl, [pos])
        else
          _ <- (if m_DemoMode f && negb (m_UseOutputProbabilityMap f)
                then modify_run (show_partial_fiber ext f fib)
                else ret tt) ;;
          let last_dirs := push_back dir last_dirs in
          let last_dirs :=
            if (m_NumPreviousDirections f <? Z.of_nat (length last_dirs))%Z
            then pop_front last_dirs else last_dirs in
          dir <- liftW (GetNewDirection ext f pos last_dirs oldIndex) ;;
          if Rltb (magnitude dir) 0.0001 then ret (sl, [pos])
          else
            r <- follow_steps_log steps' front pos dir last_dirs sl ;;
            ret (fst r, pos :: snd r)
  end.

Definition FollowStreamline_log (pos : Point) (dir : vec3) (fib : FiberType)
  (container : DirectionContainer) (tractLength : R) (front : bool)
  (exclude : bool) : M (World * RunState) (Streamline * list Point) :=
  let last_dirs :=
    repeat zero_dir (Z.to_nat (to_unsigned (m_NumPreviousDirections f - 1))) in
  follow_steps_log (Z.to_nat (Z.quot (m_MaxLength f) 2)) front pos dir last_dirs
    (mkStreamline fib container tractLength exclude).

(** [track_seed] with the logs of its two passes: the positions of the
    forward pass and those of the backward pass. *)
Definition track_seed_log (worldPos : Point) (s : World * RunState)
  : (option Streamline * (list Point * list Point)) * (World * RunState) :=
  let (dir0, w) := GetNewDirection ext f worldPos [] zeroIndex (fst s) in
  let dir := vscale 0.5 dir0 in
  let exclude := InExclusion ext f worldPos in
  if Rgtb (magnitude dir) 0.0001 && negb exclude then
    let (fwd, s1) :=
      FollowStreamline_log worldPos dir [] [] 0 false exclude (w, snd s) in
    let fib := push_front worldPos (sl_fib (fst fwd)) in
    if negb (sl_exclude (fst fwd)) then
      let (bwd, s2) :=
        FollowStreamline_log worldPos (vneg dir) fib (sl_container (fst fwd))
          (sl_tractLength (fst fwd)) true (sl_exclude (fst fwd)) s1 in
      ((Some (fst bwd), (snd fwd, snd bwd)), s2)
    else
      ((Some (mkStreamline fib (sl_container (fst fwd)) (sl_tractLength (fst fwd))
                (sl_exclude (fst fwd))), (snd fwd, [])), s1)
  else ((None, ([], [])), (w, snd s)).

(** The positions of the two passes of the trial. *)
Definition forward_positions (worldPos : Point) (s : World * RunState)
  : list Point := fst (snd (fst (track_seed_log worldPos s))).
Definition backward_positions (worldPos : Point) (s : World * RunState)
  : list Point := snd (snd (fst (track_seed_log worldPos s))).

(** Some position of the list is inside the exclusion mask. *)
Definition enters_exclusion (positions : list Point) : bool :=
  existsb (InExclusion ext f) positions.

Close Scope monad_scope.

(** Without the log the loop is [follow_steps]. *)
Lemma follow_steps_log_erase (steps : nat) (front : bool) (pos : Point)
  (dir : vec3) (last_dirs : list vec3) (sl : Streamline) (s : World * RunState) :
  (fst (fst (follow_steps_log steps front pos dir last_dirs sl s)),
   snd (follow_steps_log steps front pos dir last_dirs sl s))
  = follow_steps ext f steps front pos dir last_dirs sl s.
Proof.
  revert pos dir last_dirs sl s.
  induction steps as [|steps IH]; intros pos dir last_dirs sl s; [reflexivity|].
  cbn [follow_steps follow_steps_log].
  destruct (InExclusion ext f (CalculateNewPosition f pos dir)); [reflexivity|].
  unfold bind, liftW, ret, modify_run.
  destruct (PollAbort ext (fst s)) as [abort w1].
  destruct abort; [reflexivity|].
  destruct (_ && _); [reflexivity|].
  destruct (Rgtb _ (m_MaxTractLength f)); [reflexivity|].
  destruct (m_DemoMode f && negb (m_UseOutputProbabilityMap f)); cbn [fst snd];
    match goal with
    | |- context [GetNewDirection ext f ?p ?l ?i ?w] =>
      destruct (GetNewDirection ext f p l i w) as [dir' w2]
    end;
    (destruct (Rltb (magnitude dir') 0.0001); [reflexivity|]);
    match goal with
    | |- context [follow_steps ext f steps front ?p ?d ?l ?sl0 ?s0] =>
      rewrite <- (IH p d l sl0 s0);
      destruct (follow_steps_log steps front p d l sl0 s0) as [[r log] s3]
    end;
    reflexivity.
Qed.

(** The flag a pass returns is the flag it was given, or set by a position
    of the pass inside the exclusion mask; and every point of the fibre it
    returns was in the fibre before or is a position of the pass. *)
Lemma follow_steps_log_flag (steps : nat) (front : bool) (pos : Point)
  (dir : vec3) (last_dirs : list vec3) (sl : Streamline) (s : World * RunState) :
  sl_exclude (fst (fst (follow_steps_log steps front pos dir last_dirs sl s)))
  = sl_exclude sl
    || enters_exclusion
         (snd (fst (follow_steps_log steps front pos dir last_dirs sl s)))
  /\ (forall p,
        In p (sl_fib (fst (fst (follow_steps_log steps front pos dir last_dirs
                                  sl s)))) ->
        In p (sl_fib sl)
        \/ In p (snd (fst (follow_steps_log steps front pos dir last_dirs sl s)))).
Proof.
  revert pos dir last_dirs sl s.
  induction steps as [|steps IH]; intros pos dir last_dirs sl s.
  - simpl. rewrite orb_false_r. auto.
  - cbn [follow_steps_log]. set (pos' := CalculateNewPosition f pos dir).
    assert (Pushed : forall p,
              In p (if front then push_front pos' (sl_fib sl)
                    else push_back pos' (sl_fib sl)) ->
              In p (sl_fib sl) \/ p = pos').
    { intros p. destruct front; unfold push_front, push_back; simpl.
      - intros [<-|H]; auto.
      - intros H. apply in_app_or in H. destruct H as [H|[<-|[]]]; auto. }
    destruct (InExclusion ext f pos') eqn:Ex.
    { unfold ret, enters_exclusion. cbn [fst snd sl_exclude sl_fib existsb].
      rewrite Ex. cbn [orb]. rewrite orb_true_r. auto. }
    unfold bind, liftW, ret, modify_run.
    destruct (PollAbort ext (fst s)) as [abort w1].
    assert (Stop : forall b, enters_exclusion [pos'] = false
                             /\ sl_exclude sl || enters_exclusion [pos']
                                = sl_exclude sl || b && false).
    { intros b. unfold enters_exclusion. cbn [existsb]. rewrite Ex.
      rewrite andb_false_r. auto. }
    destruct (Stop true) as [E0 _].
    destruct abort.
    { cbn [fst snd]. rewrite E0, orb_false_r. auto. }
    assert (One : forall sl1 : Streamline,
              sl_exclude sl1 = sl_exclude sl ->
              sl_fib sl1 = (if front then push_front pos' (sl_fib sl)
                            else push_back pos' (sl_fib sl)) ->
              sl_exclude sl1 = sl_exclude sl || enters_exclusion [pos']
              /\ (forall p, In p (sl_fib sl1) ->
                            In p (sl_fib sl) \/ In p [pos'])).
    { intros sl1 H1 H2. rewrite E0, orb_false_r. split; [exact H1|].
      intros p Hp. rewrite H2 in Hp. destruct (Pushed p Hp); simpl; auto. }
    destruct (_ && _); [cbn [fst snd]; apply One; reflexivity|].
    destruct (Rgtb _ (m_MaxTractLength f)); [cbn [fst snd]; apply One; reflexivity|].
    destruct (m_DemoMode f && negb (m_UseOutputProbabilityMap f)); cbn [fst snd];
      match goal with
      | |- context [GetNewDirection ext f ?p ?l ?i ?w] =>
        destruct (GetNewDirection ext f p l i w) as [dir' w2]
      end;
      (destruct (Rltb (magnitude dir') 0.0001);
       [cbn [fst snd]; apply One; reflexivity|]);
      match goal with
      | |- context [follow_steps_log steps front ?p ?d ?l ?sl0 ?s0] =>
        destruct (IH p d l sl0 s0) as [F P];
        destruct (follow_steps_log steps front p d l sl0 s0) as [[r log] s3]
      end;
      cbn [fst snd sl_exclude sl_fib] in *;
      (split;
       [rewrite F; unfold enters_exclusion; cbn [existsb]; fold pos';
        rewrite Ex; reflexivity
       |intros p Hp; destruct (P p Hp) as [H|H];
        [destruct (Pushed p H) as [H'|H']; [left; exact H' | right; left; auto]
        |right; right; exact H]]).
Qed.

(** A position inside the exclusion mask is the last one of its pass:
    the pass returns at once. *)
Lemma follow_steps_log_last (steps : nat) (front : bool) (pos : Point)
  (dir : vec3) (last_dirs : list vec3) (sl : Streamline) (s : World * RunState) :
  enters_exclusion
    (removelast (snd (fst (follow_steps_log steps front pos dir last_dirs sl s))))
  = false.
Proof.
  revert pos dir last_dirs sl s.
  induction steps as [|steps IH]; intros pos dir last_dirs sl s; [reflexivity|].
  cbn [follow_steps_log].
  destruct (InExclusion ext f (CalculateNewPosition f pos dir)) eqn:Ex;
    [reflexivity|].
  unfold bind, liftW, ret, modify_run.
  destruct (PollAbort ext (fst s)) as [abort w1].
  destruct abort; [reflexivity|].
  destruct (_ && _); [reflexivity|].
  destruct (Rgtb _ (m_MaxTractLength f)); [reflexivity|].
  destruct (m_DemoMode f && negb (m_UseOutputProbabilityMap f)); cbn [fst snd];
    match goal with
    | |- context [GetNewDirection ext f ?p ?l ?i ?w] =>
      destruct (GetNewDirection ext f p l i w) as [dir' w2]
    end;
    (destruct (Rltb (magnitude dir') 0.0001); [reflexivity|]);
    match goal with
    | |- context [follow_steps_log steps front ?p ?d ?l ?sl0 ?s0] =>
      specialize (IH p d l sl0 s0);
      destruct (follow_steps_log steps front p d l sl0 s0) as [[r log] s3]
    end;
    cbn [fst snd] in *;
    (destruct log as [|q log]; [reflexivity|]);
    change (removelast (CalculateNewPosition f pos dir :: q :: log))
      with (CalculateNewPosition f pos dir :: removelast (q :: log));
    unfold enters_exclusion in *; cbn [existsb]; rewrite Ex, IH; reflexivity.
Qed.

(** Without the logs the trial is [track_seed]. *)
Lemma track_seed_log_erase (worldPos : Point) (s : World * RunState) :
  (fst (fst (track_seed_log worldPos s)), snd (track_seed_log worldPos s))
  = track_seed ext f worldPos s.
Proof.
  unfold track_seed_log, track_seed, FollowStreamline_log, FollowStreamline.
  destruct (GetNewDirection ext f worldPos [] zeroIndex (fst s)) as [dir0 w].
  destruct (_ && _); [|reflexivity].
  match goal with
  | |- context [follow_steps ext f ?n false ?p ?d ?l ?sl0 ?s0] =>
    rewrite <- (follow_steps_log_erase n false p d l sl0 s0);
    destruct (follow_steps_log n false p d l sl0 s0) as [[fwd flog] s1]
  end.
  cbn [fst snd].
  destruct (negb (sl_exclude fwd)); [|reflexivity].
  match goal with
  | |- context [follow_steps ext f ?n true ?p ?d ?l ?sl0 ?s0] =>
    rewrite <- (follow_steps_log_erase n true p d l sl0 s0);
    destruct (follow_steps_log n true p d l sl0 s0) as [[bwd blog] s2]
  end.
  reflexivity.
Qed.

(** A trial that does not track has no positions; the streamline of one
    that tracks is flagged exactly when a position of one of its passes is
    inside the exclusion mask, and the backward pass is not run after a
    flagged forward pass. *)
Lemma track_seed_log_flag (worldPos : Point) (s : World * RunState) :
  match fst (track_seed ext f worldPos s) with
  | Some sl =>
    InExclusion ext f worldPos = false
    /\ sl_exclude sl
       = enters_exclusion (forward_positions worldPos s)
         || enters_exclusion (backward_positions worldPos s)
    /\ (enters_exclusion (forward_positions worldPos s) = true ->
        backward_positions worldPos s = [])
    /\ (forall p, In p (sl_fib sl) ->
        p = worldPos \/ In p (forward_positions worldPos s)
        \/ In p (backward_positions worldPos s))
  | None =>
    forward_positions worldPos s = [] /\ backward_positions worldPos s = []
  end.
Proof.
  rewrite <- track_seed_log_erase. unfold forward_positions, backward_positions.
  unfold track_seed_log, FollowStreamline_log.
  destruct (GetNewDirection ext f worldPos [] zeroIndex (fst s)) as [dir0 w].
  destruct (_ && _) eqn:Eg; [|simpl; auto].
  apply andb_true_iff in Eg. destruct Eg as [_ Eg]. apply negb_true_iff in Eg.
  rewrite Eg.
  match goal with
  | |- context [follow_steps_log ?n false ?p ?d ?l ?sl0 ?s0] =>
    destruct (follow_steps_log_flag n false p d l sl0 s0) as [F FP];
    destruct (follow_steps_log n false p d l sl0 s0) as [[fwd flog] s1]
  end.
  cbn [fst snd sl_exclude sl_fib orb] in F, FP |- *.
  destruct (sl_exclude fwd) eqn:Ef; cbn [negb].
  - cbn [fst snd sl_exclude sl_fib]. rewrite <- F. cbn [orb].
    split; [reflexivity|]. split; [reflexivity|]. split; [reflexivity|].
    intros p [<-|Hp]; [auto|]. destruct (FP p Hp) as [[]|H]; auto.
  - match goal with
    | |- context [follow_steps_log ?n true ?p ?d ?l ?sl0 ?s0] =>
      destruct (follow_steps_log_flag n true p d l sl0 s0) as [B BP];
      destruct (follow_steps_log n true p d l sl0 s0) as [[bwd blog] s2]
    end.
    cbn [fst snd sl_exclude sl_fib orb] in B, BP |- *.
    rewrite <- F. cbn [orb]. split; [reflexivity|]. split; [exact B|].
    split; [discriminate|].
    intros p Hp. destruct (BP p Hp) as [[<-|H]|H]; auto.
    destruct (FP p H) as [[]|H']; auto.
Qed.

Lemma track_seed_log_last (worldPos : Point) (s : World * RunState) :
  enters_exclusion (removelast (forward_positions worldPos s)) = false
  /\ enters_exclusion (removelast (backward_positions worldPos s)) = false.
Proof.
  unfold forward_positions, backward_positions, track_seed_log,
    FollowStreamline_log.
  destruct (GetNewDirection ext f worldPos [] zeroIndex (fst s)) as [dir0 w].
  destruct (_ && _); [|split; reflexivity].
  match goal with
  | |- context [follow_steps_log ?n false ?p ?d ?l ?sl0 ?s0] =>
    assert (F := follow_steps_log_last n false p d l sl0 s0);
    destruct (follow_steps_log n false p d l sl0 s0) as [[fwd flog] s1]
  end.
  cbn [fst snd] in F |- *.
  destruct (negb (sl_exclude fwd)); [|split; [exact F | reflexivity]].
  match goal with
  | |- context [follow_steps_log ?n true ?p ?d ?l ?sl0 ?s0] =>
    assert (B := follow_steps_log_last n true p d l sl0 s0);
    destruct (follow_steps_log n true p d l sl0 s0) as [[bwd blog] s2]
  end.
  cbn [fst snd] in B |- *. split; assumption.
Qed.

(** C2.  Tracking from a state in which no shown fibre is pending.  A step
    onto a position inside the exclusion mask sets the flag and ends the
    pass, with the streamline and the state as they were.  The positions
    of the two passes are logged by [track_seed_log], which is
    [track_seed] without the logs, and every point of the streamline is
    the seed or one of them; a position inside the mask is the last one of
    its pass, and after such a forward pass the backward pass is not
    run.  A trial whose seed is inside the
    mask, or whose forward or backward pass has a position inside the
    mask, fails and leaves tractogram, map, count and stop flag as they
    were; the streamline it leaves is flagged.  And a trial that succeeds
    has a seed and positions outside the mask, and has kept a streamline
    that is not flagged and has no point inside the mask. *)
Theorem excluded_fiber_never_accepted (worldPos : Point) (s : World * RunState) :
  m_BuildFibersReady (snd s) = 0%Z ->
  (forall steps front pos dir last_dirs sl s0,
     InExclusion ext f (CalculateNewPosition f pos dir) = true ->
     follow_steps ext f (S steps) front pos dir last_dirs sl s0 = (excluded sl, s0))
  /\ (fst (fst (track_seed_log worldPos s)), snd (track_seed_log worldPos s))
     = track_seed ext f worldPos s
  /\ (forall sl p,
        fst (track_seed ext f worldPos s) = Some sl -> In p (sl_fib sl) ->
        p = worldPos \/ In p (forward_positions worldPos s)
        \/ In p (backward_positions worldPos s))
  /\ enters_exclusion (removelast (forward_positions worldPos s)) = false
  /\ enters_exclusion (removelast (backward_positions worldPos s)) = false
  /\ (enters_exclusion (forward_positions worldPos s) = true ->
      backward_positions worldPos s = [])
  /\ (InExclusion ext f worldPos = true
      \/ enters_exclusion (forward_positions worldPos s) = true
      \/ enters_exclusion (backward_positions worldPos s) = true ->
      exists s', trial ext f worldPos s = Ok (false, s')
                 /\ same_outputs (snd s) (snd s')
                 /\ (forall sl, fst (track_seed ext f worldPos s) = Some sl ->
                                sl_exclude sl = true))
  /\ (forall s', trial ext f worldPos s = Ok (true, s') ->
      InExclusion ext f worldPos = false
      /\ enters_exclusion (forward_positions worldPos s) = false
      /\ enters_exclusion (backward_positions worldPos s) = false
      /\ exists sl, fst (track_seed ext f worldPos s) = Some sl
                    /\ sl_exclude sl = false
                    /\ outside_exclusion (sl_fib sl)
                    /\ snd s' = check_limit f
                                  (keep_fiber ext f (sl_fib sl)
                                     (snd (snd (track_seed ext f worldPos s))))).
Proof.
  intros Hr. split; [intros; apply follow_steps_excluded; assumption|].
  split; [apply track_seed_log_erase|].
  split.
  { intros sl p E. assert (L := track_seed_log_flag worldPos s).
    rewrite E in L. apply L. }
  split; [apply track_seed_log_last|].
  split; [apply track_seed_log_last|].
  split.
  { intros H. assert (L := track_seed_log_flag worldPos s).
    destruct (fst (track_seed ext f worldPos s)); [apply L; exact H | apply L]. }
  assert (K := track_seed_keeps_outputs ext f worldPos s Hr).
  assert (O := track_seed_outside_exclusion worldPos s).
  assert (L := track_seed_log_flag worldPos s).
  assert (Sd := track_seed_excluded_seed worldPos s).
  unfold trial.
  destruct (track_seed ext f worldPos s) as [[sl|] s1] eqn:T;
    cbn [fst snd] in K, O, L, Sd |- *.
  - destruct K as [_ K]. destruct L as (Hseed & Hflag & _ & _). split.
    + intros H.
      assert (Hex : sl_exclude sl = true).
      { destruct H as [H | [H | H]].
        - rewrite H in Hseed. discriminate.
        - rewrite Hflag, H. reflexivity.
        - rewrite Hflag, H. apply orb_true_r. }
      unfold is_candidate. rewrite Hex, andb_false_r.
      exists s1. split; [reflexivity|]. split; [exact K|].
      intros sl' E. inversion E; subst sl'. exact Hex.
    + intros s' H.
      destruct (is_candidate f sl) eqn:Ec; [|discriminate].
      destruct (accept_fiber ext f (sl_fib sl) (snd s1)) as [[b rs']|] eqn:Ea;
        [|discriminate].
      inversion H; subst. apply accept_fiber_cases in Ea.
      unfold is_candidate in Ec. apply andb_true_iff in Ec.
      destruct Ec as [_ Ec]. apply negb_true_iff in Ec.
      rewrite Hflag in Ec. apply orb_false_iff in Ec. destruct Ec as [Ef Eb].
      destruct Ea as [(_ & _ & _ & ->) | [(Ea & _) | (Ea & _)]];
        try discriminate.
      split; [exact Hseed|]. split; [exact Ef|]. split; [exact Eb|].
      exists sl. rewrite Hflag, Ef, Eb. simpl. auto.
  - destruct K as [_ K]. destruct L as [Lf Lb]. split.
    + intros _. exists s1. split; [reflexivity|]. split; [exact K|].
      intros sl E. discriminate.
    + intros s' H. discriminate.
Qed.

End Exclusion.

(** ** The limit on the number of accepted fibres *)

Section Limit.

Context {World Image : Type}.
Variable ext : External World Image.
Variable f : Filter World Image.

(** The critical sections of the parallel loop, as steps on the members
    the threads share.  Unnamed critical sections exclude one another, so
    a run of the thread team is a sequence of these steps, taken by any
    thread with any fibre it has built. *)
Inductive critical_section : RunState -> RunState -> Prop :=
| cs_take_seed (rs : RunState) :
    critical_section rs (snd (take_seed rs))
| cs_report_progress (rs : RunState) (print_interval : Z) :
    critical_section rs (report_progress print_interval rs)
| cs_accept (rs rs' : RunState) (fib : FiberType) (success : bool) :
    accept_fiber ext f fib rs = Ok (success, rs') ->
    critical_section rs rs'
| cs_show (rs : RunState) (fib : FiberType) :
    m_DemoMode f = true ->
    critical_section rs (show_partial_fiber ext f fib rs).

Inductive reaches (rs0 : RunState) : RunState -> Prop :=
| reaches_start : reaches rs0 rs0
| reaches_step (rs rs' : RunState) :
    reaches rs0 rs -> critical_section rs rs' -> reaches rs0 rs'.

Lemma reaches_trans (a b c : RunState) : reaches a b -> reaches b c -> reaches a c.
Proof.
  intros Hab Hbc. induction Hbc; [exact Hab|]. eapply reaches_step; eassumption.
Qed.

(** The members as [BeforeTracking] and [GenerateData] leave them before
    the parallel loop. *)
Definition started (rs : RunState) : Prop :=
  m_CurrentTracts rs = 0%Z /\ m_StopTracking rs = false
  /\ m_Tractogram rs = [] /\ m_BuildFibersReady rs = 0%Z.

Definition within_limit (rs : RunState) : Prop :=
  m_BuildFibersReady rs = 0%Z
  /\ (0 <= m_CurrentTracts rs <= m_MaxNumTracts f)%Z
  /\ (Z.of_nat (length (m_Tractogram rs)) <= m_CurrentTracts rs)%Z
  /\ (m_CurrentTracts rs = m_MaxNumTracts f -> m_StopTracking rs = true).

Lemma to_unsigned_small (z : Z) : (0 <= z < 2 ^ 32)%Z -> to_unsigned z = z.
Proof. intros H. unfold to_unsigned. apply Z.mod_small. exact H. Qed.

Lemma check_limit_within_limit (rs : RunState) :
  (0 < m_MaxNumTracts f < 2 ^ 31)%Z ->
  m_BuildFibersReady rs = 0%Z ->
  (0 <= m_CurrentTracts rs <= m_MaxNumTracts f)%Z ->
  (Z.of_nat (length (m_Tractogram rs)) <= m_CurrentTracts rs)%Z ->
  within_limit (check_limit f rs).
Proof.
  intros Hm Hr Hc Hl. unfold within_limit, check_limit.
  rewrite to_unsigned_small by lia.
  destruct (0 <? m_MaxNumTracts f)%Z eqn:E0; [|apply Z.ltb_ge in E0; lia].
  destruct (m_MaxNumTracts f <=? m_CurrentTracts rs)%Z eqn:E1; simpl.
  - repeat split; auto; lia.
  - apply Z.leb_gt in E1. repeat split; auto; lia.
Qed.

Lemma critical_section_within_limit (rs rs' : RunState) :
  (0 < m_MaxNumTracts f < 2 ^ 31)%Z ->
  within_limit rs -> critical_section rs rs' -> within_limit rs'.
Proof.
  intros Hm (Hr & Hc & Hl & Hs) Hstep. destruct Hstep as [rs|rs n|rs rs' fib b Ha|rs fib Hd].
  - unfold within_limit; simpl. auto.
  - unfold within_limit; simpl. auto.
  - apply accept_fiber_cases in Ha.
    destruct Ha as [(_ & _ & Hstop & ->) | [(_ & _ & _ & ->) | (_ & _ & ->)]].
    + assert (m_CurrentTracts rs <> m_MaxNumTracts f) as Hne.
      { intros E. apply Hs in E. congruence. }
      apply check_limit_within_limit; auto.
      * unfold keep_fiber. destruct (negb (m_UseOutputProbabilityMap f)); simpl; auto.
      * unfold keep_fiber.
        destruct (negb (m_UseOutputProbabilityMap f)); simpl;
          rewrite to_unsigned_small by lia; lia.
      * unfold keep_fiber.
        destruct (negb (m_UseOutputProbabilityMap f)); simpl;
          rewrite to_unsigned_small by lia;
          unfold push_back; try rewrite length_app; simpl; lia.
    + apply check_limit_within_limit; auto.
    + unfold within_limit; auto.
  - destruct (show_partial_fiber_restores ext f fib rs Hd Hr)
      as (R1 & T1 & _ & C1 & S1).
    unfold within_limit. rewrite <- T1, <- C1, <- S1. auto.
Qed.

Lemma started_within_limit (rs : RunState) :
  (0 < m_MaxNumTracts f)%Z -> started rs -> within_limit rs.
Proof.
  intros Hm (Hc & Hs & Ht & Hr). unfold within_limit.
  rewrite Hc, Ht. simpl. repeat split; auto; lia.
Qed.

Lemma reaches_within_limit (rs0 rs : RunState) :
  (0 < m_MaxNumTracts f < 2 ^ 31)%Z ->
  within_limit rs0 -> reaches rs0 rs -> within_limit rs.
Proof.
  intros Hm H0 Hreach. induction Hreach; [exact H0|].
  eapply critical_section_within_limit; eassumption.
Qed.

(** C1.  With a positive limit (an [int]), in every state the thread team
    reaches from the start of the parallel loop: the count of accepted
    fibres and the size of the tractogram are at most the limit; when the
    count is the limit the stop flag is set; and when the stop flag is set
    the critical section of acceptance keeps no fibre and changes neither
    output nor count. *)
Theorem accepted_count_within_limit (rs0 rs : RunState) :
  (0 < m_MaxNumTracts f < 2 ^ 31)%Z ->
  started rs0 ->
  reaches rs0 rs ->
  (0 <= m_CurrentTracts rs <= m_MaxNumTracts f)%Z
  /\ (Z.of_nat (length (m_Tractogram rs)) <= m_MaxNumTracts f)%Z
  /\ (m_CurrentTracts rs = m_MaxNumTracts f -> m_StopTracking rs = true)
  /\ (m_StopTracking rs = true ->
      forall fib success rs',
        accept_fiber ext f fib rs = Ok (success, rs') ->
        success = false /\ same_outputs rs rs').
Proof.
  intros Hm H0 Hreach.
  assert (W : within_limit rs).
  { eapply reaches_within_limit; [exact Hm | | exact Hreach].
    apply started_within_limit; [lia | exact H0]. }
  destruct W as (Hr & Hc & Hl & Hs).
  split; [exact Hc|]. split; [lia|]. split; [exact Hs|].
  intros Hstop fib success rs' Ha.
  destruct success.
  - apply accept_fiber_cases in Ha.
    destruct Ha as [(_ & _ & E & _) | [(E & _) | (E & _)]]; congruence.
  - split; [reflexivity|]. apply (accept_fiber_rejects ext f fib rs Ha).
Qed.

End Limit.

(** ** The run of one thread as a sequence of critical sections *)

Section WholeRun.

Context {World Image : Type}.
Variable ext : External World Image.
Variable f : Filter World Image.

Lemma track_seed_run_rule (R : RunState -> Prop) (worldPos : Point)
  (s : World * RunState) :
  (m_DemoMode f = true ->
   forall fib rs, R rs -> R (show_partial_fiber ext f fib rs)) ->
  R (snd s) ->
  R (snd (snd (track_seed ext f worldPos s))).
Proof.
  intros Hshow HR. unfold track_seed.
  destruct (GetNewDirection ext f worldPos [] zeroIndex (fst s)) as [dir0 w].
  destruct (_ && _); [|exact HR].
  assert (F := follow_steps_run_rule ext f R Hshow).
  unfold FollowStreamline.
  match goal with
  | |- context [follow_steps ext f ?n false ?p ?d ?l ?sl0 (w, snd s)] =>
    specialize (F n false p d l sl0 (w, snd s) HR) as F1;
    destruct (follow_steps ext f n false p d l sl0 (w, snd s)) as [fwd s1]
  end.
  simpl in F1. destruct (negb (sl_exclude fwd)); [|exact F1].
  match goal with
  | |- context [follow_steps ext f ?n true ?p ?d ?l ?sl0 s1] =>
    specialize (F n true p d l sl0 s1 F1) as F2;
    destruct (follow_steps ext f n true p d l sl0 s1) as [bwd s2]
  end.
  exact F2.
Qed.

(** What the loop over the seeds keeps, from the state [rs0] it starts in:
    no shown fibre is pending, the state is reached by critical sections,
    and no fibre of the tractogram has a point inside the exclusion mask. *)
Definition run_invariant (rs0 rs : RunState) : Prop :=
  m_BuildFibersReady rs = 0%Z
  /\ reaches ext f rs0 rs
  /\ Forall (outside_exclusion ext f) (m_Tractogram rs).

Lemma show_partial_fiber_run_invariant (rs0 rs : RunState) (fib : FiberType) :
  m_DemoMode f = true ->
  run_invariant rs0 rs -> run_invariant rs0 (show_partial_fiber ext f fib rs).
Proof.
  intros Hd (Hr & Hreach & Hclean).
  destruct (show_partial_fiber_restores ext f fib rs Hd Hr) as (R1 & T1 & _).
  repeat split.
  - exact R1.
  - eapply reaches_step; [exact Hreach | apply cs_show; exact Hd].
  - rewrite <- T1. exact Hclean.
Qed.

Lemma trial_run_invariant (rs0 : RunState) (worldPos : Point)
  (s s' : World * RunState) (success : bool) :
  trial ext f worldPos s = Ok (success, s') ->
  run_invariant rs0 (snd s) -> run_invariant rs0 (snd s').
Proof.
  intros H Hinv.
  assert (T := track_seed_run_rule (run_invariant rs0) worldPos s
                 (fun Hd fib rs => @show_partial_fiber_run_invariant rs0 rs fib Hd)
                 Hinv).
  assert (O := track_seed_outside_exclusion ext f worldPos s).
  unfold trial in H.
  destruct (track_seed ext f worldPos s) as [[sl|] s1]; simpl in T, O;
    [|inversion H; subst; exact T].
  destruct (is_candidate f sl); [|inversion H; subst; exact T].
  destruct (accept_fiber ext f (sl_fib sl) (snd s1)) as [[b rs']|] eqn:Ea;
    [|discriminate].
  inversion H; subst. simpl. destruct T as (Hr & Hreach & Hclean).
  assert (Hstep := cs_accept ext f _ _ Ea).
  repeat split.
  - apply accept_fiber_cases in Ea.
    destruct Ea as [(_ & _ & _ & ->) | [(_ & _ & _ & ->) | (_ & _ & ->)]];
      try exact Hr.
    + destruct (check_limit_fields f (keep_fiber ext f (sl_fib sl) (snd s1)))
        as (_ & _ & _ & -> & _).
      unfold keep_fiber. destruct (negb (m_UseOutputProbabilityMap f)); exact Hr.
    + destruct (check_limit_fields f (snd s1)) as (_ & _ & _ & -> & _). exact Hr.
  - eapply reaches_step; eassumption.
  - apply accept_fiber_cases in Ea.
    destruct Ea as [(_ & _ & _ & ->) | [(_ & _ & _ & ->) | (_ & _ & ->)]];
      try exact Hclean.
    + destruct (check_limit_fields f (keep_fiber ext f (sl_fib sl) (snd s1)))
        as (-> & _).
      unfold keep_fiber. destruct (negb (m_UseOutputProbabilityMap f)); simpl;
        [|exact Hclean].
      apply Forall_app. split; [exact Hclean|]. constructor; [|constructor].
      apply O. reflexivity.
    + destruct (check_limit_fields f (snd s1)) as (-> & _). exact Hclean.
Qed.

Lemma trials_loop_run_invariant (rs0 : RunState) (n : nat) (worldPos : Point)
  (s s' : World * RunState) (l : list bool) :
  trials_loop ext f n worldPos s = Ok (l, s') ->
  run_invariant rs0 (snd s) -> run_invariant rs0 (snd s').
Proof.
  revert s l. induction n as [|n IH]; intros s l H Hinv; simpl in H.
  - inversion H; subst; exact Hinv.
  - destruct (trial ext f worldPos s) as [[b s1]|] eqn:T; [|discriminate].
    eapply trial_run_invariant in T; [|exact Hinv].
    destruct (b || _).
    + inversion H; subst; exact T.
    + destruct (trials_loop ext f n worldPos s1) as [[l1 s2]|] eqn:E;
        [|discriminate].
      inversion H; subst. eapply IH; eassumption.
Qed.

Lemma seed_loop_run_invariant (rs0 : RunState) (fuel : nat)
  (num_seeds print_interval : Z) (s s' : World * RunState) :
  seed_loop ext f fuel num_seeds print_interval s = Ok s' ->
  run_invariant rs0 (snd s) -> run_invariant rs0 (snd s').
Proof.
  revert s. induction fuel as [|fuel IH]; intros s H Hinv; simpl in H.
  - inversion H; subst; exact Hinv.
  - destruct (_ && _); [|inversion H; subst; exact Hinv].
    assert (Htake : run_invariant rs0 (set_seed_cursor (snd s) (seed_cursor (snd s) + 1))).
    { destruct Hinv as (Hr & Hreach & Hclean). repeat split; auto.
      eapply reaches_step; [exact Hreach | apply (cs_take_seed ext f (snd s))]. }
    destruct (_ || _); [eapply IH; [exact H | exact Htake]|].
    match type of H with
    | context [seed_trials ext f ?p (fst s, ?rs1)] =>
      assert (Hprog : run_invariant rs0 rs1);
        [|destruct (seed_trials ext f p (fst s, rs1)) as [[l s1]|] eqn:E;
          [|discriminate]]
    end.
    + destruct (_ && _); [|exact Htake].
      destruct Htake as (Hr & Hreach & Hclean). repeat split; auto.
      eapply reaches_step; [exact Hreach | apply cs_report_progress].
    + eapply IH; [exact H|].
      eapply trials_loop_run_invariant; [exact E | exact Hprog].
Qed.

(** The seed cursor is moved by [take_seed] alone. *)
Lemma trial_keeps_cursor (worldPos : Point) (s s' : World * RunState)
  (success : bool) :
  trial ext f worldPos s = Ok (success, s') ->
  seed_cursor (snd s') = seed_cursor (snd s).
Proof.
  intros H.
  assert (T := track_seed_run_rule
                 (fun rs => seed_cursor rs = seed_cursor (snd s)) worldPos s).
  simpl in T. unfold trial in H.
  destruct (track_seed ext f worldPos s) as [o s1].
  assert (C : seed_cursor (snd s1) = seed_cursor (snd s)).
  { apply T; [|reflexivity]. intros _ fib rs E.
    unfold show_partial_fiber, BuildFibers. destruct (_ && _); simpl; exact E. }
  destruct o as [sl|]; [|inversion H; subst; exact C].
  destruct (is_candidate f sl); [|inversion H; subst; exact C].
  destruct (accept_fiber ext f (sl_fib sl) (snd s1)) as [[b rs']|] eqn:Ea;
    [|discriminate].
  inversion H; subst. simpl. apply accept_fiber_cases in Ea.
  destruct Ea as [(_ & _ & _ & ->) | [(_ & _ & _ & ->) | (_ & _ & ->)]];
    try exact C;
    unfold check_limit, keep_fiber;
    repeat match goal with
           | |- context [if ?b then _ else _] => destruct b; simpl
           end; exact C.
Qed.

Lemma trials_loop_keeps_cursor (n : nat) (worldPos : Point)
  (s s' : World * RunState) (l : list bool) :
  trials_loop ext f n worldPos s = Ok (l, s') ->
  seed_cursor (snd s') = seed_cursor (snd s).
Proof.
  revert s l. induction n as [|n IH]; intros s l H; simpl in H.
  - inversion H; reflexivity.
  - destruct (trial ext f worldPos s) as [[b s1]|] eqn:T; [|discriminate].
    apply trial_keeps_cursor in T.
    destruct (b || _).
    + inversion H; subst; exact T.
    + destruct (trials_loop ext f n worldPos s1) as [[l1 s2]|] eqn:E;
        [|discriminate].
      inversion H; subst. rewrite (IH _ _ E). exact T.
Qed.

(** The loop over the seeds ends because its condition fails, not because
    the rounds of the model are used up: [fuel] rounds are enough when
    they cover the seeds that are left. *)
Lemma seed_loop_exit (fuel : nat) (num_seeds print_interval : Z)
  (s s' : World * RunState) :
  seed_loop ext f fuel num_seeds print_interval s = Ok s' ->
  (num_seeds <= seed_cursor (snd s) + Z.of_nat fuel)%Z ->
  (seed_cursor (snd s') <? num_seeds)%Z && negb (m_StopTracking (snd s')) = false.
Proof.
  revert s. induction fuel as [|fuel IH]; intros s H Hf; simpl in H.
  - inversion H; subst. apply andb_false_iff. left. apply Z.ltb_ge. lia.
  - destruct ((seed_cursor (snd s) <? num_seeds)%Z
              && negb (m_StopTracking (snd s))) eqn:Ec;
      [|inversion H; subst; exact Ec].
    destruct (_ || _).
    + apply IH in H; [exact H | simpl; lia].
    + match type of H with
      | context [seed_trials ext f ?p ?s0] =>
        destruct (seed_trials ext f p s0) as [[l s1]|] eqn:E; [|discriminate]
      end.
      apply trials_loop_keeps_cursor in E.
      apply IH in H; [exact H|]. rewrite E. simpl.
      destruct (m_Verbose (snd s) && _); simpl; lia.
Qed.

End WholeRun.

Section WholeRunOutput.

Context {World Image : Type}.
Variable ext : External World Image.

Lemma BeforeTracking_started (f f' : Filter World Image) (rs rs' : RunState)
  (w w' : World) :
  BeforeTracking ext f rs w = Ok (f', rs', w') ->
  (exists seeds, f' = set_SeedPoints (prepare_members ext f) seeds)
  /\ m_StopTracking rs' = false /\ m_Tractogram rs' = []
  /\ m_BuildFibersReady rs' = 0%Z.
Proof.
  unfold BeforeTracking. intros H.
  destruct (IsValidFiber ext (prepare_members ext f) test_fib); [|discriminate].
  destruct (match m_SeedPoints (prepare_members ext f) with [] => _ | _ => _ end)
    as [seeds w1].
  inversion H; subst. simpl. eauto.
Qed.

(** X18.  The run of [GenerateData] by one thread: no fibre of the
    tractogram it leaves has a point inside the exclusion mask; with a
    positive limit the count and the tractogram are within the limit; and
    the poly data is built from that tractogram. *)
Lemma GenerateData_output (f f' : Filter World Image) (rs rs' : RunState)
  (w w' : World) :
  GenerateData ext f rs w = Ok (f', rs', w') ->
  Forall (outside_exclusion ext (prepare_members ext f)) (m_Tractogram rs')
  /\ ((0 < m_MaxNumTracts f < 2 ^ 31)%Z ->
      (m_CurrentTracts rs' <= m_MaxNumTracts f)%Z
      /\ (Z.of_nat (length (m_Tractogram rs')) <= m_MaxNumTracts f)%Z)
  /\ (m_UseOutputProbabilityMap f = false ->
      m_FiberPolyData rs' = m_Tractogram rs').
Proof.
  unfold GenerateData. intros H.
  destruct (BeforeTracking ext f rs w) as [[[f1 rs1] w1]|] eqn:B; [|discriminate].
  apply BeforeTracking_started in B. destruct B as ((seeds & ->) & Hs & Ht & Hr).
  destruct (if m_Random _ then _ else _) as [shuffled w2].
  set (g := set_SeedPoints (set_SeedPoints (prepare_members ext f) seeds) shuffled) in *.
  set (n := Z.of_nat (length (m_SeedPoints g))) in *.
  destruct (seed_loop ext g (length (m_SeedPoints g)) n (Z.quot n 100)
              (w2, start_run n rs1)) as [[w3 rs3]|] eqn:L; [|discriminate].
  assert (Hstart : started (start_run n rs1)).
  { unfold started, start_run; simpl. auto. }
  assert (Hinv : run_invariant ext g (start_run n rs1) (start_run n rs1)).
  { repeat split.
    - exact Hr.
    - apply reaches_start.
    - simpl. rewrite Ht. constructor. }
  eapply seed_loop_run_invariant in L; [|exact Hinv].
  simpl in L. destruct L as (Hr3 & Hreach & Hclean).
  unfold AfterTracking in H. injection H as <- <- <-.
  assert (Hcur : forall b, m_CurrentTracts (BuildFibers ext g b rs3) = m_CurrentTracts rs3).
  { intros b. unfold BuildFibers. destruct (_ && _); reflexivity. }
  assert (Htr : m_Tractogram (BuildFibers ext g false rs3) = m_Tractogram rs3).
  { unfold BuildFibers. rewrite andb_false_r. reflexivity. }
  split; [|split].
  - destruct (negb (m_UseOutputProbabilityMap f)); [rewrite Htr|]; exact Hclean.
  - intros Hm.
    assert (W : within_limit g rs3).
    { eapply reaches_within_limit; [exact Hm | | exact Hreach].
      apply started_within_limit; [apply Hm | exact Hstart]. }
    destruct W as (_ & Hc & Hl & _). change (m_MaxNumTracts g) with (m_MaxNumTracts f) in *.
    destruct (negb (m_UseOutputProbabilityMap f)); [rewrite Htr, Hcur|]; simpl;
      split; lia.
  - intros Hp. rewrite Hp. simpl. unfold BuildFibers. rewrite andb_false_r.
    reflexivity.
Qed.

End WholeRunOutput.

(** ** Distances between consecutive points *)

(** The distances between the consecutive points of a fibre. *)
Fixpoint gaps (fib : list Point) : list R :=
  match fib with
  | [] => []
  | p :: t =>
    match t with
    | [] => []
    | q :: _ => distance p q :: gaps t
    end
  end.

(** The distances along one side of a streamline, from the seed point on:
    half a step, then full steps. *)
Definition side_gaps (stepSize : R) (n : nat) : list R :=
  match n with
  | O => []
  | S k => 0.5 * Rabs stepSize :: repeat (Rabs stepSize) k
  end.

Lemma last_cons_default {A : Type} (a d : A) (l : list A) :
  last (a :: l) d = last l a.
Proof.
  revert a d. induction l as [|b l IH]; intros a d; [reflexivity|].
  change (last (a :: b :: l) d) with (last (b :: l) d).
  rewrite (IH b d), (IH b a). reflexivity.
Qed.

Lemma gaps_snoc (l : list Point) (p q : Point) :
  gaps ((p :: l) ++ [q]) = gaps (p :: l) ++ [distance (last l p) q].
Proof.
  revert p. induction l as [|a l IH]; intros p; [reflexivity|].
  change (gaps ((p :: a :: l) ++ [q]))
    with (distance p a :: gaps ((a :: l) ++ [q])).
  rewrite IH, last_cons_default. reflexivity.
Qed.

Lemma side_gaps_snoc (stepSize : R) (n : nat) :
  side_gaps stepSize (S n)
  = side_gaps stepSize n
    ++ [match n with O => 0.5 * Rabs stepSize | S _ => Rabs stepSize end].
Proof.
  destruct n as [|n]; [reflexivity|]. simpl.
  f_equal. change (Rabs stepSize :: repeat (Rabs stepSize) n)
    with (repeat (Rabs stepSize) (S n)).
  rewrite <- repeat_cons. reflexivity.
Qed.

Section StepLength.

Context {World Image : Type}.
Variable ext : External World Image.
Variable f : Filter World Image.

Lemma distance_CalculateNewPosition (pos : Point) (dir : vec3) :
  distance pos (CalculateNewPosition f pos dir)
  = Rabs (m_StepSize f) * magnitude dir.
Proof.
  rewrite <- (distance_step pos dir (m_StepSize f)). unfold distance, magnitude.
  f_equal. unfold squared_magnitude, dot_product, vadd, vneg, vscale,
    CalculateNewPosition; simpl. ring.
Qed.

(** The invariant of a pass that started at the seed point with a
    direction of norm one half: [side] holds the points added so far, in
    the order they were added. *)
Definition on_side (seed : Point) (side : list Point) (pos : Point) (dir : vec3)
  : Prop :=
  gaps (seed :: side) = side_gaps (m_StepSize f) (length side)
  /\ pos = last side seed
  /\ magnitude dir = match side with [] => 0.5 | _ => 1 end.

Lemma on_side_advance (seed : Point) (side : list Point) (pos : Point)
  (dir dir' : vec3) :
  on_side seed side pos dir ->
  magnitude dir' = 1 ->
  on_side seed (side ++ [CalculateNewPosition f pos dir])
    (CalculateNewPosition f pos dir) dir'.
Proof.
  intros (Hg & Hp & Hd) Hd'. unfold on_side. repeat split.
  - change (seed :: side ++ [CalculateNewPosition f pos dir])
      with ((seed :: side) ++ [CalculateNewPosition f pos dir]).
    rewrite gaps_snoc, Hg, length_app, Nat.add_1_r, side_gaps_snoc.
    f_equal. f_equal. rewrite <- Hp, distance_CalculateNewPosition, Hd.
    destruct side; simpl; ring.
  - rewrite last_last. reflexivity.
  - destruct side; simpl; exact Hd'.
Qed.

Lemma on_side_gaps (seed : Point) (side : list Point) (pos : Point) (dir : vec3) :
  on_side seed side pos dir ->
  gaps (seed :: side) = side_gaps (m_StepSize f) (length side).
Proof. intros (Hg & _); exact Hg. Qed.

(** The forward pass adds its points at the back. *)
Lemma forward_pass_gaps (seed : Point) (dir : vec3) (tractLength : R)
  (exclude : bool) (s : World * RunState) :
  magnitude dir = 0.5 ->
  let fwd := fst (FollowStreamline ext f seed dir [] [] tractLength false exclude
                    s) in
  gaps (seed :: sl_fib fwd) = side_gaps (m_StepSize f) (length (sl_fib fwd)).
Proof.
  intros Hd. unfold FollowStreamline.
  apply (follow_steps_rule ext f
           (fun pos dir sl => on_side seed (sl_fib sl) pos dir)
           (fun sl => gaps (seed :: sl_fib sl)
                      = side_gaps (m_StepSize f) (length (sl_fib sl)))).
  - intros pos d sl H. eapply on_side_gaps; exact H.
  - intros pos d sl H _. simpl. eapply on_side_gaps; exact H.
  - intros pos d sl H _.
    assert (A : forall d', magnitude d' = 1 ->
                on_side seed (sl_fib (advance f false (CalculateNewPosition f pos d)
                                        d sl))
                  (CalculateNewPosition f pos d) d').
    { intros d' Hd'. simpl. unfold push_back. apply on_side_advance; assumption. }
    split; [|exact A].
    eapply on_side_gaps. apply (A (mkVec 1 0 0)).
    unfold magnitude, squared_magnitude, dot_product; simpl.
    replace (1 * 1 + 0 * 0 + 0 * 0) with 1 by ring. apply sqrt_1.
  - simpl. repeat split. exact Hd.
Qed.

(** The backward pass adds its points at the front of the fibre it is
    given. *)
Lemma backward_pass_gaps (seed : Point) (dir : vec3) (fib : FiberType)
  (container : DirectionContainer) (tractLength : R) (exclude : bool)
  (s : World * RunState) :
  magnitude dir = 0.5 ->
  let bwd := fst (FollowStreamline ext f seed dir fib container tractLength true
                    exclude s) in
  exists side,
    sl_fib bwd = rev side ++ fib
    /\ gaps (seed :: side) = side_gaps (m_StepSize f) (length side).
Proof.
  intros Hd. unfold FollowStreamline.
  apply (follow_steps_rule ext f
           (fun pos dir sl =>
              exists side, sl_fib sl = rev side ++ fib
                           /\ on_side seed side pos dir)
           (fun sl =>
              exists side, sl_fib sl = rev side ++ fib
                           /\ gaps (seed :: side)
                              = side_gaps (m_StepSize f) (length side))).
  - intros pos d sl (side & E & H). exists side. split; [exact E|].
    eapply on_side_gaps; exact H.
  - intros pos d sl (side & E & H) _. exists side. split; [exact E|].
    eapply on_side_gaps; exact H.
  - intros pos d sl (side & E & H) _.
    assert (A : forall d', magnitude d' = 1 ->
                exists side',
                  sl_fib (advance f true (CalculateNewPosition f pos d) d sl)
                  = rev side' ++ fib
                  /\ on_side seed side' (CalculateNewPosition f pos d) d').
    { intros d' Hd'. exists (side ++ [CalculateNewPosition f pos d]). split.
      - simpl. unfold push_front. rewrite E, rev_app_distr. reflexivity.
      - apply on_side_advance; assumption. }
    split; [|exact A].
    destruct (A (mkVec 1 0 0)) as (side' & E' & H').
    { unfold magnitude, squared_magnitude, dot_product; simpl.
      replace (1 * 1 + 0 * 0 + 0 * 0) with 1 by ring. apply sqrt_1. }
    exists side'. split; [exact E'|]. eapply on_side_gaps; exact H'.
  - exists []. simpl. repeat split. exact Hd.
Qed.

(** The starting direction of a trial that tracks has norm one half. *)
Lemma starting_direction_half (dir0 : vec3) :
  unit_or_zero dir0 ->
  Rgtb (magnitude (vscale 0.5 dir0)) 0.0001 = true ->
  magnitude (vscale 0.5 dir0) = 0.5.
Proof.
  intros U H. apply Rgtb_true in H. rewrite magnitude_vscale in *.
  rewrite Rabs_right in * by lra. destruct U as [-> | U]; [lra|].
  rewrite U in H. lra.
Qed.

(** C5, as the code has it.  The fibre of a trial that tracks is the
    backward points in reverse, the seed point, and the forward points.
    On either side, from the seed point on, the first two points are
    half a step apart (the starting direction is scaled by 0.5) and all
    later consecutive points are one step apart, the step being
    [|m_StepSize|]; this holds up to and including the last point. *)
Theorem streamline_step_lengths (worldPos : Point) (s : World * RunState) :
  match fst (track_seed ext f worldPos s) with
  | Some sl =>
    exists backward forward,
      sl_fib sl = rev backward ++ worldPos :: forward
      /\ gaps (worldPos :: forward)
         = side_gaps (m_StepSize f) (length forward)
      /\ gaps (worldPos :: backward)
         = side_gaps (m_StepSize f) (length backward)
  | None => True
  end.
Proof.
  unfold track_seed.
  assert (U := GetNewDirection_unit_or_zero ext f worldPos [] zeroIndex (fst s)).
  destruct (GetNewDirection ext f worldPos [] zeroIndex (fst s)) as [dir0 w].
  simpl in U.
  destruct (Rgtb (magnitude (vscale 0.5 dir0)) 0.0001) eqn:Eg; simpl;
    [|exact Logic.I].
  assert (Hd := starting_direction_half U Eg).
  destruct (negb (InExclusion ext f worldPos)); simpl; [|exact Logic.I].
  assert (F := forward_pass_gaps worldPos (vscale 0.5 dir0) 0
                 (InExclusion ext f worldPos) (w, snd s) Hd).
  destruct (FollowStreamline ext f worldPos (vscale 0.5 dir0) [] [] 0 false _
              (w, snd s)) as [fwd s1].
  simpl in F.
  destruct (negb (sl_exclude fwd)).
  - assert (Hd' : magnitude (vneg (vscale 0.5 dir0)) = 0.5).
    { rewrite magnitude_vneg. exact Hd. }
    assert (B := backward_pass_gaps worldPos (vneg (vscale 0.5 dir0))
                   (push_front worldPos (sl_fib fwd)) (sl_container fwd)
                   (sl_tractLength fwd) (sl_exclude fwd) s1 Hd').
    destruct (FollowStreamline ext f worldPos (vneg (vscale 0.5 dir0)) _ _ _ true
                _ s1) as [bwd s2].
    simpl in B. destruct B as (side & E & G). simpl.
    exists side, (sl_fib fwd). auto.
  - simpl. exists [], (sl_fib fwd). simpl. auto.
Qed.

End StepLength.

(** ** A run along a straight line *)

Lemma Rltb_irrefl (x : R) : Rltb x x = false.
Proof. apply Rltb_false. lra. Qed.

Lemma line_filter_prepared : prepare_members plain_ext line_settings = line_filter.
Proof.
  unfold prepare_members, line_settings, line_filter, tracking_filter.
  cbn -[Rltb Rleb cos PI].
  rewrite !Rltb_irrefl. cbn -[Rltb Rleb cos PI].
  assert (Rltb 1 (1 / 4503599627370496) = false) as -> by (apply Rltb_false; lra).
  assert (Rltb (-1) 0 = true) as -> by (apply Rltb_true; lra).
  assert (Rltb (-1) (1 / 4503599627370496) = true) as -> by (apply Rltb_true; lra).
  assert (Rleb (1 * 1 / 1) 0.966 = false) as -> by (apply Rleb_false; lra).
  unfold everywhere, nowhere. f_equal; lra.
Qed.

Lemma magnitude_x_axis : magnitude x_axis = 1.
Proof.
  unfold magnitude, squared_magnitude, dot_product, x_axis; simpl.
  replace (1 * 1 + 0 * 0 + 0 * 0) with 1 by ring. apply sqrt_1.
Qed.

(** Normalising a multiple of the x axis. *)
Lemma normalize_vscale_x_axis (c : R) :
  c <> 0 ->
  normalize (vscale c x_axis) = if Rltb c 0 then vneg x_axis else x_axis.
Proof.
  intros Hc. unfold normalize.
  assert (E : squared_magnitude (vscale c x_axis) = Rsqr c).
  { unfold squared_magnitude, dot_product, vscale, x_axis, Rsqr; simpl. ring. }
  rewrite E. assert (Reqb (Rsqr c) 0 = false) as ->.
  { unfold Reqb. destruct (Req_dec_T (Rsqr c) 0) as [Z|]; [|reflexivity].
    apply Rsqr_0_uniq in Z. contradiction. }
  rewrite sqrt_Rsqr_abs. unfold vscale, vneg, x_axis; simpl.
  destruct (Rltb c 0) eqn:El.
  - apply Rltb_true in El. rewrite Rabs_left by lra. f_equal; field; lra.
  - apply Rltb_false in El. rewrite Rabs_right by lra. f_equal; field; lra.
Qed.

Lemma vscale_1 (v : vec3) : vscale 1 v = v.
Proof. destruct v; unfold vscale; simpl. f_equal; ring. Qed.

Lemma vneg_vscale (v : vec3) : vneg v = vscale (-1) v.
Proof. destruct v; unfold vscale, vneg; simpl. f_equal; ring. Qed.

Lemma normalize_along_x (olddirs : list vec3) :
  normalize (along_x olddirs) = along_x olddirs
  /\ magnitude (along_x olddirs) = 1.
Proof.
  unfold along_x. destruct (Rltb (vx (last olddirs x_axis)) 0).
  - rewrite magnitude_vneg, magnitude_x_axis, vneg_vscale.
    rewrite normalize_vscale_x_axis by lra.
    assert (Rltb (-1) 0 = true) as -> by (apply Rltb_true; lra).
    rewrite vneg_vscale. auto.
  - rewrite magnitude_x_axis. rewrite <- (vscale_1 x_axis) at 1.
    rewrite normalize_vscale_x_axis by lra.
    assert (Rltb 1 0 = false) as -> by (apply Rltb_false; lra). auto.
Qed.

Lemma along_x_start : along_x [] = x_axis.
Proof.
  unfold along_x; simpl.
  assert (Rltb 1 0 = false) as -> by (apply Rltb_false; lra). reflexivity.
Qed.

Lemma normalize_x_axis : normalize x_axis = x_axis.
Proof.
  rewrite <- along_x_start. apply (proj1 (normalize_along_x [])).
Qed.

Lemma along_x_forward : along_x [x_axis] = x_axis.
Proof.
  unfold along_x; simpl.
  assert (Rltb 1 0 = false) as -> by (apply Rltb_false; lra). reflexivity.
Qed.

Lemma along_x_backward : along_x [vneg x_axis] = vneg x_axis.
Proof.
  unfold along_x; simpl.
  match goal with
  | |- context [Rltb ?a 0] =>
    assert (Rltb a 0 = true) as -> by (apply Rltb_true; lra)
  end.
  reflexivity.
Qed.

Lemma half_x_dirs : next_dirs (vscale 0.5 x_axis) [] = [x_axis].
Proof.
  unfold next_dirs. rewrite normalize_vscale_x_axis by lra.
  assert (Rltb 0.5 0 = false) as -> by (apply Rltb_false; lra). reflexivity.
Qed.

Lemma neg_half_x_dirs : next_dirs (vneg (vscale 0.5 x_axis)) [] = [vneg x_axis].
Proof.
  unfold next_dirs.
  replace (vneg (vscale 0.5 x_axis)) with (vscale (-0.5) x_axis)
    by (unfold vneg, vscale, x_axis; simpl; f_equal; lra).
  rewrite normalize_vscale_x_axis by lra.
  assert (Rltb (-0.5) 0 = true) as -> by (apply Rltb_true; lra). reflexivity.
Qed.

Lemma follow_steps_O {World Image : Type} (ext : External World Image)
  (f : Filter World Image) (front : bool) (pos : Point) (dir : vec3)
  (last_dirs : list vec3) (sl : Streamline) (s : World * RunState) :
  follow_steps ext f 0 front pos dir last_dirs sl s = (sl, s).
Proof. reflexivity. Qed.

Arguments Rltb : simpl never.
Arguments Rleb : simpl never.
Arguments Rgtb : simpl never.
Arguments Rgeb : simpl never.
Arguments magnitude : simpl never.
Arguments normalize : simpl never.
Arguments along_x : simpl never.

(** On the line every estimation returns the handler's proposal. *)
Lemma line_GetNewDirection (pos : Point) (olddirs : list vec3) (idx : Index) :
  GetNewDirection plain_ext line_filter pos olddirs idx tt
  = (along_x olddirs, tt).
Proof.
  destruct (normalize_along_x olddirs) as [N Mg].
  unfold GetNewDirection, InsideMask. cbn.
  unfold everywhere, nowhere. rewrite Rgeb_1_half, Rgeb_0_half. cbn.
  assert (V : collect_votes plain_ext line_filter pos olddirs idx
                (along_x olddirs) tt
              = (mkVotes (along_x olddirs) 0 0 1, tt)).
  { unfold collect_votes. destruct olddirs; reflexivity. }
  unfold bind, ret. rewrite V. unfold blend_prior. cbn.
  unfold voted_direction, votes_valid. cbn.
  rewrite Mg.
  assert (Rgtb 1 0.001 = true) as -> by (apply Rgtb_true; lra).
  cbn. rewrite N. reflexivity.
Qed.

(** One round of the loop of [FollowStreamline] on the line, below the
    maximal tract length. *)
Lemma line_step (steps : nat) (front : bool) (pos : Point) (dir : vec3)
  (last_dirs : list vec3) (sl : Streamline) (rs : RunState) :
  sl_tractLength sl + 1 <= 400 ->
  follow_steps plain_ext line_filter (S steps) front pos dir last_dirs sl (tt, rs)
  = follow_steps plain_ext line_filter steps front
      (CalculateNewPosition line_filter pos dir)
      (along_x (next_dirs dir last_dirs)) (next_dirs dir last_dirs)
      (advance line_filter front (CalculateNewPosition line_filter pos dir) dir sl)
      (tt, rs).
Proof.
  intros H. cbn [follow_steps].
  assert (InExclusion plain_ext line_filter
            (CalculateNewPosition line_filter pos dir) = false) as ->
    by reflexivity.
  unfold bind, liftW, ret, modify_run.
  cbn -[follow_steps CalculateNewPosition CheckCurvature].
  assert (Rgeb (-1) 0 = false) as -> by (apply Rleb_false; lra).
  cbn -[follow_steps CalculateNewPosition CheckCurvature].
  assert (Rgtb (sl_tractLength sl + 1) 400 = false) as ->
    by (apply Rgtb_false; lra).
  cbn -[follow_steps CalculateNewPosition CheckCurvature GetNewDirection
        Z.of_nat Z.ltb].
  rewrite line_GetNewDirection.
  destruct (normalize_along_x (next_dirs dir last_dirs)) as [_ Mg].
  fold (next_dirs dir last_dirs). rewrite Mg.
  assert (Rltb 1 0.0001 = false) as -> by (apply Rltb_false; lra).
  reflexivity.
Qed.

(** The trial at the origin: two points to either side of the seed. *)
Lemma line_track_seed :
  exists container,
    track_seed plain_ext line_filter origin (tt, initial_run)
    = (Some (mkStreamline [backward_2; backward_1; origin; forward_1; forward_2]
               container (0 + 1 + 1 + 1 + 1) false),
       (tt, initial_run)).
Proof.
  unfold track_seed. rewrite line_GetNewDirection, along_x_start.
  assert (Rgtb (magnitude (vscale 0.5 x_axis)) 0.0001 = true) as ->.
  { apply Rgtb_true. rewrite magnitude_vscale, magnitude_x_axis, Rabs_right; lra. }
  assert (InExclusion plain_ext line_filter origin = false) as -> by reflexivity.
  cbn [andb negb fst snd].
  unfold FollowStreamline.
  change (Z.to_nat (Z.quot (m_MaxLength line_filter) 2)) with 2%nat.
  change (repeat zero_dir
            (Z.to_nat (to_unsigned (m_NumPreviousDirections line_filter - 1))))
    with (@nil vec3).
  rewrite line_step by (simpl; lra).
  rewrite half_x_dirs, along_x_forward.
  rewrite line_step by (simpl; lra).
  rewrite follow_steps_O.
  cbn [sl_exclude advance negb sl_fib sl_container sl_tractLength push_front
       push_back app].
  rewrite line_step by (simpl; lra).
  rewrite neg_half_x_dirs, along_x_backward.
  rewrite line_step by (simpl; lra).
  rewrite follow_steps_O.
  cbn [sl_exclude advance negb sl_fib sl_container sl_tractLength push_front
       push_back app].
  eexists. reflexivity.
Qed.

(** On the line the seed point, third of five points, and the point after
    it are half a step apart although the step size is 1: a pair of
    consecutive points, not the last one, whose distance differs from
    the step size by more than 1e-4. *)
Lemma seed_neighbour_half_step :
  exists sl s',
    track_seed plain_ext line_filter origin (tt, initial_run) = (Some sl, s')
    /\ length (sl_fib sl) = 5%nat
    /\ nth 2 (sl_fib sl) origin = origin
    /\ m_StepSize line_filter = 1
    /\ distance (nth 2 (sl_fib sl) origin) (nth 3 (sl_fib sl) origin) = 0.5
    /\ Rabs (distance (nth 2 (sl_fib sl) origin) (nth 3 (sl_fib sl) origin)
             - m_StepSize line_filter) > 1e-4.
Proof.
  destruct line_track_seed as [container E].
  eexists. eexists. split; [exact E|]. cbn [sl_fib length nth].
  assert (D : distance origin forward_1 = 0.5).
  { unfold forward_1. rewrite distance_CalculateNewPosition.
    rewrite magnitude_vscale, magnitude_x_axis.
    change (m_StepSize line_filter) with 1.
    rewrite Rabs_R1, Rabs_right; lra. }
  repeat split; try reflexivity; try exact D.
  rewrite D. change (m_StepSize line_filter) with 1.
  rewrite Rabs_left; lra.
Qed.

(** The theorems on streamlines at the trial on the line. *)
Lemma streamline_step_lengths_witness :
  exists backward forward,
    [backward_2; backward_1; origin; forward_1; forward_2]
    = rev backward ++ origin :: forward
    /\ gaps (origin :: forward) = side_gaps 1 (length forward)
    /\ gaps (origin :: backward) = side_gaps 1 (length backward).
Proof.
  destruct line_track_seed as [container E].
  assert (T := streamline_step_lengths plain_ext line_filter origin
                 (tt, initial_run)).
  rewrite E in T. exact T.
Defined.

Lemma points_exceed_directions_by_one_witness :
  exists sl,
    fst (track_seed plain_ext line_filter origin (tt, initial_run)) = Some sl
    /\ length (sl_fib sl) = 5%nat
    /\ length (sl_container sl) = 4%nat.
Proof.
  destruct line_track_seed as [container E].
  assert (T := proj2 (proj2 (points_exceed_directions_by_one plain_ext
                               line_filter origin)) (tt, initial_run)).
  rewrite E in T. simpl in T.
  eexists. split; [rewrite E; reflexivity|]. split; [reflexivity|].
  simpl. injection T as T. symmetry. exact T.
Defined.

(** ** Trials on the line with a turn or an exclusion mask *)

(** A handler whose proposal is [field pos olddirs]; the rest as
    [x_handler]. *)
Definition field_handler (field : Point -> list vec3 -> vec3)
  : TrackingDataHandler unit :=
  mkHandler
    (fun pos olddirs _ => ret (field pos olddirs))
    (fun lo _ => ret lo)
    (fun _ => zeroIndex)
    DETERMINISTIC
    (mkVec 1 1 1)
    (fun _ w => w)
    (fun w => w)
    (fun _ w => w).

(** The settings of the line with that handler, an exclusion image and
    the choice of the output. *)
Definition field_settings (field : Point -> list vec3 -> vec3)
  (exclusion : option PlainImage) (probmap : bool) : Filter unit PlainImage :=
  SetExclusionRegions exclusion
    (SetUseOutputProbabilityMap probmap
       (SetMaxLength 4
          (SetNumberOfSamples 0
             (SetStepSizeVox 1
                (SetMinTractLength 0
                   (StreamlineTrackingFilter (field_handler field))))))).

(** The members [BeforeTracking] derives from them. *)
Definition field_filter (field : Point -> list vec3 -> vec3)
  (exclusion : option PlainImage) (probmap : bool) : Filter unit PlainImage :=
  mkFilter (field_handler field) None
    (Some nowhere) (Some everywhere) (Some everywhere) (Some everywhere) exclusion
    (Some everywhere) (Some nowhere) (Some everywhere) None exclusion
    false false 1 (-1) 1 (-1) (cos (0.5 * PI * 0.966)) 1 4%Z 0 400 1%Z true false
    0.25 1 true true 0%Z 1%Z (-1)%Z (-1) false true probmap true 10%Z NONE
    true true 1 [].

Lemma field_filter_prepared (field : Point -> list vec3 -> vec3)
  (exclusion : option PlainImage) (probmap : bool) :
  prepare_members plain_ext (field_settings field exclusion probmap)
  = field_filter field exclusion probmap.
Proof.
  unfold prepare_members, field_settings, field_filter.
  cbn -[Rltb Rleb cos PI].
  rewrite !Rltb_irrefl. cbn -[Rltb Rleb cos PI].
  assert (Rltb 1 (1 / 4503599627370496) = false) as -> by (apply Rltb_false; lra).
  assert (Rltb (-1) 0 = true) as -> by (apply Rltb_true; lra).
  assert (Rltb (-1) (1 / 4503599627370496) = true) as -> by (apply Rltb_true; lra).
  assert (Rleb (1 * 1 / 1) 0.966 = false) as -> by (apply Rleb_false; lra).
  unfold everywhere, nowhere.
  replace (1 * 1) with 1 by lra. replace (1 * 0.25) with 0.25 by lra.
  reflexivity.
Qed.

Section FieldSteps.

Variable field : Point -> list vec3 -> vec3.
Variable exclusion : option PlainImage.
Variable probmap : bool.

Hypothesis field_unit :
  forall pos olddirs,
    normalize (field pos olddirs) = field pos olddirs
    /\ magnitude (field pos olddirs) = 1.

(** Every estimation returns the proposal of the handler. *)
Lemma field_GetNewDirection (pos : Point) (olddirs : list vec3) (idx : Index) :
  GetNewDirection plain_ext (field_filter field exclusion probmap) pos olddirs
    idx tt
  = (field pos olddirs, tt).
Proof.
  destruct (field_unit pos olddirs) as [N Mg].
  unfold GetNewDirection, InsideMask. cbn.
  unfold everywhere, nowhere. rewrite Rgeb_1_half, Rgeb_0_half. cbn.
  assert (V : collect_votes plain_ext (field_filter field exclusion probmap) pos
                olddirs idx (field pos olddirs) tt
              = (mkVotes (field pos olddirs) 0 0 1, tt)).
  { unfold collect_votes. destruct olddirs; reflexivity. }
  unfold bind, ret. rewrite V. unfold blend_prior. cbn.
  unfold voted_direction, votes_valid. cbn.
  rewrite Mg.
  assert (Rgtb 1 0.001 = true) as -> by (apply Rgtb_true; lra).
  cbn. rewrite N. reflexivity.
Qed.


End FieldSteps.

Section FieldStepsLog.

Variable field : Point -> list vec3 -> vec3.
Variable exclusion : option PlainImage.
Variable probmap : bool.

Hypothesis field_unit :
  forall pos olddirs,
    normalize (field pos olddirs) = field pos olddirs
    /\ magnitude (field pos olddirs) = 1.

(** The same round with the log. *)
Lemma field_step_log (steps : nat) (front : bool) (pos : Point) (dir : vec3)
  (last_dirs : list vec3) (sl : Streamline) (rs : RunState) :
  InExclusion plain_ext (field_filter field exclusion probmap)
    (CalculateNewPosition (field_filter field exclusion probmap) pos dir) = false ->
  sl_tractLength sl + 1 <= 400 ->
  follow_steps_log plain_ext (field_filter field exclusion probmap) (S steps)
    front pos dir last_dirs sl (tt, rs)
  = let r :=
      follow_steps_log plain_ext (field_filter field exclusion probmap) steps
        front
        (CalculateNewPosition (field_filter field exclusion probmap) pos dir)
        (field (CalculateNewPosition (field_filter field exclusion probmap) pos
                  dir)
           (next_dirs dir last_dirs))
        (next_dirs dir last_dirs)
        (advance (field_filter field exclusion probmap) front
           (CalculateNewPosition (field_filter field exclusion probmap) pos dir)
           dir sl)
        (tt, rs) in
    ((fst (fst r),
      CalculateNewPosition (field_filter field exclusion probmap) pos dir
      :: snd (fst r)),
     snd r).
Proof.
  intros Ex H. cbn [follow_steps_log]. rewrite Ex.
  unfold bind, liftW, ret, modify_run.
  cbn -[follow_steps_log CalculateNewPosition CheckCurvature].
  assert (Rgeb (-1) 0 = false) as -> by (apply Rleb_false; lra).
  cbn -[follow_steps_log CalculateNewPosition CheckCurvature].
  assert (Rgtb (sl_tractLength sl + 1) 400 = false) as ->
    by (apply Rgtb_false; lra).
  cbn -[follow_steps_log CalculateNewPosition CheckCurvature GetNewDirection
        Z.of_nat Z.ltb].
  rewrite (@field_GetNewDirection field exclusion probmap field_unit).
  destruct (field_unit (CalculateNewPosition (field_filter field exclusion probmap)
                          pos dir) (next_dirs dir last_dirs)) as [_ Mg].
  fold (next_dirs dir last_dirs). rewrite Mg.
  assert (Rltb 1 0.0001 = false) as -> by (apply Rltb_false; lra).
  unfold advance.
  destruct (follow_steps_log _ _ _ _ _ _ _ _ _) as [[r log] s3]. reflexivity.
Qed.

End FieldStepsLog.

(** *** A pass that steps onto the exclusion mask *)

(** The half space [x >= 1.5] as a mask. *)
Definition beyond : PlainImage := fun p => vx p - 1.

(** The direction field of [x_handler]. *)
Definition straight (pos : Point) (olddirs : list vec3) : vec3 := along_x olddirs.

Lemma straight_unit (pos : Point) (olddirs : list vec3) :
  normalize (straight pos olddirs) = straight pos olddirs
  /\ magnitude (straight pos olddirs) = 1.
Proof. apply normalize_along_x. Qed.

(** The line with the exclusion mask [beyond]. *)
Definition masked_filter : Filter unit PlainImage :=
  field_filter straight (Some beyond) false.

Lemma masked_forward_1 : InExclusion plain_ext masked_filter forward_1 = false.
Proof.
  unfold InExclusion, InsideMask. cbn. unfold beyond. cbn.
  apply Rleb_false. lra.
Qed.

Lemma masked_forward_2 : InExclusion plain_ext masked_filter forward_2 = true.
Proof.
  unfold InExclusion, InsideMask. cbn. unfold beyond. cbn.
  apply Rleb_true. lra.
Qed.

Lemma masked_origin : InExclusion plain_ext masked_filter origin = false.
Proof.
  unfold InExclusion, InsideMask. cbn. unfold beyond. cbn.
  apply Rleb_false. lra.
Qed.

Lemma straight_eq (pos : Point) (olddirs : list vec3) :
  straight pos olddirs = along_x olddirs.
Proof. reflexivity. Qed.

(** The trial at the origin: the forward pass adds [forward_1] and steps
    onto the mask at [forward_2]; the backward pass is not run. *)
Lemma masked_track_seed_log :
  exists container,
    track_seed_log plain_ext masked_filter origin (tt, initial_run)
    = ((Some (mkStreamline [origin; forward_1] container (0 + 1) true),
        ([forward_1; forward_2], [])),
       (tt, initial_run)).
Proof.
  unfold track_seed_log.
  unfold masked_filter at 1.
  rewrite (@field_GetNewDirection straight (Some beyond) false straight_unit).
  rewrite !straight_eq, along_x_start.
  assert (Rgtb (magnitude (vscale 0.5 x_axis)) 0.0001 = true) as ->.
  { apply Rgtb_true. rewrite magnitude_vscale, magnitude_x_axis, Rabs_right; lra. }
  rewrite masked_origin.
  cbn [andb negb fst snd].
  unfold FollowStreamline_log.
  change (Z.to_nat (Z.quot (m_MaxLength masked_filter) 2)) with 2%nat.
  change (repeat zero_dir
            (Z.to_nat (to_unsigned (m_NumPreviousDirections masked_filter - 1))))
    with (@nil vec3).
  unfold masked_filter at 1.
  rewrite (@field_step_log straight (Some beyond) false straight_unit)
    by (first [exact masked_forward_1 | simpl; lra]).
  rewrite half_x_dirs, !straight_eq, along_x_forward.
  fold masked_filter.
  change (CalculateNewPosition masked_filter origin (vscale 0.5 x_axis))
    with forward_1.
  assert (E : InExclusion plain_ext masked_filter
                (CalculateNewPosition masked_filter forward_1 x_axis) = true)
    by exact masked_forward_2.
  cbn [follow_steps_log]. rewrite E. unfold ret.
  cbn [fst snd sl_exclude advance negb sl_fib sl_container sl_tractLength
       push_front push_back app].
  eexists. reflexivity.
Qed.

(** The theorem at that trial: the seed is outside the mask, the forward
    pass adds [forward_1] and steps onto the mask at [forward_2], and the
    segment from the seed to [forward_1], long enough to be a candidate,
    is not kept. *)
Lemma excluded_fiber_never_accepted_witness :
  m_BuildFibersReady (snd (tt, initial_run)) = 0%Z
  /\ InExclusion plain_ext masked_filter origin = false
  /\ forward_positions plain_ext masked_filter origin (tt, initial_run)
     = [forward_1; forward_2]
  /\ InExclusion plain_ext masked_filter forward_2 = true
  /\ (exists sl,
        fst (track_seed plain_ext masked_filter origin (tt, initial_run)) = Some sl
        /\ sl_fib sl = [origin; forward_1])
  /\ exists s',
       trial plain_ext masked_filter origin (tt, initial_run) = Ok (false, s')
       /\ same_outputs initial_run (snd s')
       /\ (forall sl,
             fst (track_seed plain_ext masked_filter origin (tt, initial_run))
             = Some sl ->
             sl_exclude sl = true).
Proof.
  destruct masked_track_seed_log as [container E].
  assert (F : forward_positions plain_ext masked_filter origin (tt, initial_run)
              = [forward_1; forward_2]).
  { unfold forward_positions. rewrite E. reflexivity. }
  split; [reflexivity|]. split; [exact masked_origin|].
  split; [exact F|]. split; [exact masked_forward_2|].
  split.
  { rewrite <- track_seed_log_erase, E. eexists. split; reflexivity. }
  apply (@excluded_fiber_never_accepted _ _ plain_ext masked_filter origin
           (tt, initial_run) eq_refl).
  right. left. rewrite F. unfold enters_exclusion. cbn [existsb].
  rewrite masked_forward_1, masked_forward_2. reflexivity.
Defined.

(** *** A fibre that comes back to a voxel *)















(** ** The vote on the new direction *)

Section Vote.

Context {World Image : Type}.
Variable ext : External World Image.
Variable f : Filter World Image.

(** A possible stop voter, in the words of the specification: stop votes
    are enabled and the probe's dot product with the previous direction
    exceeds 0.7. *)
Definition possible_stop_voter (olddir probeVec : vec3) : bool :=
  m_UseStopVotes f && Rgtb (dot_product probeVec olddir) 0.7.

(** The probes of an estimation: none without a previous direction. *)
Definition probes (olddirs : list vec3) : list vec3 :=
  match olddirs with
  | [] => []
  | _ => CreateDirections (m_NumberOfSamples f)
  end.

Definition random_sampling : bool := m_Random f && m_RandomSampling f.

Definition voters (olddir probeVec : vec3) : Z :=
  if negb random_sampling && possible_stop_voter olddir probeVec then 1%Z else 0%Z.

(** One probe raises the count of possible stop voters by one exactly when
    it is one and sampling is not random; it adds at most that to the stop
    votes. *)
Lemma probe_sample_votes (pos : Point) (olddirs : list vec3) (oldIndex : Index)
  (olddir : vec3) (v : Votes) (probeVec : vec3) (w : World) :
  let v' := fst (probe_sample ext f pos olddirs oldIndex olddir v probeVec w) in
  possible_stop_votes v' = (possible_stop_votes v + voters olddir probeVec)%Z
  /\ (stop_votes v <= stop_votes v'
      <= stop_votes v + voters olddir probeVec)%Z.
Proof.
  unfold probe_sample, probe_offset, voters, random_sampling, possible_stop_voter,
    bind, ret.
  destruct (m_Random f && m_RandomSampling f); simpl.
  - repeat match goal with
           | |- context [GetRandDouble ?h ?a ?b ?w0] =>
             destruct (GetRandDouble h a b w0)
           end.
    destruct (sample_direction _ _ _ _ _ _) as [t1 ?].
    destruct (Rgtb (magnitude t1) (mitk_eps ext)); simpl; [lia|].
    destruct (m_AvoidStop f && _); simpl; [|lia].
    destruct (sample_direction _ _ _ _ _ _) as [t2 ?].
    destruct (Rgtb (magnitude t2) (mitk_eps ext)); simpl; lia.
  - destruct (m_UseStopVotes f && Rgtb (dot_product probeVec olddir) 0.7); simpl.
    + destruct (sample_direction _ _ _ _ _ _) as [t1 ?].
      destruct (Rgtb (magnitude t1) (mitk_eps ext)); simpl; [lia|].
      destruct (m_AvoidStop f && _); simpl; [|lia].
      destruct (sample_direction _ _ _ _ _ _) as [t2 ?].
      destruct (Rgtb (magnitude t2) (mitk_eps ext)); simpl; lia.
    + destruct (m_OnlyForwardSamples f && _); simpl; [lia|].
      destruct (sample_direction _ _ _ _ _ _) as [t1 ?].
      destruct (Rgtb (magnitude t1) (mitk_eps ext)); simpl; [lia|].
      destruct (m_AvoidStop f && _); simpl; [|lia].
      destruct (sample_direction _ _ _ _ _ _) as [t2 ?].
      destruct (Rgtb (magnitude t2) (mitk_eps ext)); simpl; lia.
Qed.

Definition count_voters (olddir : vec3) (l : list vec3) : Z :=
  fold_right (fun p n => (voters olddir p + n)%Z) 0%Z l.

Lemma probe_loop_votes (pos : Point) (olddirs : list vec3) (oldIndex : Index)
  (olddir : vec3) (l : list vec3) (v : Votes) (w : World) :
  let v' := fst (foldM (probe_sample ext f pos olddirs oldIndex olddir) l v w) in
  possible_stop_votes v' = (possible_stop_votes v + count_voters olddir l)%Z
  /\ (stop_votes v <= stop_votes v'
      <= stop_votes v + count_voters olddir l)%Z.
Proof.
  revert v w. induction l as [|p l IH]; intros v w; simpl.
  - lia.
  - unfold bind.
    assert (P := probe_sample_votes pos olddirs oldIndex olddir v p w).
    destruct (probe_sample ext f pos olddirs oldIndex olddir v p w) as [v1 w1].
    simpl in P. specialize (IH v1 w1). simpl in IH. lia.
Qed.

Lemma count_voters_filter (olddir : vec3) (l : list vec3) :
  count_voters olddir l
  = if random_sampling then 0%Z
    else Z.of_nat (length (filter (possible_stop_voter olddir) l)).
Proof.
  induction l as [|p l IH]; simpl.
  - destruct random_sampling; reflexivity.
  - rewrite IH. unfold voters. destruct random_sampling; simpl; [reflexivity|].
    destruct (possible_stop_voter olddir p); simpl length; lia.
Qed.

Lemma votes_valid_iff (v : Votes) :
  votes_valid v = true
  <-> 0.001 < magnitude (direction v)
      /\ (possible_stop_votes v = 0%Z
          \/ IZR (stop_votes v) / IZR (possible_stop_votes v) < 0.5).
Proof.
  unfold votes_valid.
  rewrite andb_true_iff, orb_true_iff, Rgtb_true, Rltb_true, Z.eqb_eq.
  reflexivity.
Qed.

(** C3, as the code has it.  At a position inside the tracking mask and
    outside the stopping mask, let [v] be the votes after the loop over
    the probes.  Unless sampling is random, the possible stop voters are
    counted as the probes for which stop votes are enabled and whose dot
    product with the previous direction exceeds 0.7; with random sampling
    no probe is one.  The stop votes are among them.  The accumulated
    direction is valid exactly when its magnitude exceeds 0.001 and there
    is no possible stop voter or the share of stop votes is below 0.5;
    when valid it is normalised, to magnitude 1, and otherwise it is set
    to the zero vector; and that direction is the one returned when no
    prior handler is set. *)
Theorem GetNewDirection_vote (pos : Point) (olddirs : list vec3)
  (oldIndex : Index) (w : World) :
  InsideMask ext f pos (m_MaskInterpolator f) = true ->
  InsideMask ext f pos (m_StopInterpolator f) = false ->
  exists v w',
    (let (proposal, w1) :=
       ProposeDirection (m_TrackingHandler f) pos olddirs oldIndex w in
     collect_votes ext f pos olddirs oldIndex proposal w1) = (v, w')
    /\ possible_stop_votes v
       = (if random_sampling then 0%Z
          else Z.of_nat
                 (length (filter (possible_stop_voter (last olddirs zero_dir))
                            (probes olddirs))))
    /\ (0 <= stop_votes v <= possible_stop_votes v)%Z
    /\ (votes_valid v = true
        <-> 0.001 < magnitude (direction v)
            /\ (possible_stop_votes v = 0%Z
                \/ IZR (stop_votes v) / IZR (possible_stop_votes v) < 0.5))
    /\ (votes_valid v = true ->
        voted_direction v = normalize (direction v)
        /\ magnitude (voted_direction v) = 1)
    /\ (votes_valid v = false -> voted_direction v = fill 0)
    /\ (m_TrackingPriorHandler f = None ->
        GetNewDirection ext f pos olddirs oldIndex w = (voted_direction v, w')).
Proof.
  intros Hmask Hstop.
  destruct (ProposeDirection (m_TrackingHandler f) pos olddirs oldIndex w)
    as [proposal w1] eqn:Ep.
  destruct (collect_votes ext f pos olddirs oldIndex proposal w1) as [v w'] eqn:Ev.
  exists v, w'. split; [reflexivity|].
  assert (C : possible_stop_votes v
              = count_voters (last olddirs zero_dir) (probes olddirs)
              /\ (0 <= stop_votes v
                  <= count_voters (last olddirs zero_dir) (probes olddirs))%Z).
  { unfold collect_votes in Ev. unfold probes. destruct olddirs as [|d olddirs'].
    - inversion Ev; subst; simpl. lia.
    - assert (L := probe_loop_votes pos (d :: olddirs') oldIndex
                     (last (d :: olddirs') zero_dir)
                     (CreateDirections (m_NumberOfSamples f))
                     (mkVotes proposal 0 0 1) w1).
      rewrite Ev in L. simpl in L. simpl. lia. }
  destruct C as [Cp Cs]. rewrite <- count_voters_filter.
  split; [exact Cp|]. split; [lia|]. split; [apply votes_valid_iff|].
  split; [|split].
  - intros Hv. unfold voted_direction. rewrite Hv. split; [reflexivity|].
    apply magnitude_normalize. apply votes_valid_iff in Hv. lra.
  - intros Hv. unfold voted_direction. rewrite Hv. reflexivity.
  - intros Hp. unfold GetNewDirection. rewrite Hmask, Hstop. cbn [andb negb].
    unfold bind. rewrite Ep, Ev. unfold blend_prior. rewrite Hp. reflexivity.
Qed.

End Vote.

(** A filter with a directional prior along the x axis, on a handler that
    proposes no direction. *)
Definition prior_filter : Filter unit PlainImage :=
  tracking_filter (constant_handler zero_dir DETERMINISTIC) (Some x_handler) (-1).

Definition no_votes : Votes := mkVotes zero_dir 0 0 1.

(** With the prior handler set and the default settings of the prior, an
    invalid result of the vote is not what [GetNewDirection] returns: the
    handler proposes nothing, the vote gives the zero vector, and the
    direction returned is the prior's, not the zero vector. *)
Lemma prior_replaces_zero_direction :
  InsideMask plain_ext prior_filter origin (m_MaskInterpolator prior_filter) = true
  /\ InsideMask plain_ext prior_filter origin (m_StopInterpolator prior_filter)
     = false
  /\ collect_votes plain_ext prior_filter origin [] zeroIndex zero_dir tt
     = (no_votes, tt)
  /\ votes_valid no_votes = false
  /\ GetNewDirection plain_ext prior_filter origin [] zeroIndex tt = (x_axis, tt)
  /\ x_axis <> fill 0.
Proof.
  assert (Hm : InsideMask plain_ext prior_filter origin
                 (m_MaskInterpolator prior_filter) = true).
  { unfold InsideMask; cbn. unfold everywhere. apply Rgeb_1_half. }
  assert (Hs : InsideMask plain_ext prior_filter origin
                 (m_StopInterpolator prior_filter) = false).
  { unfold InsideMask; cbn. unfold nowhere. apply Rgeb_0_half. }
  assert (Hv : votes_valid no_votes = false).
  { unfold votes_valid, no_votes; cbn [direction]. rewrite magnitude_zero_dir.
    assert (Rgtb 0 0.001 = false) as -> by (apply Rgtb_false; lra). reflexivity. }
  repeat split; try assumption; try reflexivity.
  - unfold GetNewDirection. rewrite Hm, Hs. cbn [andb negb].
    unfold bind. cbn [ProposeDirection m_TrackingHandler prior_filter
                      tracking_filter constant_handler ret collect_votes].
    fold no_votes. unfold voted_direction. rewrite Hv.
    unfold blend_prior.
    cbn [m_TrackingPriorHandler prior_filter tracking_filter
         m_IntroduceDirectionsFromPrior orb ProposeDirection x_handler bind ret
         m_TrackingPriorWeight].
    rewrite along_x_start, magnitude_x_axis.
    assert (Rgtb 1 0.001 = true) as -> by (apply Rgtb_true; lra).
    rewrite !normalize_x_axis.
    assert (Rltb (dot_product x_axis (fill 0)) 0 = false) as ->.
    { apply Rltb_false. unfold dot_product, x_axis, fill; simpl. lra. }
    replace (vadd (vscale (1 - 1) (fill 0)) (vscale 1 x_axis)) with x_axis
      by (unfold vadd, vscale, x_axis, fill; simpl; f_equal; lra).
    rewrite normalize_x_axis. reflexivity.
  - intros E. apply (f_equal vx) in E. simpl in E. lra.
Qed.

(** The theorem at the seed of the run along the line. *)
Lemma GetNewDirection_vote_witness :
  InsideMask plain_ext line_filter origin (m_MaskInterpolator line_filter) = true
  /\ InsideMask plain_ext line_filter origin (m_StopInterpolator line_filter)
     = false
  /\ exists v w',
       possible_stop_votes v = 0%Z
       /\ GetNewDirection plain_ext line_filter origin [] zeroIndex tt
          = (voted_direction v, w').
Proof.
  assert (Hm : InsideMask plain_ext line_filter origin
                 (m_MaskInterpolator line_filter) = true).
  { unfold InsideMask; cbn. unfold everywhere. apply Rgeb_1_half. }
  assert (Hs : InsideMask plain_ext line_filter origin
                 (m_StopInterpolator line_filter) = false).
  { unfold InsideMask; cbn. unfold nowhere. apply Rgeb_0_half. }
  split; [exact Hm|]. split; [exact Hs|].
  destruct (GetNewDirection_vote plain_ext line_filter origin [] zeroIndex tt
              Hm Hs) as (v & w' & _ & Hp & _ & _ & _ & _ & Hr).
  exists v, w'. split; [exact Hp | exact (Hr eq_refl)].
Defined.

(** ** The limit at work *)

(** A limit of one fibre. *)
Definition limit_filter : Filter unit PlainImage := tracking_filter x_handler None 1.

(** The run state after the fibre from the seed to the first forward point
    has been accepted. *)
Definition after_one : RunState :=
  check_limit limit_filter
    (keep_fiber plain_ext limit_filter [origin; forward_1] initial_run).

Lemma accepted_count_within_limit_witness :
  (0 < m_MaxNumTracts limit_filter < 2 ^ 31)%Z
  /\ started initial_run
  /\ reaches plain_ext limit_filter initial_run after_one
  /\ m_CurrentTracts after_one = m_MaxNumTracts limit_filter
  /\ m_StopTracking after_one = true
  /\ forall fib success rs',
       accept_fiber plain_ext limit_filter fib after_one = Ok (success, rs') ->
       success = false /\ same_outputs after_one rs'.
Proof.
  assert (Hm : (0 < m_MaxNumTracts limit_filter < 2 ^ 31)%Z).
  { split; reflexivity. }
  assert (H0 : started initial_run).
  { repeat split. }
  assert (Hr : reaches plain_ext limit_filter initial_run after_one).
  { eapply reaches_step; [apply reaches_start|].
    apply (@cs_accept _ _ plain_ext limit_filter initial_run after_one
             [origin; forward_1] true).
    reflexivity. }
  destruct (accepted_count_within_limit Hm H0 Hr)
    as (_ & _ & Hstop & Hskip).
  split; [exact Hm|]. split; [exact H0|]. split; [exact Hr|].
  split; [reflexivity|]. split; [apply Hstop; reflexivity|].
  apply Hskip. apply Hstop. reflexivity.
Defined.

(** * Further properties of the code *)

(** ** How the endpoint constraints relate *)

Section ConstraintRelations.

Context {World Image : Type}.
Variable ext : External World Image.
Variable f : Filter World Image.

(** The result of [IsValidFiber] when the filter is given the constraint
    [c]. *)
Definition valid_under (c : EndpointConstraints) (fib : FiberType) : Result bool :=
  IsValidFiber ext (SetEndpointConstraint c f) fib.

Lemma valid_under_target (fib : FiberType) :
  m_TargetImageSet f = true ->
  valid_under EPS_IN_TARGET fib
  = Ok (InTarget ext f (front fib) && InTarget ext f (back fib))
  /\ valid_under MIN_ONE_EP_IN_TARGET fib
     = Ok (InTarget ext f (front fib) || InTarget ext f (back fib))
  /\ valid_under NO_EP_IN_TARGET fib
     = Ok (negb (InTarget ext f (front fib) || InTarget ext f (back fib)))
  /\ valid_under ONE_EP_IN_TARGET fib
     = Ok (InTarget ext f (front fib) && negb (InTarget ext f (back fib))).
Proof.
  intros Ht. unfold valid_under, IsValidFiber.
  cbn [m_EndpointConstraint m_TargetImageSet SetEndpointConstraint].
  rewrite Ht.
  change (InTarget ext (SetEndpointConstraint EPS_IN_TARGET f))
    with (InTarget ext f).
  change (InTarget ext (SetEndpointConstraint MIN_ONE_EP_IN_TARGET f))
    with (InTarget ext f).
  change (InTarget ext (SetEndpointConstraint NO_EP_IN_TARGET f))
    with (InTarget ext f).
  change (InTarget ext (SetEndpointConstraint ONE_EP_IN_TARGET f))
    with (InTarget ext f).
  destruct (InTarget ext f (front fib)), (InTarget ext f (back fib));
    repeat split; reflexivity.
Qed.

(** X1.  With a target image set: [NO_EP_IN_TARGET] accepts exactly the
    fibres [MIN_ONE_EP_IN_TARGET] rejects; a fibre valid under
    [EPS_IN_TARGET] or under [ONE_EP_IN_TARGET] is valid under
    [MIN_ONE_EP_IN_TARGET]; and no fibre is valid under both
    [EPS_IN_TARGET] and [ONE_EP_IN_TARGET]. *)
Theorem endpoint_constraints_related (fib : FiberType) :
  m_TargetImageSet f = true ->
  (forall b, valid_under NO_EP_IN_TARGET fib = Ok b
             <-> valid_under MIN_ONE_EP_IN_TARGET fib = Ok (negb b))
  /\ (valid_under EPS_IN_TARGET fib = Ok true ->
      valid_under MIN_ONE_EP_IN_TARGET fib = Ok true)
  /\ (valid_under ONE_EP_IN_TARGET fib = Ok true ->
      valid_under MIN_ONE_EP_IN_TARGET fib = Ok true)
  /\ ~ (valid_under EPS_IN_TARGET fib = Ok true
        /\ valid_under ONE_EP_IN_TARGET fib = Ok true).
Proof.
  intros Ht. destruct (valid_under_target fib Ht) as (E1 & E2 & E3 & E4).
  rewrite E1, E2, E3, E4.
  destruct (InTarget ext f (front fib)), (InTarget ext f (back fib)); simpl;
    (split; [intros [|]; simpl; split; intros H; congruence|]);
    (split; [intros H; congruence|]);
    (split; [intros H; congruence|]);
    intros [H1 H2]; congruence.
Qed.

End ConstraintRelations.

Lemma endpoint_constraints_related_witness :
  m_TargetImageSet one_ep_filter = true
  /\ (valid_under plain_ext one_ep_filter EPS_IN_TARGET [origin; x_axis] = Ok true ->
      valid_under plain_ext one_ep_filter MIN_ONE_EP_IN_TARGET [origin; x_axis]
      = Ok true).
Proof.
  split; [reflexivity|].
  apply (endpoint_constraints_related plain_ext one_ep_filter [origin; x_axis]
           eq_refl).
Defined.

(** A filter with the target mask [x >= 0.5] and the constraint
    [EPS_IN_TARGET]. *)
Definition eps_in_target_filter : Filter unit PlainImage :=
  SetEndpointConstraint EPS_IN_TARGET one_ep_filter.

Lemma IsValidFiber_rev_witness :
  m_EndpointConstraint eps_in_target_filter <> ONE_EP_IN_TARGET
  /\ IsValidFiber plain_ext eps_in_target_filter (rev [origin; x_axis])
     = IsValidFiber plain_ext eps_in_target_filter [origin; x_axis].
Proof.
  assert (H : m_EndpointConstraint eps_in_target_filter <> ONE_EP_IN_TARGET)
    by discriminate.
  split; [exact H|].
  apply (IsValidFiber_rev plain_ext eps_in_target_filter [origin; x_axis] H).
Defined.

(** ** What a pass adds to a streamline *)

Section Passes.

Context {World Image : Type}.
Variable ext : External World Image.
Variable f : Filter World Image.

(** The fibre or container after the elements [added] were pushed one by
    one, at the front or at the back. *)
Definition pushed {A : Type} (front : bool) (added old : list A) : list A :=
  if front then rev added ++ old else old ++ added.

Lemma pushed_cons {A : Type} (front : bool) (x : A) (added old : list A) :
  pushed front added (if front then push_front x old else push_back x old)
  = pushed front (x :: added) old.
Proof.
  unfold pushed, push_front, push_back. destruct front; simpl.
  - rewrite <- app_assoc. reflexivity.
  - rewrite <- app_assoc. reflexivity.
Qed.

(** The loop of [FollowStreamline] adds at most one point a round, with
    its direction, and one step of length a point; what was there stays. *)
Lemma follow_steps_added (steps : nat) (front : bool) (pos : Point) (dir : vec3)
  (last_dirs : list vec3) (sl : Streamline) (s : World * RunState) :
  let r := fst (follow_steps ext f steps front pos dir last_dirs sl s) in
  exists points dirs,
    sl_fib r = pushed front points (sl_fib sl)
    /\ sl_container r = pushed front dirs (sl_container sl)
    /\ length dirs = length points
    /\ (length points <= steps)%nat
    /\ sl_tractLength r
       = sl_tractLength sl + INR (length points) * m_StepSize f.
Proof.
  revert pos dir last_dirs sl s.
  induction steps as [|steps IH]; intros pos dir last_dirs sl s.
  - exists [], []. simpl. unfold pushed. destruct front; simpl;
      rewrite ?app_nil_r; repeat split; auto; ring.
  - assert (Stay : forall e,
              exists points dirs,
                sl_fib sl = pushed front points (sl_fib sl)
                /\ sl_container sl = pushed front dirs (sl_container sl)
                /\ length dirs = length points
                /\ (length points <= S steps)%nat
                /\ sl_tractLength sl
                   = sl_tractLength sl + INR (length points) * m_StepSize f + e * 0).
    { intros e. exists [], []. unfold pushed. destruct front; simpl;
        rewrite ?app_nil_r; repeat split; auto; try lia; ring. }
    destruct (Stay 0) as (p0 & d0 & S1 & S2 & S3 & S4 & S5).
    rewrite Rmult_0_l, Rplus_0_r in S5.
    cbn [follow_steps].
    destruct (InExclusion ext f (CalculateNewPosition f pos dir)).
    { exists p0, d0. simpl. auto. }
    unfold bind, liftW, ret, modify_run.
    destruct (PollAbort ext (fst s)) as [abort w1].
    destruct abort; [exists p0, d0; simpl; auto|].
    set (pos' := CalculateNewPosition f pos dir).
    assert (One : exists points dirs,
              sl_fib (advance f front pos' dir sl) = pushed front points (sl_fib sl)
              /\ sl_container (advance f front pos' dir sl)
                 = pushed front dirs (sl_container sl)
              /\ length dirs = length points
              /\ (length points <= S steps)%nat
              /\ sl_tractLength (advance f front pos' dir sl)
                 = sl_tractLength sl + INR (length points) * m_StepSize f).
    { exists [pos'], [normalize dir]. unfold advance, pushed, push_front. simpl.
      destruct front; simpl; repeat split; auto; try lia; ring. }
    fold (advance f front pos' dir sl).
    destruct (_ && _); [exact One|].
    destruct (Rgtb _ (m_MaxTractLength f)); [exact One|].
    destruct (m_DemoMode f && negb (m_UseOutputProbabilityMap f)); cbn [fst snd];
      match goal with
      | |- context [GetNewDirection ext f ?p ?l ?i ?w] =>
        destruct (GetNewDirection ext f p l i w) as [dir' w2]
      end;
      (destruct (Rltb (magnitude dir') 0.0001); [exact One|]);
      match goal with
      | |- context [follow_steps ext f steps front ?p ?d ?l ?sl0 ?s0] =>
        destruct (IH p d l sl0 s0) as (points & dirs & E1 & E2 & E3 & E4 & E5)
      end;
      exists (pos' :: points), (normalize dir :: dirs);
      rewrite E1, E2, E5; unfold advance; cbn [sl_fib sl_container sl_tractLength];
      rewrite !pushed_cons; cbn [length]; rewrite S_INR;
      (repeat split; auto; try lia; ring).
Qed.

(** X3.  A pass keeps the points and directions it is given and pushes
    new ones at its end of the fibre, as many directions as points, at
    most [m_MaxLength/2] of them, and the length it returns is the length
    it was given plus one step size for every point added. *)
Theorem FollowStreamline_adds (pos : Point) (dir : vec3) (fib : FiberType)
  (container : DirectionContainer) (tractLength : R) (front exclude : bool)
  (s : World * RunState) :
  let r := fst (FollowStreamline ext f pos dir fib container tractLength front
                  exclude s) in
  exists points dirs,
    sl_fib r = pushed front points fib
    /\ sl_container r = pushed front dirs container
    /\ length dirs = length points
    /\ (Z.of_nat (length points) <= Z.max 0 (Z.quot (m_MaxLength f) 2))%Z
    /\ sl_tractLength r = tractLength + INR (length points) * m_StepSize f.
Proof.
  unfold FollowStreamline.
  match goal with
  | |- context [follow_steps ext f ?n front pos dir ?l ?sl0 s] =>
    destruct (follow_steps_added n front pos dir l sl0 s)
      as (points & dirs & E1 & E2 & E3 & E4 & E5)
  end.
  exists points, dirs. simpl in *. repeat split; auto. lia.
Qed.

(** The two sides of the streamline of a trial. *)
Lemma track_seed_sides (worldPos : Point) (s : World * RunState) (sl : Streamline) :
  fst (track_seed ext f worldPos s) = Some sl ->
  exists backward forward : list Point,
    sl_fib sl = backward ++ worldPos :: forward
    /\ (length backward <= Z.to_nat (Z.quot (m_MaxLength f) 2))%nat
    /\ (length forward <= Z.to_nat (Z.quot (m_MaxLength f) 2))%nat.
Proof.
  unfold track_seed, FollowStreamline.
  destruct (GetNewDirection ext f worldPos [] zeroIndex (fst s)) as [dir0 w].
  destruct (_ && _); [|discriminate].
  match goal with
  | |- context [follow_steps ext f ?n false ?p ?d ?l ?sl0 ?s0] =>
    destruct (follow_steps_added n false p d l sl0 s0)
      as (pf & df & F1 & _ & _ & F4 & _);
    destruct (follow_steps ext f n false p d l sl0 s0) as [fwd s1]
  end.
  simpl in F1, F4. unfold pushed in F1. simpl in F1.
  destruct (negb (sl_exclude fwd)).
  - match goal with
    | |- context [follow_steps ext f ?n true ?p ?d ?l ?sl0 ?s0] =>
      destruct (follow_steps_added n true p d l sl0 s0)
        as (pb & db & B1 & _ & _ & B4 & _);
      destruct (follow_steps ext f n true p d l sl0 s0) as [bwd s2]
    end.
    simpl in B1, B4. unfold pushed, push_front in B1.
    intros E; inversion E; subst sl. exists (rev pb), pf.
    rewrite B1, F1, length_rev. repeat split; auto.
  - intros E; inversion E; subst sl. exists [], pf. simpl.
    rewrite F1. repeat split; auto; lia.
Qed.

(** X4.  The fibre of a trial is the seed point with at most
    [m_MaxLength/2] points before it and at most [m_MaxLength/2] points
    after it: it has at least one and at most [2 * (m_MaxLength/2) + 1]
    points. *)
Theorem trial_point_count (worldPos : Point) (s : World * RunState) :
  match fst (track_seed ext f worldPos s) with
  | Some sl =>
    (exists backward forward : list Point,
       sl_fib sl = backward ++ worldPos :: forward
       /\ (length backward <= Z.to_nat (Z.quot (m_MaxLength f) 2))%nat
       /\ (length forward <= Z.to_nat (Z.quot (m_MaxLength f) 2))%nat)
    /\ (1 <= length (sl_fib sl) <= 2 * Z.to_nat (Z.quot (m_MaxLength f) 2) + 1)%nat
  | None => True
  end.
Proof.
  destruct (fst (track_seed ext f worldPos s)) as [sl|] eqn:E; [|exact Logic.I].
  destruct (@track_seed_sides worldPos s sl E) as (pb & pf & L & Hb & Hf).
  split; [exists pb, pf; auto|].
  rewrite L, length_app. simpl. lia.
Qed.

(** Once the abort flag reads as set, a pass returns at its first round. *)
Lemma follow_steps_aborted (steps : nat) (front : bool) (pos : Point) (dir : vec3)
  (last_dirs : list vec3) (sl : Streamline) (s : World * RunState) :
  (forall w, fst (PollAbort ext w) = true) ->
  let r := follow_steps ext f steps front pos dir last_dirs sl s in
  sl_fib (fst r) = sl_fib sl /\ sl_tractLength (fst r) = sl_tractLength sl
  /\ snd (snd r) = snd s.
Proof.
  intros Ha. destruct steps as [|steps]; simpl; [auto|].
  destruct (InExclusion ext f (CalculateNewPosition f pos dir)); simpl; [auto|].
  unfold bind, liftW, ret. specialize (Ha (fst s)).
  destruct (PollAbort ext (fst s)) as [abort w1]. simpl in Ha. subst abort.
  simpl. auto.
Qed.

(** X5.  While the abort flag reads as set, a trial ends without a second
    point: it fails, and it leaves every shared member as it was. *)
Theorem aborted_trial_changes_nothing (worldPos : Point) (s : World * RunState) :
  (forall w, fst (PollAbort ext w) = true) ->
  exists w', trial ext f worldPos s = Ok (false, (w', snd s)).
Proof.
  intros Ha. unfold trial, track_seed, FollowStreamline.
  destruct (GetNewDirection ext f worldPos [] zeroIndex (fst s)) as [dir0 w].
  destruct (_ && _); [|eauto].
  match goal with
  | |- context [follow_steps ext f ?n false ?p ?d ?l ?sl0 ?s0] =>
    destruct (@follow_steps_aborted n false p d l sl0 s0 Ha) as (F1 & _ & F3);
    destruct (follow_steps ext f n false p d l sl0 s0) as [fwd [w1 rs1]]
  end.
  simpl in F1, F3. subst rs1.
  destruct (negb (sl_exclude fwd)) eqn:Ex.
  - match goal with
    | |- context [follow_steps ext f ?n true ?p ?d ?l ?sl0 ?s0] =>
      destruct (@follow_steps_aborted n true p d l sl0 s0 Ha) as (B1 & _ & B3);
      destruct (follow_steps ext f n true p d l sl0 s0) as [bwd [w2 rs2]]
    end.
    simpl in B1, B3. subst rs2.
    assert (is_candidate f bwd = false) as ->.
    { unfold is_candidate. rewrite B1, F1. unfold push_front. simpl.
      rewrite andb_false_r. reflexivity. }
    eauto.
  - assert (is_candidate f
              (mkStreamline (push_front worldPos (sl_fib fwd)) (sl_container fwd)
                 (sl_tractLength fwd) (sl_exclude fwd)) = false) as ->.
    { unfold is_candidate. simpl. apply negb_false_iff in Ex. rewrite Ex.
      apply andb_false_r. }
    eauto.
Qed.

Lemma to_unsigned_le (z : Z) : (0 <= z)%Z -> (to_unsigned z <= z)%Z.
Proof.
  intros H. unfold to_unsigned. apply Z.mod_le; [exact H | reflexivity].
Qed.

(** X6.  A trial succeeds only with a fibre of at least two points that
    is not flagged by the exclusion mask and that [IsValidFiber] accepts,
    and while the stop flag is not set; it then counts the fibre and
    appends it to the tractogram, or adds it to the map, never both. *)
Theorem successful_trial_conditions (worldPos : Point) (s s' : World * RunState) :
  trial ext f worldPos s = Ok (true, s') ->
  exists sl rs1,
    track_seed ext f worldPos s = (Some sl, (fst s', rs1))
    /\ (2 <= length (sl_fib sl))%nat
    /\ sl_exclude sl = false
    /\ IsValidFiber ext f (sl_fib sl) = Ok true
    /\ m_StopTracking rs1 = false
    /\ m_CurrentTracts (snd s') = to_unsigned (m_CurrentTracts rs1 + 1)
    /\ (if m_UseOutputProbabilityMap f
        then m_Tractogram (snd s') = m_Tractogram rs1
             /\ m_OutputProbabilityMap (snd s')
                = FiberToProbmap ext (sl_fib sl) (m_OutputProbabilityMap rs1)
        else m_Tractogram (snd s') = m_Tractogram rs1 ++ [sl_fib sl]
             /\ m_OutputProbabilityMap (snd s') = m_OutputProbabilityMap rs1).
Proof.
  intros H. unfold trial in H.
  destruct (track_seed ext f worldPos s) as [[sl|] [w1 rs1]] eqn:T;
    [|discriminate].
  destruct (is_candidate f sl) eqn:Ec; [|discriminate].
  cbn [snd fst] in H.
  destruct (accept_fiber ext f (sl_fib sl) rs1) as [[b rs']|] eqn:Ea;
    [|discriminate].
  inversion H; subst. clear H. exists sl, rs1.
  unfold is_candidate in Ec. apply andb_true_iff in Ec. destruct Ec as [Ec Ex].
  apply negb_true_iff in Ex.
  apply andb_true_iff in Ec. destruct Ec as [_ En].
  apply Z.leb_le in En.
  assert (Hn : (2 <= length (sl_fib sl))%nat).
  { assert (U := @to_unsigned_le (Z.of_nat (length (sl_fib sl)))). lia. }
  apply accept_fiber_cases in Ea.
  destruct Ea as [(_ & Hv & Hs & ->) | [(Ea & _) | (Ea & _)]]; try discriminate.
  destruct (check_limit_fields f (keep_fiber ext f (sl_fib sl) rs1))
    as (C1 & C2 & C3 & _).
  cbn [fst snd]. rewrite C1, C2, C3.
  split; [reflexivity|]. split; [exact Hn|]. split; [exact Ex|].
  split; [exact Hv|]. split; [exact Hs|].
  unfold keep_fiber. destruct (m_UseOutputProbabilityMap f); simpl; auto.
Qed.

End Passes.

(** The external functions of the plain setting with the abort flag set. *)
Definition aborting_ext : External unit PlainImage :=
  mkExternal
    (IsInsideMask plain_ext) (GetImageValue plain_ext) (FilledImage plain_ext)
    (ImageVoxels plain_ext) (TransformContinuousIndexToPhysicalPoint plain_ext)
    (TransformPhysicalPointToIndex plain_ext) (RegionIsInside plain_ext)
    (RescaleIntensity plain_ext) (random_shuffle plain_ext)
    (ret true)
    (omp_get_max_threads plain_ext) (mitk_eps plain_ext).

Lemma aborted_trial_changes_nothing_witness :
  (forall w, fst (PollAbort aborting_ext w) = true)
  /\ exists w',
       trial aborting_ext line_filter origin (tt, initial_run)
       = Ok (false, (w', initial_run)).
Proof.
  assert (H : forall w, fst (PollAbort aborting_ext w) = true)
    by (intros w; reflexivity).
  split; [exact H|].
  apply (aborted_trial_changes_nothing aborting_ext line_filter origin
           (tt, initial_run) H).
Defined.

(** The trial on the line succeeds. *)
Lemma line_trial :
  exists rs',
    trial plain_ext line_filter origin (tt, initial_run) = Ok (true, (tt, rs')).
Proof.
  destruct line_track_seed as [container E].
  unfold trial. rewrite E.
  assert (is_candidate line_filter
            (mkStreamline [backward_2; backward_1; origin; forward_1; forward_2]
               container (0 + 1 + 1 + 1 + 1) false) = true) as ->.
  { unfold is_candidate. cbn [sl_tractLength sl_fib sl_exclude m_MinTractLength
                              line_filter tracking_filter].
    assert (Rgeb (0 + 1 + 1 + 1 + 1) 0 = true) as -> by (apply Rgeb_true; lra).
    reflexivity. }
  eexists. reflexivity.
Qed.

Lemma successful_trial_conditions_witness :
  exists s',
    trial plain_ext line_filter origin (tt, initial_run) = Ok (true, s')
    /\ exists sl,
         fst (track_seed plain_ext line_filter origin (tt, initial_run)) = Some sl
         /\ IsValidFiber plain_ext line_filter (sl_fib sl) = Ok true
         /\ m_Tractogram (snd s') = [sl_fib sl].
Proof.
  destruct line_trial as [rs' E]. exists (tt, rs'). split; [exact E|].
  destruct (@successful_trial_conditions _ _ plain_ext line_filter origin
              (tt, initial_run) (tt, rs') E) as (sl & rs1 & T & _ & _ & Hv & _ & _ & Ht).
  exists sl. rewrite T. split; [reflexivity|]. split; [exact Hv|].
  cbn [m_UseOutputProbabilityMap line_filter tracking_filter] in Ht.
  destruct Ht as [Ht _]. rewrite Ht.
  destruct line_track_seed as [container E2]. rewrite E2 in T.
  inversion T; subst. reflexivity.
Defined.

(** ** The length limit *)

Section LengthLimit.

Context {World Image : Type}.
Variable ext : External World Image.
Variable f : Filter World Image.

(** A pass returns the length it was given, or one that is at most one
    step over the larger of that length and the limit. *)
Lemma follow_steps_length (steps : nat) (front : bool) (pos : Point) (dir : vec3)
  (last_dirs : list vec3) (sl : Streamline) (s : World * RunState) :
  0 <= m_StepSize f ->
  sl_tractLength sl
  <= sl_tractLength (fst (follow_steps ext f steps front pos dir last_dirs sl s))
  <= Rmax (sl_tractLength sl) (m_MaxTractLength f) + m_StepSize f.
Proof.
  intros Hs. revert pos dir last_dirs sl s.
  induction steps as [|steps IH]; intros pos dir last_dirs sl s.
  - simpl. assert (M := Rmax_l (sl_tractLength sl) (m_MaxTractLength f)). lra.
  - assert (M := Rmax_l (sl_tractLength sl) (m_MaxTractLength f)).
    assert (N := Rmax_r (sl_tractLength sl) (m_MaxTractLength f)).
    cbn [follow_steps].
    destruct (InExclusion ext f (CalculateNewPosition f pos dir)); [simpl; lra|].
    unfold bind, liftW, ret, modify_run.
    destruct (PollAbort ext (fst s)) as [abort w1].
    destruct abort; [simpl; lra|].
    destruct (_ && _); [simpl; lra|].
    destruct (Rgtb _ (m_MaxTractLength f)) eqn:El; [simpl; lra|].
    apply Rgtb_false in El.
    destruct (m_DemoMode f && negb (m_UseOutputProbabilityMap f)); cbn [fst snd];
      match goal with
      | |- context [GetNewDirection ext f ?p ?l ?i ?w] =>
        destruct (GetNewDirection ext f p l i w) as [dir' w2]
      end;
      (destruct (Rltb (magnitude dir') 0.0001); [simpl; lra|]);
      match goal with
      | |- context [follow_steps ext f steps front ?p ?d ?l ?sl0 ?s0] =>
        specialize (IH p d l sl0 s0)
      end;
      cbn [sl_tractLength] in IH;
      rewrite (Rmax_right _ _ El) in IH; lra.
Qed.

(** X7.  With a step size that is not negative, the length of the
    streamline of a trial is at most two steps over the length limit
    [m_MaxTractLength] (over zero, for a negative limit): each of the two
    passes tests the limit after it has added its step. *)
Theorem trial_length_limit (worldPos : Point) (s : World * RunState)
  (sl : Streamline) :
  0 <= m_StepSize f ->
  fst (track_seed ext f worldPos s) = Some sl ->
  0 <= sl_tractLength sl <= Rmax 0 (m_MaxTractLength f) + 2 * m_StepSize f.
Proof.
  intros Hs. unfold track_seed, FollowStreamline.
  destruct (GetNewDirection ext f worldPos [] zeroIndex (fst s)) as [dir0 w].
  destruct (_ && _); [|discriminate].
  match goal with
  | |- context [follow_steps ext f ?n false ?p ?d ?l ?sl0 ?s0] =>
    assert (F := @follow_steps_length n false p d l sl0 s0 Hs);
    destruct (follow_steps ext f n false p d l sl0 s0) as [fwd s1]
  end.
  cbn [fst sl_tractLength] in F.
  assert (M1 := Rmax_l 0 (m_MaxTractLength f)).
  assert (M2 := Rmax_r 0 (m_MaxTractLength f)).
  destruct (negb (sl_exclude fwd)).
  - match goal with
    | |- context [follow_steps ext f ?n true ?p ?d ?l ?sl0 ?s0] =>
      assert (B := @follow_steps_length n true p d l sl0 s0 Hs);
      destruct (follow_steps ext f n true p d l sl0 s0) as [bwd s2]
    end.
    cbn [fst sl_tractLength] in B.
    intros E; inversion E; subst sl.
    assert (M3 : Rmax (sl_tractLength fwd) (m_MaxTractLength f)
                 <= Rmax 0 (m_MaxTractLength f) + m_StepSize f).
    { apply Rmax_lub; lra. }
    lra.
  - intros E; inversion E; subst sl. simpl. lra.
Qed.

End LengthLimit.

Lemma trial_length_limit_witness :
  exists sl,
    fst (track_seed plain_ext line_filter origin (tt, initial_run)) = Some sl
    /\ 0 <= sl_tractLength sl
       <= Rmax 0 (m_MaxTractLength line_filter) + 2 * m_StepSize line_filter.
Proof.
  destruct line_track_seed as [container E].
  eexists. split; [rewrite E; reflexivity|].
  apply (@trial_length_limit _ _ plain_ext line_filter origin (tt, initial_run));
    [simpl; lra | rewrite E; reflexivity].
Defined.

(** ** What [FiberToProbmap] leaves alone *)

Section ProbmapFrame.

Context {World Image : Type}.
Variable ext : External World Image.

(** The points of a fibre that fall into the voxel [v]. *)
Definition points_in (v : Index) (fib : FiberType) : nat :=
  length (filter (fun i => Index_eqb i v) (fiber_indices ext fib)).

Lemma entries_le_occurrences (v : Index) (prev : option Index) (idxs : list Index) :
  (entries v prev idxs <= length (filter (fun i => Index_eqb i v) idxs))%nat.
Proof.
  revert prev. induction idxs as [|i t IH]; intros prev; simpl; [lia|].
  specialize (IH (Some i)).
  destruct (Index_eqb i v); simpl; [|lia].
  destruct (negb _); simpl; lia.
Qed.

(** X8.  [FiberToProbmap] lowers no counter, raises the counter of a voxel
    by at most the number of fibre points in that voxel, and leaves the
    counters of the voxels outside the region, and of the voxels no point
    of the fibre falls into, as they were. *)
Theorem FiberToProbmap_frame (fib : FiberType) (map0 : Index -> R) (v : Index) :
  map0 v <= FiberToProbmap ext fib map0 v <= map0 v + INR (points_in v fib)
  /\ (RegionIsInside ext v = false -> FiberToProbmap ext fib map0 v = map0 v)
  /\ (points_in v fib = 0%nat -> FiberToProbmap ext fib map0 v = map0 v).
Proof.
  unfold FiberToProbmap. rewrite probmap_loop.
  assert (L := entries_le_occurrences v (Some zeroIndex) (fiber_indices ext fib)).
  fold (points_in v fib) in L.
  assert (P := pos_INR (entries v (Some zeroIndex) (fiber_indices ext fib))).
  apply le_INR in L.
  destruct (RegionIsInside ext v).
  - split; [lra|]. split; [discriminate|].
    intros Z. rewrite Z in L. simpl in L. lra.
  - assert (Q := pos_INR (points_in v fib)).
    split; [lra|]. split; intros _; lra.
Qed.

End ProbmapFrame.

(** ** The range of the curvature *)

Section Curvature.

Context {World Image : Type}.
Variable f : Filter World Image.

Lemma acos_quarter_turn (x : R) : 0 <= x <= 1 -> 0 <= acos x <= PI / 2.
Proof.
  intros Hx. destruct (acos_bound x) as [H0 H1]. split; [exact H0|].
  destruct (Rle_dec (acos x) (PI / 2)) as [H|H]; [exact H|].
  exfalso. assert (Hpi := PI_RGT_0).
  assert (C : cos (acos x) < cos (PI / 2)).
  { apply cos_decreasing_1; lra. }
  rewrite cos_acos, cos_PI2 in C; lra.
Qed.

(** The angle one direction adds to the deviation, in degrees. *)
Definition deviation_of (meanV v : vec3) : R :=
  acos (if Rgtb (Rabs (dot_product meanV v)) 1 then 1
        else Rabs (dot_product meanV v)) * 180 / PI.

Lemma deviation_of_range (meanV v : vec3) : 0 <= deviation_of meanV v <= 90.
Proof.
  unfold deviation_of. assert (Hpi := PI_RGT_0).
  set (a := if Rgtb _ 1 then 1 else _).
  assert (Ha : 0 <= a <= 1).
  { unfold a. destruct (Rgtb (Rabs (dot_product meanV v)) 1) eqn:E; [lra|].
    apply Rgtb_false in E. split; [apply Rabs_pos | exact E]. }
  destruct (acos_quarter_turn Ha) as [H0 H1].
  unfold Rdiv. split.
  - apply Rmult_le_pos; [nra|]. apply Rlt_le, Rinv_0_lt_compat. exact Hpi.
  - apply Rmult_le_reg_r with PI; [exact Hpi|].
    rewrite Rmult_assoc, Rinv_l by lra. lra.
Qed.

Lemma deviation_sum_range (meanV : vec3) (vectors : list vec3) (dev : R) :
  dev
  <= fold_left
       (fun dev v =>
          let angle := Rabs (dot_product meanV v) in
          let angle := if Rgtb angle 1 then 1 else angle in
          dev + acos angle * 180 / PI)
       vectors dev
  <= dev + 90 * INR (length vectors).
Proof.
  revert dev. induction vectors as [|v t IH]; intros dev.
  - simpl. lra.
  - cbn [fold_left]. cbv zeta.
    change (dev + acos (if Rgtb (Rabs (dot_product meanV v)) 1 then 1
                        else Rabs (dot_product meanV v)) * 180 / PI)
      with (dev + deviation_of meanV v).
    specialize (IH (dev + deviation_of meanV v)). cbv zeta in IH.
    assert (Hv := deviation_of_range meanV v).
    change (length (v :: t)) with (S (length t)). rewrite S_INR.
    lra.
Qed.

Lemma CheckCurvature_bounds (fib : DirectionContainer) (front : bool) :
  0 <= CheckCurvature f fib front <= 90.
Proof.
  unfold CheckCurvature.
  destruct (length fib <? 8)%nat; [lra|].
  destruct (curvature_window _ _ _ _ _ _) as [vectors meanV].
  assert (Hs := deviation_sum_range (normalize meanV) vectors 0).
  cbv zeta in Hs |- *.
  destruct (0 <? length vectors)%nat eqn:E.
  - apply Nat.ltb_lt in E.
    assert (Hn : 0 < INR (length vectors)) by (apply lt_0_INR; exact E).
    unfold Rdiv at 1 3. split.
    + apply Rmult_le_pos; [lra|]. apply Rlt_le, Rinv_0_lt_compat. exact Hn.
    + apply Rmult_le_reg_r with (INR (length vectors)); [exact Hn|].
      rewrite Rmult_assoc, Rinv_l by lra. lra.
  - apply Nat.ltb_ge in E. assert (length vectors = 0%nat) as L by lia.
    rewrite L in Hs. simpl in Hs. lra.
Qed.

(** X9.  The curvature [CheckCurvature] returns is a mean angle between 0
    and 90 degrees, and 0 for fewer than eight directions; so a loop check
    of 90 degrees or more, like a negative one, never ends a streamline. *)
Theorem CheckCurvature_range (fib : DirectionContainer) (front : bool) :
  0 <= CheckCurvature f fib front <= 90
  /\ ((length fib < 8)%nat -> CheckCurvature f fib front = 0)
  /\ (m_LoopCheck f < 0 \/ 90 <= m_LoopCheck f ->
      Rgeb (m_LoopCheck f) 0
      && Rgtb (CheckCurvature f fib front) (m_LoopCheck f) = false).
Proof.
  assert (B := CheckCurvature_bounds fib front).
  split; [exact B|]. split.
  - intros H. unfold CheckCurvature.
    apply Nat.ltb_lt in H. rewrite H. reflexivity.
  - intros [H|H].
    + apply andb_false_iff. left. apply Rleb_false. exact H.
    + apply andb_false_iff. right. apply Rgtb_false. lra.
Qed.

End Curvature.

(** ** What [GetNewDirection] returns *)

Section NewDirection.

Context {World Image : Type}.
Variable ext : External World Image.
Variable f : Filter World Image.

(** X10.  The direction [GetNewDirection] returns either has norm one, and
    passes the test on which tracking goes on, or has norm zero, and
    fails it; at a position outside the tracking mask or inside a
    stopping region it is the zero vector, and the handler is not
    asked. *)
Theorem GetNewDirection_continues_or_stops (pos : Point) (olddirs : list vec3)
  (oldIndex : Index) (w : World) :
  ((magnitude (fst (GetNewDirection ext f pos olddirs oldIndex w)) = 1
    /\ Rltb (magnitude (fst (GetNewDirection ext f pos olddirs oldIndex w)))
         0.0001 = false)
   \/ (magnitude (fst (GetNewDirection ext f pos olddirs oldIndex w)) = 0
       /\ Rltb (magnitude (fst (GetNewDirection ext f pos olddirs oldIndex w)))
            0.0001 = true))
  /\ (InsideMask ext f pos (m_MaskInterpolator f) = false
      \/ InsideMask ext f pos (m_StopInterpolator f) = true ->
      GetNewDirection ext f pos olddirs oldIndex w = (fill 0, w)).
Proof.
  split.
  - destruct (GetNewDirection_unit_or_zero ext f pos olddirs oldIndex w)
      as [H|H]; rewrite H; [left | right]; split; try reflexivity.
    + apply Rltb_false. lra.
    + apply Rltb_true. lra.
  - intros H. unfold GetNewDirection.
    destruct H as [-> | ->]; [reflexivity|]. rewrite andb_false_r. reflexivity.
Qed.

End NewDirection.

(** ** The heights of the point shell *)

Lemma nth_set_at_eq {A : Type} (l : list A) (i : nat) (x d : A) :
  (i < length l)%nat -> nth i (set_at l i x) d = x.
Proof.
  revert i. induction l as [|h t IH]; intros [|j] H; simpl in *; try lia.
  - reflexivity.
  - apply IH. lia.
Qed.

Lemma nth_set_at_neq {A : Type} (l : list A) (i j : nat) (x d : A) :
  i <> j -> nth i (set_at l j x) d = nth i l d.
Proof.
  revert i j. induction l as [|h t IH]; intros [|i] [|j] H; simpl;
    try reflexivity; try congruence.
  apply IH. congruence.
Qed.

Section ShellHeights.

Variable NPoints : Z.

(** The first loop of [CreateDirections] leaves in [theta[i]], for every
    index [i] it has visited, the angle of the height of [i]. *)
Lemma shell_angles_theta (C : R) (l : list nat) (theta phi : list R) (i : nat) :
  (i < length theta)%nat ->
  at_ (fst (fold_left (shell_angles_step NPoints C) l (theta, phi))) i
  = if in_dec Nat.eq_dec i l then acos (shell_height NPoints i) - PI / 2
    else at_ theta i.
Proof.
  revert theta phi. induction l as [|a t IH]; intros theta phi Hi.
  - reflexivity.
  - cbn [fold_left]. unfold shell_angles_step at 2.
    set (theta1 := set_at theta a (acos (shell_height NPoints a) - PI / 2)).
    assert (H1 : (i < length theta1)%nat)
      by (unfold theta1; rewrite set_at_length; exact Hi).
    assert (E : forall phi1,
              at_ (fst (fold_left (shell_angles_step NPoints C) t (theta1, phi1))) i
              = if in_dec Nat.eq_dec i (a :: t)
                then acos (shell_height NPoints i) - PI / 2
                else at_ theta i).
    { intros phi1. rewrite (IH theta1 phi1 H1).
      destruct (in_dec Nat.eq_dec i t) as [Hin|Hin].
      - destruct (in_dec Nat.eq_dec i (a :: t)) as [_|N]; [reflexivity|].
        exfalso. apply N. right. exact Hin.
      - destruct (Nat.eq_dec a i) as [->|Hne].
        + destruct (in_dec Nat.eq_dec i (i :: t)) as [_|N];
            [|exfalso; apply N; left; reflexivity].
          unfold theta1, at_. apply nth_set_at_eq. exact Hi.
        + destruct (in_dec Nat.eq_dec i (a :: t)) as [[H|H]|_];
            [congruence | contradiction |].
          unfold theta1, at_. apply nth_set_at_neq. congruence. }
    destruct (_ && _)%Z; apply E.
Qed.

Lemma CreateDirections_nth (i : nat) :
  (2 <= NPoints)%Z -> (i < Z.to_nat NPoints)%nat ->
  exists phi,
    nth i (CreateDirections NPoints) zero_dir
    = mkVec (cos (acos (shell_height NPoints i) - PI / 2) * cos phi)
            (cos (acos (shell_height NPoints i) - PI / 2) * sin phi)
            (sin (acos (shell_height NPoints i) - PI / 2)).
Proof.
  intros H Hi. unfold CreateDirections.
  destruct (NPoints <? 2)%Z eqn:E; [apply Z.ltb_lt in E; lia|].
  cbv zeta.
  match goal with
  | |- context [fold_left ?g ?l (?t0, ?p0)] =>
    assert (T := @shell_angles_theta (sqrt (4 * PI)) l t0 p0 i);
    destruct (fold_left g l (t0, p0)) as [theta phi]
  end.
  rewrite repeat_length in T. specialize (T Hi). cbn [fst] in T.
  destruct (in_dec Nat.eq_dec i (seq 0 (Z.to_nat NPoints))) as [_|N];
    [|exfalso; apply N; apply in_seq; lia].
  exists (at_ phi i).
  rewrite (nth_indep _ zero_dir (shell_direction theta phi 0))
    by (rewrite length_map, length_seq; exact Hi).
  rewrite (map_nth (shell_direction theta phi)), seq_nth by exact Hi.
  unfold shell_direction. cbn [Nat.add]. rewrite T. reflexivity.
Qed.

Lemma shell_height_range (i : nat) :
  (2 <= NPoints)%Z -> (i < Z.to_nat NPoints)%nat ->
  -1 <= shell_height NPoints i <= 1.
Proof.
  intros H Hi. unfold shell_height.
  assert (Hn : 1 <= IZR NPoints - 1).
  { assert (2 <= IZR NPoints) by (apply IZR_le; exact H). lra. }
  assert (Hle : INR i <= IZR NPoints - 1).
  { rewrite INR_IZR_INZ, <- minus_IZR. apply IZR_le. lia. }
  assert (H0 : 0 <= INR i) by apply pos_INR.
  assert (Hq : 0 <= INR i / (IZR NPoints - 1) <= 1).
  { split.
    - apply Rmult_le_pos; [exact H0|]. apply Rlt_le, Rinv_0_lt_compat. lra.
    - apply Rmult_le_reg_r with (IZR NPoints - 1); [lra|].
      unfold Rdiv. rewrite Rmult_assoc, Rinv_l by lra. lra. }
  unfold Rdiv in *. lra.
Qed.

(** X11.  For [n >= 2] the heights of the probes of [CreateDirections(n)]
    fall evenly from 1 to -1: probe [i] has the third coordinate
    [1 - 2 i / (n - 1)]; the first probe is the pole [(0,0,1)] and the
    last one the pole [(0,0,-1)]. *)
Theorem CreateDirections_heights (i : nat) :
  (2 <= NPoints)%Z -> (i < Z.to_nat NPoints)%nat ->
  vz (nth i (CreateDirections NPoints) zero_dir)
  = 1 - 2 * INR i / (IZR NPoints - 1)
  /\ nth 0 (CreateDirections NPoints) zero_dir = mkVec 0 0 1
  /\ nth (Z.to_nat NPoints - 1) (CreateDirections NPoints) zero_dir
     = mkVec 0 0 (-1).
Proof.
  intros H Hi.
  assert (Sin : forall j, (j < Z.to_nat NPoints)%nat ->
            sin (acos (shell_height NPoints j) - PI / 2)
            = - shell_height NPoints j).
  { intros j Hj. rewrite sin_minus, cos_PI2, sin_PI2.
    rewrite cos_acos by (apply shell_height_range; assumption). ring. }
  split; [|split].
  - destruct (CreateDirections_nth H Hi) as [phi ->]. cbn [vz].
    rewrite (Sin i Hi). unfold shell_height. lra.
  - assert (H0 : (0 < Z.to_nat NPoints)%nat) by lia.
    destruct (CreateDirections_nth H H0) as [phi ->].
    assert (E : shell_height NPoints 0 = -1).
    { unfold shell_height. simpl. unfold Rdiv. lra. }
    rewrite (Sin O H0), E.
    replace (acos (-1)) with PI
      by (replace (-1) with (Ropp 1) by lra; rewrite acos_opp, acos_1; lra).
    replace (PI - PI / 2) with (PI / 2) by lra. rewrite cos_PI2.
    f_equal; lra.
  - assert (H1 : (Z.to_nat NPoints - 1 < Z.to_nat NPoints)%nat) by lia.
    destruct (CreateDirections_nth H H1) as [phi ->].
    assert (E : shell_height NPoints (Z.to_nat NPoints - 1) = 1).
    { unfold shell_height.
      assert (Hn : 1 <= IZR NPoints - 1).
      { assert (2 <= IZR NPoints) by (apply IZR_le; exact H). lra. }
      replace (INR (Z.to_nat NPoints - 1)) with (IZR NPoints - 1).
      - unfold Rdiv. rewrite Rmult_assoc, Rinv_r by lra. lra.
      - rewrite INR_IZR_INZ, <- minus_IZR. f_equal. lia. }
    rewrite (Sin _ H1), E, acos_1.
    replace (0 - PI / 2) with (- (PI / 2)) by lra. rewrite cos_neg, cos_PI2.
    f_equal; lra.
Qed.

End ShellHeights.

Lemma CreateDirections_heights_witness :
  vz (nth 1 (CreateDirections 3) zero_dir) = 1 - 2 * INR 1 / (IZR 3 - 1)
  /\ nth 0 (CreateDirections 3) zero_dir = mkVec 0 0 1
  /\ nth (Z.to_nat 3 - 1) (CreateDirections 3) zero_dir = mkVec 0 0 (-1).
Proof.
  apply (@CreateDirections_heights 3 1); [lia | simpl; lia].
Defined.

(** ** The members [BeforeTracking] derives *)

Section Preparation.

Context {World Image : Type}.
Variable ext : External World Image.
Variable f : Filter World Image.

(** The three comparisons of [BeforeTracking] pick the smallest spacing. *)
Lemma prepared_MinVoxelSize :
  m_MinVoxelSize (prepare_members ext f)
  = Rmin (vx (GetSpacing (m_TrackingHandler f)))
         (Rmin (vy (GetSpacing (m_TrackingHandler f)))
               (vz (GetSpacing (m_TrackingHandler f)))).
Proof.
  unfold prepare_members. cbn [m_MinVoxelSize].
  set (x := vx _). set (y := vy _). set (z := vz _).
  unfold Rmin.
  destruct (Rltb x y) eqn:Exy; [apply Rltb_true in Exy | apply Rltb_false in Exy];
    (destruct (Rltb x z) eqn:Exz; [apply Rltb_true in Exz | apply Rltb_false in Exz]);
    (destruct (Rltb y z) eqn:Eyz; [apply Rltb_true in Eyz | apply Rltb_false in Eyz]);
    simpl; destruct (Rle_dec y z), (Rle_dec x y), (Rle_dec x z); lra.
Qed.

(** The ratio of step size and voxel size that the angular threshold is
    estimated from. *)
Lemma prepared_step_ratio :
  0 < m_MinVoxelSize (prepare_members ext f) ->
  m_StepSize (prepare_members ext f) / m_MinVoxelSize (prepare_members ext f)
  = if Rltb (m_StepSizeVox f) (mitk_eps ext) then 0.5 else m_StepSizeVox f.
Proof.
  unfold prepare_members. cbn [m_MinVoxelSize m_StepSize]. intros H.
  destruct (Rltb (m_StepSizeVox f) (mitk_eps ext)); field; lra.
Qed.

(** X12.  With positive spacing and a positive [mitk::eps], the voxel size
    of the prepared filter is the smallest of the three spacings, and step
    size and sampling distance are positive: a step size (a sampling
    distance) below [mitk::eps], negative ones included, is replaced by
    half (a quarter of) the voxel size, any other is taken in voxels. *)
Theorem prepared_sizes :
  0 < vx (GetSpacing (m_TrackingHandler f)) ->
  0 < vy (GetSpacing (m_TrackingHandler f)) ->
  0 < vz (GetSpacing (m_TrackingHandler f)) ->
  0 < mitk_eps ext ->
  m_MinVoxelSize (prepare_members ext f)
  = Rmin (vx (GetSpacing (m_TrackingHandler f)))
         (Rmin (vy (GetSpacing (m_TrackingHandler f)))
               (vz (GetSpacing (m_TrackingHandler f))))
  /\ 0 < m_MinVoxelSize (prepare_members ext f)
  /\ 0 < m_StepSize (prepare_members ext f)
  /\ 0 < m_SamplingDistance (prepare_members ext f)
  /\ (m_StepSizeVox f < mitk_eps ext ->
      m_StepSize (prepare_members ext f)
      = 0.5 * m_MinVoxelSize (prepare_members ext f))
  /\ (mitk_eps ext <= m_StepSizeVox f ->
      m_StepSize (prepare_members ext f)
      = m_StepSizeVox f * m_MinVoxelSize (prepare_members ext f))
  /\ (m_SamplingDistanceVox f < mitk_eps ext ->
      m_SamplingDistance (prepare_members ext f)
      = m_MinVoxelSize (prepare_members ext f) * 0.25)
  /\ (mitk_eps ext <= m_SamplingDistanceVox f ->
      m_SamplingDistance (prepare_members ext f)
      = m_SamplingDistanceVox f * m_MinVoxelSize (prepare_members ext f)).
Proof.
  intros Hx Hy Hz He.
  assert (Hm : 0 < m_MinVoxelSize (prepare_members ext f)).
  { rewrite prepared_MinVoxelSize. repeat apply Rmin_glb_lt; assumption. }
  split; [apply prepared_MinVoxelSize|]. split; [exact Hm|].
  revert Hm. unfold prepare_members.
  cbn [m_MinVoxelSize m_StepSize m_SamplingDistance].
  set (m := if _ && _ then _ else _). intros Hm.
  destruct (Rltb (m_StepSizeVox f) (mitk_eps ext)) eqn:Es;
    [apply Rltb_true in Es | apply Rltb_false in Es];
    (destruct (Rltb (m_SamplingDistanceVox f) (mitk_eps ext)) eqn:Ed;
     [apply Rltb_true in Ed | apply Rltb_false in Ed]);
    repeat split; intros; try lra; try nra.
Qed.

(** X13.  When the angular threshold is left to [BeforeTracking] (a
    negative threshold in degrees), with positive spacing and [mitk::eps],
    it is the cosine of the step size in voxels times 90 degrees, capped at
    0.966 times 90 degrees: it is positive, at least the cosine of the
    cap, and [cos (PI / 4)] for the default step size of half a voxel. *)
Theorem automatic_angular_threshold :
  0 < vx (GetSpacing (m_TrackingHandler f)) ->
  0 < vy (GetSpacing (m_TrackingHandler f)) ->
  0 < vz (GetSpacing (m_TrackingHandler f)) ->
  0 < mitk_eps ext ->
  m_AngularThresholdDeg f < 0 ->
  m_AngularThreshold (prepare_members ext f)
  = cos (PI / 2
         * Rmin 0.966 (if Rltb (m_StepSizeVox f) (mitk_eps ext) then 0.5
                       else m_StepSizeVox f))
  /\ 0 < cos (PI / 2 * 0.966) <= m_AngularThreshold (prepare_members ext f)
  /\ (m_StepSizeVox f < mitk_eps ext ->
      m_AngularThreshold (prepare_members ext f) = cos (PI / 4)).
Proof.
  intros Hx Hy Hz He Ha.
  assert (Hm : 0 < m_MinVoxelSize (prepare_members ext f)).
  { rewrite prepared_MinVoxelSize. repeat apply Rmin_glb_lt; assumption. }
  assert (Hr := prepared_step_ratio Hm).
  assert (E : m_AngularThreshold (prepare_members ext f)
              = cos (PI / 2
                     * Rmin 0.966 (if Rltb (m_StepSizeVox f) (mitk_eps ext)
                                   then 0.5 else m_StepSizeVox f))).
  { revert Hm Hr. unfold prepare_members.
    cbn [m_MinVoxelSize m_StepSize m_AngularThreshold].
    set (m := if _ && _ then _ else _).
    set (s := if Rltb (m_StepSizeVox f) (mitk_eps ext) then 0.5 * m
              else m_StepSizeVox f * m).
    intros Hm Hr.
    assert (Rltb (m_AngularThresholdDeg f) 0 = true) as ->
      by (apply Rltb_true; exact Ha).
    rewrite <- Hr.
    replace (0.5 * PI * s / m) with (PI / 2 * (s / m))
      by (unfold Rdiv; rewrite (Rmult_assoc (0.5 * PI)); generalize (s * / m);
          intros; lra).
    replace (0.5 * PI * 0.966) with (PI / 2 * 0.966) by lra.
    unfold Rmin.
    destruct (Rleb (s / m) 0.966) eqn:El;
      [apply Rleb_true in El | apply Rleb_false in El];
      destruct (Rle_dec 0.966 (s / m)); try reflexivity; try lra.
    f_equal. f_equal. lra. }
  assert (Hpi := PI_RGT_0).
  split; [exact E|]. split.
  - split; [apply cos_gt_0; lra|].
    rewrite E. apply cos_decr_1.
    + assert (Hs : 0 < (if Rltb (m_StepSizeVox f) (mitk_eps ext) then 0.5
                        else m_StepSizeVox f)).
      { destruct (Rltb (m_StepSizeVox f) (mitk_eps ext)) eqn:Es; [lra|].
        apply Rltb_false in Es. lra. }
      unfold Rmin. destruct (Rle_dec _ _); nra.
    + unfold Rmin. destruct (Rle_dec _ _); nra.
    + nra.
    + nra.
    + apply Rmult_le_compat_l; [lra | apply Rmin_l].
  - intros Hs. rewrite E.
    assert (Rltb (m_StepSizeVox f) (mitk_eps ext) = true) as ->
      by (apply Rltb_true; exact Hs).
    unfold Rmin. destruct (Rle_dec 0.966 0.5); [lra|]. f_equal. lra.
Qed.

End Preparation.

Lemma prepared_sizes_witness :
  m_MinVoxelSize (prepare_members plain_ext line_settings)
  = Rmin 1 (Rmin 1 1)
  /\ 0 < m_StepSize (prepare_members plain_ext line_settings)
  /\ 0 < m_SamplingDistance (prepare_members plain_ext line_settings).
Proof.
  destruct (@prepared_sizes _ _ plain_ext line_settings)
    as (H1 & _ & H3 & H4 & _); try (simpl; lra).
  repeat split; assumption.
Defined.

Lemma automatic_angular_threshold_witness :
  0 < cos (PI / 2 * 0.966)
  <= m_AngularThreshold (prepare_members plain_ext line_settings).
Proof.
  destruct (@automatic_angular_threshold _ _ plain_ext line_settings)
    as (_ & H & _); try (simpl; lra).
  exact H.
Defined.

(** ** The seed points read from the seed image *)

Section SeedPoints.

Context {World Image : Type}.
Variable ext : External World Image.
Variable f : Filter World Image.

(** The physical point of the centre of a voxel. *)
Definition voxel_centre (seedImage : Image) (voxel : Index * R) : Point :=
  TransformContinuousIndexToPhysicalPoint ext seedImage
    (index_as_continuous (fst voxel) (fill 0)).

(** A voxel that gives seeds: its value is positive and its centre is
    inside the tracking mask. *)
Definition seed_voxel (seedImage : Image) (voxel : Index * R) : bool :=
  Rgtb (snd voxel) 0
  && InsideMask ext f (voxel_centre seedImage voxel) (m_MaskInterpolator f).

Lemma jittered_seeds_length (seedImage : Image) (index : Index) (n : nat)
  (w : World) :
  length (fst (jittered_seeds ext f seedImage index n w)) = n.
Proof.
  revert w. induction n as [|n IH]; intros w; [reflexivity|].
  cbn [jittered_seeds]. unfold bind, ret.
  destruct (GetRandDouble _ _ _ w) as [j0 w0].
  destruct (GetRandDouble _ _ _ w0) as [j1 w1].
  destruct (GetRandDouble _ _ _ w1) as [j2 w2].
  specialize (IH w2).
  destruct (jittered_seeds ext f seedImage index n w2) as [rest w3].
  simpl in *. rewrite IH. reflexivity.
Qed.

(** The loop over the voxels, from any list of seeds. *)
Definition seed_voxel_loop (seedImage : Image) (voxels : list (Index * R))
  (seeds : list Point) : M World (list Point) :=
  foldM
    (fun seeds (voxel : Index * R) =>
       let (index, value) := voxel in
       if Rgtb value 0 then
         let worldPos :=
           TransformContinuousIndexToPhysicalPoint ext seedImage
             (index_as_continuous index (fill 0)) in
         if InsideMask ext f worldPos (m_MaskInterpolator f) then
           bind (jittered_seeds ext f seedImage index
                   (Z.to_nat (m_SeedsPerVoxel f - 1)))
                (fun more => ret (seeds ++ worldPos :: more))
         else ret seeds
       else ret seeds)
    voxels seeds.

Lemma seed_voxel_loop_cons (seedImage : Image) (voxel : Index * R)
  (voxels : list (Index * R)) (seeds : list Point) (w : World) :
  seed_voxel_loop seedImage (voxel :: voxels) seeds w
  = if seed_voxel seedImage voxel then
      let (more, w1) :=
        jittered_seeds ext f seedImage (fst voxel)
          (Z.to_nat (m_SeedsPerVoxel f - 1)) w in
      seed_voxel_loop seedImage voxels
        (seeds ++ voxel_centre seedImage voxel :: more) w1
    else seed_voxel_loop seedImage voxels seeds w.
Proof.
  destruct voxel as [index value].
  unfold seed_voxel_loop, seed_voxel, voxel_centre. cbn [foldM fst snd].
  unfold bind at 1.
  destruct (Rgtb value 0); cbn [andb]; [|reflexivity].
  destruct (InsideMask ext f _ (m_MaskInterpolator f)); [|reflexivity].
  unfold bind, ret.
  destruct (jittered_seeds ext f seedImage index _ w) as [more w1]. reflexivity.
Qed.

Lemma seed_voxel_loop_seeds (seedImage : Image) (voxels : list (Index * R))
  (seeds : list Point) (w : World) :
  length (fst (seed_voxel_loop seedImage voxels seeds w))
  = (length seeds
     + length (filter (seed_voxel seedImage) voxels)
       * (1 + Z.to_nat (m_SeedsPerVoxel f - 1)))%nat
  /\ (forall voxel, In voxel voxels -> seed_voxel seedImage voxel = true ->
      In (voxel_centre seedImage voxel)
         (fst (seed_voxel_loop seedImage voxels seeds w)))
  /\ (forall p, In p seeds ->
      In p (fst (seed_voxel_loop seedImage voxels seeds w)))
  /\ ((m_SeedsPerVoxel f <= 1)%Z ->
      seed_voxel_loop seedImage voxels seeds w
      = (seeds ++ map (voxel_centre seedImage)
                    (filter (seed_voxel seedImage) voxels), w)).
Proof.
  revert seeds w. induction voxels as [|voxel t IH]; intros seeds w.
  - simpl. unfold ret. simpl. rewrite app_nil_r.
    repeat split; auto; try lia; intros voxel [].
  - rewrite seed_voxel_loop_cons. cbn [filter map].
    destruct (seed_voxel seedImage voxel) eqn:Es.
    + assert (J := jittered_seeds_length seedImage (fst voxel)
                     (Z.to_nat (m_SeedsPerVoxel f - 1)) w).
      assert (J1 : (m_SeedsPerVoxel f <= 1)%Z ->
                   jittered_seeds ext f seedImage (fst voxel)
                     (Z.to_nat (m_SeedsPerVoxel f - 1)) w = ([], w)).
      { intros H. replace (Z.to_nat (m_SeedsPerVoxel f - 1)) with O by lia.
        reflexivity. }
      destruct (jittered_seeds ext f seedImage (fst voxel) _ w) as [more w1].
      simpl in J.
      destruct (IH (seeds ++ voxel_centre seedImage voxel :: more) w1)
        as (L & C & K & O1).
      split; [|split; [|split]].
      * rewrite L, length_app. simpl. rewrite J. lia.
      * intros v [<-|Hin] Hs.
        -- apply K. apply in_or_app. right. left. reflexivity.
        -- apply C; assumption.
      * intros p Hp. apply K. apply in_or_app. left. exact Hp.
      * intros H. specialize (J1 H). inversion J1; subst.
        rewrite (O1 H). rewrite <- app_assoc. reflexivity.
    + destruct (IH seeds w) as (L & C & K & O1).
      split; [|split; [|split]]; auto.
      intros v [<-|Hin] Hs; [congruence | apply C; assumption].
Qed.

(** X14.  [GetSeedPointsFromSeedImage] gives every voxel of the seed image
    with a positive value and its centre inside the tracking mask
    [1 + max (m_SeedsPerVoxel - 1) 0] seeds, the centre among them, and
    other voxels none; with at most one seed per voxel the seeds are the
    centres of these voxels in the order of the image, and no random
    number is drawn. *)
Theorem seed_points_of_seed_image (seedImage : Image) (w : World) :
  m_SeedImage f = Some seedImage ->
  length (fst (GetSeedPointsFromSeedImage ext f w))
  = (length (filter (seed_voxel seedImage) (ImageVoxels ext seedImage))
     * (1 + Z.to_nat (m_SeedsPerVoxel f - 1)))%nat
  /\ (forall voxel, In voxel (ImageVoxels ext seedImage) ->
      seed_voxel seedImage voxel = true ->
      In (voxel_centre seedImage voxel)
         (fst (GetSeedPointsFromSeedImage ext f w)))
  /\ ((m_SeedsPerVoxel f <= 1)%Z ->
      GetSeedPointsFromSeedImage ext f w
      = (map (voxel_centre seedImage)
           (filter (seed_voxel seedImage) (ImageVoxels ext seedImage)), w)).
Proof.
  intros E. unfold GetSeedPointsFromSeedImage. rewrite E.
  destruct (seed_voxel_loop_seeds seedImage (ImageVoxels ext seedImage) [] w)
    as (L & C & _ & O1).
  unfold seed_voxel_loop in L, C, O1.
  split; [exact L|]. split; [exact C | exact O1].
Qed.

End SeedPoints.

(** An image of three voxels, the middle one without a value. *)
Definition three_voxels_ext : External unit PlainImage :=
  mkExternal
    (IsInsideMask plain_ext) (GetImageValue plain_ext) (FilledImage plain_ext)
    (fun _ => [(mkIndex 0 0 0, 1); (mkIndex 1 0 0, 0); (mkIndex 2 0 0, 1)])
    (TransformContinuousIndexToPhysicalPoint plain_ext)
    (TransformPhysicalPointToIndex plain_ext) (RegionIsInside plain_ext)
    (RescaleIntensity plain_ext) (random_shuffle plain_ext)
    (PollAbort plain_ext)
    (omp_get_max_threads plain_ext) (mitk_eps plain_ext).

Lemma seed_points_of_seed_image_witness :
  length (fst (GetSeedPointsFromSeedImage three_voxels_ext line_filter tt))
  = (length (filter (seed_voxel three_voxels_ext line_filter everywhere)
               (ImageVoxels three_voxels_ext everywhere))
     * (1 + Z.to_nat (m_SeedsPerVoxel line_filter - 1)))%nat.
Proof.
  apply (@seed_points_of_seed_image _ _ three_voxels_ext line_filter everywhere
           tt eq_refl).
Defined.

(** ** The error of a run, by the settings *)

Section SettingsError.

Context {World Image : Type}.
Variable ext : External World Image.

(** The constraint the user chose needs an image the user did not set. *)
Definition missing_in_settings (f : Filter World Image) : bool :=
  (requires_target (m_EndpointConstraint f) && negb (is_set (m_TargetRegions f)))
  || (requires_seed (m_EndpointConstraint f) && negb (is_set (m_SeedImage f))).

(** The constraint [BeforeTracking] works with. *)
Definition derived_constraint (f : Filter World Image) : EndpointConstraints :=
  match m_EndpointConstraint f with
  | NONE =>
    match m_TargetRegions f, m_SeedImage f with
    | Some _, Some _ => EPS_IN_SEED_AND_TARGET
    | Some _, None => EPS_IN_TARGET
    | None, _ => NONE
    end
  | c => c
  end.

Lemma prepared_constraint (f : Filter World Image) :
  m_EndpointConstraint (prepare_members ext f) = derived_constraint f
  /\ m_TargetImageSet (prepare_members ext f) = is_set (m_TargetRegions f)
  /\ m_SeedImageSet (prepare_members ext f) = is_set (m_SeedImage f).
Proof.
  unfold prepare_members, derived_constraint.
  cbn [m_EndpointConstraint m_TargetImageSet m_SeedImageSet].
  destruct (m_EndpointConstraint f), (m_TargetRegions f), (m_SeedImage f);
    repeat split.
Qed.

Lemma prepared_missing (f : Filter World Image) :
  missing_required_mask (prepare_members ext f) = missing_in_settings f.
Proof.
  unfold missing_required_mask, missing_in_settings.
  destruct (prepared_constraint f) as (-> & -> & ->). unfold derived_constraint.
  destruct (m_EndpointConstraint f), (m_TargetRegions f), (m_SeedImage f);
    reflexivity.
Qed.

Lemma GenerateData_throws (f : Filter World Image) (rs : RunState) (w : World) :
  is_Throw (GenerateData ext f rs w) = is_Throw (BeforeTracking ext f rs w).
Proof.
  unfold GenerateData.
  destruct (BeforeTracking ext f rs w) as [[[f' rs'] w']|e] eqn:B; [|reflexivity].
  apply BeforeTracking_checked in B. simpl.
  destruct (if m_Random f' then _ else _) as [seeds w1].
  match goal with
  | |- context [seed_loop ext ?g ?n ?k ?p ?s0] =>
    destruct (@seed_loop_returns _ _ ext g n k p s0) as [[w2 rs2] ->]
  end.
  - rewrite missing_required_mask_set_SeedPoints. exact B.
  - unfold AfterTracking. reflexivity.
Qed.

(** X15.  Whether a run throws is decided by the settings alone: it throws
    exactly when the chosen constraint is not [NONE] and no target image
    was set, or is [EPS_IN_SEED_AND_TARGET] and no seed image was set.  A
    constraint left at [NONE] never throws: [BeforeTracking] replaces it
    by [EPS_IN_SEED_AND_TARGET] when both images were set and by
    [EPS_IN_TARGET] when only the target image was, and keeps a chosen
    constraint. *)
Theorem settings_decide_the_error (f : Filter World Image) (rs : RunState)
  (w : World) :
  is_Throw (GenerateData ext f rs w) = missing_in_settings f
  /\ (m_EndpointConstraint f = NONE -> is_Throw (GenerateData ext f rs w) = false)
  /\ (forall f' rs' w', BeforeTracking ext f rs w = Ok (f', rs', w') ->
      m_EndpointConstraint f' = derived_constraint f).
Proof.
  assert (E : is_Throw (GenerateData ext f rs w) = missing_in_settings f).
  { rewrite GenerateData_throws, BeforeTracking_throws. apply prepared_missing. }
  split; [exact E|]. split.
  - intros H. rewrite E. unfold missing_in_settings. rewrite H. reflexivity.
  - intros f' rs' w' B. apply BeforeTracking_started in B.
    destruct B as ((seeds & ->) & _).
    change (m_EndpointConstraint (set_SeedPoints (prepare_members ext f) seeds))
      with (m_EndpointConstraint (prepare_members ext f)).
    apply prepared_constraint.
Qed.

End SettingsError.

(** ** The count of accepted fibres and the output *)

Section CountAndOutput.

Context {World Image : Type}.
Variable ext : External World Image.

(** In tractogram mode the count is the size of the tractogram, as an
    [unsigned int]; in map mode the tractogram stays empty. *)
Definition count_matches (f : Filter World Image) (rs : RunState) : Prop :=
  m_BuildFibersReady rs = 0%Z
  /\ if m_UseOutputProbabilityMap f then m_Tractogram rs = []
     else m_CurrentTracts rs = to_unsigned (Z.of_nat (length (m_Tractogram rs))).

Lemma to_unsigned_succ (z : Z) : to_unsigned (to_unsigned z + 1) = to_unsigned (z + 1).
Proof.
  unfold to_unsigned. rewrite Z.add_mod_idemp_l by (intros E; discriminate).
  reflexivity.
Qed.

Lemma critical_section_count_matches (f : Filter World Image) (rs rs' : RunState) :
  count_matches f rs -> critical_section ext f rs rs' -> count_matches f rs'.
Proof.
  intros [Hr Hc] Hstep.
  destruct Hstep as [rs|rs n|rs rs' fib b Ha|rs fib Hd].
  - split; assumption.
  - split; assumption.
  - apply accept_fiber_cases in Ha.
    destruct Ha as [(_ & _ & _ & ->) | [(_ & _ & _ & ->) | (_ & _ & ->)]].
    + destruct (check_limit_fields f (keep_fiber ext f fib rs))
        as (C1 & _ & C3 & C4 & _).
      unfold count_matches. rewrite C1, C3, C4. unfold keep_fiber.
      destruct (m_UseOutputProbabilityMap f); simpl; split; auto.
      rewrite Hc. unfold push_back. rewrite length_app, to_unsigned_succ. simpl.
      f_equal. lia.
    + destruct (check_limit_fields f rs) as (C1 & _ & C3 & C4 & _).
      unfold count_matches. rewrite C1, C3, C4. split; assumption.
    + split; assumption.
  - destruct (show_partial_fiber_restores ext f fib rs Hd Hr)
      as (R1 & T1 & _ & C1 & _).
    unfold count_matches. rewrite <- T1, <- C1. split; assumption.
Qed.

Lemma reaches_count_matches (f : Filter World Image) (rs0 rs : RunState) :
  count_matches f rs0 -> reaches ext f rs0 rs -> count_matches f rs.
Proof.
  intros H0 Hreach. induction Hreach; [exact H0|].
  eapply critical_section_count_matches; eassumption.
Qed.

(** The run of one thread, up to [AfterTracking]: the filter of the loop
    is the prepared filter with some list of seed points; the loop starts
    from a state as [started] says, reaches its last state by critical
    sections and leaves it with its condition false. *)
Lemma GenerateData_reaches (f f' : Filter World Image) (rs rs' : RunState)
  (w w' : World) :
  GenerateData ext f rs w = Ok (f', rs', w') ->
  exists seeds rs0 rs3,
    let g := set_SeedPoints (prepare_members ext f) seeds in
    started rs0
    /\ seed_cursor rs0 = 0%Z
    /\ run_invariant ext g rs0 rs3
    /\ (seed_cursor rs3 <? Z.of_nat (length seeds))%Z
       && negb (m_StopTracking rs3) = false
    /\ (f', rs') = AfterTracking ext g rs3.
Proof.
  unfold GenerateData. intros H.
  destruct (BeforeTracking ext f rs w) as [[[f1 rs1] w1]|] eqn:B; [|discriminate].
  apply BeforeTracking_started in B. destruct B as ((seeds & ->) & Hs & Ht & Hr).
  destruct (if m_Random _ then _ else _) as [shuffled w2].
  set (g := set_SeedPoints (set_SeedPoints (prepare_members ext f) seeds) shuffled) in *.
  change (m_SeedPoints g) with shuffled in H.
  set (n := Z.of_nat (length shuffled)) in *.
  destruct (seed_loop ext g (length shuffled) n (Z.quot n 100)
              (w2, start_run n rs1)) as [[w3 rs3]|] eqn:L; [|discriminate].
  exists shuffled, (start_run n rs1), rs3.
  assert (Hinv : run_invariant ext g (start_run n rs1) (start_run n rs1)).
  { repeat split.
    - exact Hr.
    - apply reaches_start.
    - simpl. rewrite Ht. constructor. }
  split; [unfold started, start_run; simpl; auto|].
  split; [reflexivity|].
  split.
  - eapply seed_loop_run_invariant in L; [|exact Hinv]. exact L.
  - split.
    + apply seed_loop_exit in L; [exact L | simpl; lia].
    + unfold AfterTracking in *. injection H as <- <- <-. reflexivity.
Qed.

(** X16.  After a run of one thread the count of accepted fibres is the
    number of fibres in the poly data, as an [unsigned int], in tractogram
    mode; in map mode the tractogram is empty. *)
Theorem accepted_count_is_output_size (f f' : Filter World Image)
  (rs rs' : RunState) (w w' : World) :
  GenerateData ext f rs w = Ok (f', rs', w') ->
  if m_UseOutputProbabilityMap f then m_Tractogram rs' = []
  else m_FiberPolyData rs' = m_Tractogram rs'
       /\ m_CurrentTracts rs'
          = to_unsigned (Z.of_nat (length (m_FiberPolyData rs'))).
Proof.
  intros H. apply GenerateData_reaches in H.
  destruct H as (seeds & rs0 & rs3 & (Hc & Hs & Ht & Hr) & _ & (_ & Hreach & _)
                 & _ & E).
  assert (C : count_matches (set_SeedPoints (prepare_members ext f) seeds) rs3).
  { eapply reaches_count_matches; [|exact Hreach].
    split; [exact Hr|]. rewrite Ht, Hc.
    destruct (m_UseOutputProbabilityMap _); reflexivity. }
  destruct C as [_ C]. unfold AfterTracking in E. injection E as _ ->.
  change (m_UseOutputProbabilityMap (set_SeedPoints (prepare_members ext f) seeds))
    with (m_UseOutputProbabilityMap f) in *.
  destruct (m_UseOutputProbabilityMap f); simpl.
  - exact C.
  - unfold BuildFibers. rewrite andb_false_r. simpl. auto.
Qed.

End CountAndOutput.
(** ** A whole run along the line *)

(** The fibre of the trial on the line. *)
Definition line_fiber : FiberType :=
  [backward_2; backward_1; origin; forward_1; forward_2].

(** The settings of the line with the origin as the one seed point. *)
Definition line_run_settings : Filter unit PlainImage :=
  set_SeedPoints line_settings [origin].

Lemma prepare_members_set_SeedPoints {World Image : Type}
  (ext : External World Image) (f : Filter World Image) (seeds : list Point) :
  prepare_members ext (set_SeedPoints f seeds)
  = set_SeedPoints (prepare_members ext f) seeds.
Proof. reflexivity. Qed.

Lemma trial_set_SeedPoints {World Image : Type} (ext : External World Image)
  (f : Filter World Image) (seeds : list Point) (worldPos : Point)
  (s : World * RunState) :
  trial ext (set_SeedPoints f seeds) worldPos s = trial ext f worldPos s.
Proof. reflexivity. Qed.

Lemma line_track_seed_at (rs : RunState) :
  exists container,
    track_seed plain_ext line_filter origin (tt, rs)
    = (Some (mkStreamline line_fiber container (0 + 1 + 1 + 1 + 1) false),
       (tt, rs)).
Proof.
  unfold track_seed. rewrite line_GetNewDirection, along_x_start.
  assert (Rgtb (magnitude (vscale 0.5 x_axis)) 0.0001 = true) as ->.
  { apply Rgtb_true. rewrite magnitude_vscale, magnitude_x_axis, Rabs_right; lra. }
  assert (InExclusion plain_ext line_filter origin = false) as -> by reflexivity.
  cbn [andb negb fst snd].
  unfold FollowStreamline.
  change (Z.to_nat (Z.quot (m_MaxLength line_filter) 2)) with 2%nat.
  change (repeat zero_dir
            (Z.to_nat (to_unsigned (m_NumPreviousDirections line_filter - 1))))
    with (@nil vec3).
  rewrite line_step by (simpl; lra).
  rewrite half_x_dirs, along_x_forward.
  rewrite line_step by (simpl; lra).
  rewrite follow_steps_O.
  cbn [sl_exclude advance negb sl_fib sl_container sl_tractLength push_front
       push_back app].
  rewrite line_step by (simpl; lra).
  rewrite neg_half_x_dirs, along_x_backward.
  rewrite line_step by (simpl; lra).
  rewrite follow_steps_O.
  cbn [sl_exclude advance negb sl_fib sl_container sl_tractLength push_front
       push_back app].
  eexists. reflexivity.
Qed.

Lemma line_trial_at (rs : RunState) :
  m_StopTracking rs = false ->
  trial plain_ext line_filter origin (tt, rs)
  = Ok (true, (tt, check_limit line_filter
                     (keep_fiber plain_ext line_filter line_fiber rs))).
Proof.
  intros Hs. destruct (line_track_seed_at rs) as [container E].
  unfold trial. rewrite E.
  assert (is_candidate line_filter
            (mkStreamline line_fiber container (0 + 1 + 1 + 1 + 1) false) = true)
    as ->.
  { unfold is_candidate. cbn [sl_tractLength sl_fib sl_exclude m_MinTractLength
                              line_filter tracking_filter].
    assert (Rgeb (0 + 1 + 1 + 1 + 1) 0 = true) as -> by (apply Rgeb_true; lra).
    reflexivity. }
  unfold accept_fiber. cbn [snd fst sl_fib].
  assert (IsValidFiber plain_ext line_filter line_fiber = Ok true) as ->
    by reflexivity.
  rewrite Hs. reflexivity.
Qed.

(** The filter of the loop over the seeds in that run. *)
Definition line_run_filter : Filter unit PlainImage :=
  set_SeedPoints (set_SeedPoints line_filter [origin]) [origin].

Lemma line_BeforeTracking :
  BeforeTracking plain_ext line_run_settings initial_run tt
  = Ok (set_SeedPoints line_filter [origin], initial_run, tt).
Proof.
  unfold BeforeTracking, line_run_settings.
  rewrite prepare_members_set_SeedPoints, line_filter_prepared. reflexivity.
Qed.

(** The run state after the one trial of the run. *)
Definition line_run_state : RunState :=
  check_limit line_filter
    (keep_fiber plain_ext line_filter line_fiber
       (set_seed_cursor (start_run 1 initial_run) 1)).

Lemma line_seed_loop :
  seed_loop plain_ext line_run_filter 1 1 (Z.quot 1 100)
    (tt, start_run 1 initial_run)
  = Ok (tt, line_run_state).
Proof.
  change (seed_loop plain_ext line_run_filter 1 1 (Z.quot 1 100)
            (tt, start_run 1 initial_run))
    with (match seed_trials plain_ext line_run_filter origin
                  (tt, set_seed_cursor (start_run 1 initial_run) 1) with
          | Throw e => Throw e
          | Ok (_, s') => Ok s'
          end).
  unfold seed_trials.
  change (Z.to_nat (m_TrialsPerSeed line_run_filter)) with 10%nat.
  cbn [trials_loop]. unfold line_run_filter.
  rewrite !trial_set_SeedPoints, line_trial_at by reflexivity.
  reflexivity.
Qed.

(** The run with the origin as its seed point tracks one fibre, counts it
    and builds the poly data from it. *)
Lemma line_run :
  exists f' rs',
    GenerateData plain_ext line_run_settings initial_run tt = Ok (f', rs', tt)
    /\ m_FiberPolyData rs' = [line_fiber]
    /\ m_CurrentTracts rs' = 1%Z
    /\ seed_cursor rs' = 1%Z
    /\ m_StopTracking rs' = false.
Proof.
  unfold GenerateData. rewrite line_BeforeTracking.
  change (if m_Random (set_SeedPoints line_filter [origin])
          then random_shuffle plain_ext
                 (m_SeedPoints (set_SeedPoints line_filter [origin])) tt
          else (m_SeedPoints (set_SeedPoints line_filter [origin]), tt))
    with ([origin], tt).
  cbv iota beta. fold line_run_filter.
  change (m_SeedPoints line_run_filter) with [origin].
  change (Z.of_nat (length [origin])) with 1%Z.
  change (length [origin]) with 1%nat.
  rewrite line_seed_loop.
  eexists. eexists. split; [reflexivity|].
  repeat split.
Qed.

(** ** When the loop over the seeds ends *)

Section LoopEnd.

Context {World Image : Type}.
Variable ext : External World Image.
Variable f : Filter World Image.

(** The stop flag is set only with a positive limit that the count has
    reached. *)
Definition stopped_by_limit (rs : RunState) : Prop :=
  m_StopTracking rs = true ->
  (0 < m_MaxNumTracts f)%Z
  /\ (to_unsigned (m_MaxNumTracts f) <= m_CurrentTracts rs)%Z.

Lemma check_limit_stopped_by_limit (rs : RunState) :
  stopped_by_limit rs -> stopped_by_limit (check_limit f rs).
Proof.
  unfold stopped_by_limit, check_limit. intros H.
  destruct (_ && _) eqn:E; simpl; [|exact H].
  intros _. apply andb_true_iff in E. destruct E as [E1 E2].
  apply Z.ltb_lt in E1. apply Z.leb_le in E2. auto.
Qed.

Lemma critical_section_stopped_by_limit (rs rs' : RunState) :
  m_BuildFibersReady rs = 0%Z ->
  stopped_by_limit rs -> critical_section ext f rs rs' -> stopped_by_limit rs'.
Proof.
  intros Hr H Hstep. destruct Hstep as [rs|rs n|rs rs' fib b Ha|rs fib Hd].
  - exact H.
  - exact H.
  - apply accept_fiber_cases in Ha.
    destruct Ha as [(_ & _ & Hs & ->) | [(_ & _ & _ & ->) | (_ & _ & ->)]].
    + apply check_limit_stopped_by_limit. unfold stopped_by_limit, keep_fiber.
      destruct (negb (m_UseOutputProbabilityMap f)); simpl; congruence.
    + apply check_limit_stopped_by_limit. exact H.
    + exact H.
  - destruct (show_partial_fiber_restores ext f fib rs Hd Hr)
      as (_ & _ & _ & C1 & S1).
    unfold stopped_by_limit. rewrite <- C1, <- S1. exact H.
Qed.

Lemma reaches_stopped_by_limit (rs0 rs : RunState) :
  m_BuildFibersReady rs0 = 0%Z ->
  stopped_by_limit rs0 -> reaches ext f rs0 rs ->
  m_BuildFibersReady rs = 0%Z /\ stopped_by_limit rs.
Proof.
  intros Hr H0 Hreach. induction Hreach; [auto|].
  destruct IHHreach as [R S]. split.
  - destruct H as [rs|rs n|rs rs' fib b Ha|rs fib Hd]; try exact R.
    + apply accept_fiber_cases in Ha.
      destruct Ha as [(_ & _ & _ & ->) | [(_ & _ & _ & ->) | (_ & _ & ->)]];
        try exact R.
      * destruct (check_limit_fields f (keep_fiber ext f fib rs))
          as (_ & _ & _ & -> & _).
        unfold keep_fiber. destruct (negb (m_UseOutputProbabilityMap f)); exact R.
      * destruct (check_limit_fields f rs) as (_ & _ & _ & -> & _). exact R.
    + apply (show_partial_fiber_restores ext f fib rs Hd R).
  - eapply critical_section_stopped_by_limit; eassumption.
Qed.

(** The cursor never passes the number of seeds. *)
Lemma seed_loop_cursor_bound (fuel : nat) (num_seeds print_interval : Z)
  (s s' : World * RunState) :
  seed_loop ext f fuel num_seeds print_interval s = Ok s' ->
  (seed_cursor (snd s) <= num_seeds)%Z ->
  (seed_cursor (snd s') <= num_seeds)%Z.
Proof.
  revert s. induction fuel as [|fuel IH]; intros s H Hc; simpl in H.
  - inversion H; subst; exact Hc.
  - destruct ((seed_cursor (snd s) <? num_seeds)%Z
              && negb (m_StopTracking (snd s))) eqn:Ec;
      [|inversion H; subst; exact Hc].
    apply andb_true_iff in Ec. destruct Ec as [Ec _]. apply Z.ltb_lt in Ec.
    destruct (_ || _).
    + apply IH in H; [exact H | simpl; lia].
    + match type of H with
      | context [seed_trials ext f ?p ?s0] =>
        destruct (seed_trials ext f p s0) as [[l s1]|] eqn:E; [|discriminate]
      end.
      apply trials_loop_keeps_cursor in E.
      apply IH in H; [exact H|]. rewrite E. simpl.
      destruct (m_Verbose (snd s) && _); simpl; lia.
Qed.

(** X17.  The loop over the seeds, entered as [BeforeTracking] and the
    reset of the cursor leave the state, ends with the stop flag clear and
    every seed taken, or with the stop flag set by a positive limit that
    the count has reached. *)
Theorem seed_loop_ends (fuel : nat) (num_seeds print_interval : Z)
  (s s' : World * RunState) :
  seed_loop ext f fuel num_seeds print_interval s = Ok s' ->
  started (snd s) ->
  seed_cursor (snd s) = 0%Z ->
  num_seeds = Z.of_nat fuel ->
  (m_StopTracking (snd s') = false /\ seed_cursor (snd s') = num_seeds)
  \/ (m_StopTracking (snd s') = true
      /\ (0 < m_MaxNumTracts f)%Z
      /\ (to_unsigned (m_MaxNumTracts f) <= m_CurrentTracts (snd s'))%Z).
Proof.
  intros H (Hcur & Hs & Ht & Hr) Hc Hn.
  assert (Hexit := H). apply seed_loop_exit in Hexit; [|lia].
  assert (Hbound := H). apply seed_loop_cursor_bound in Hbound; [|lia].
  assert (Hinv : run_invariant ext f (snd s) (snd s')).
  { eapply seed_loop_run_invariant; [exact H|].
    repeat split; [exact Hr | apply reaches_start |].
    rewrite Ht. constructor. }
  destruct Hinv as (_ & Hreach & _).
  apply reaches_stopped_by_limit in Hreach;
    [|exact Hr | intros E; congruence].
  destruct Hreach as [_ Hstop].
  destruct (m_StopTracking (snd s')) eqn:E in |- *.
  - right. split; [reflexivity|]. apply Hstop. exact E.
  - left. split; [reflexivity|].
    rewrite E, andb_true_r in Hexit. apply Z.ltb_ge in Hexit. lia.
Qed.

End LoopEnd.

Lemma seed_loop_ends_witness :
  exists s',
    seed_loop plain_ext line_run_filter 1 1 (Z.quot 1 100)
      (tt, start_run 1 initial_run) = Ok s'
    /\ ((m_StopTracking (snd s') = false /\ seed_cursor (snd s') = 1%Z)
        \/ (m_StopTracking (snd s') = true
            /\ (0 < m_MaxNumTracts line_run_filter)%Z
            /\ (to_unsigned (m_MaxNumTracts line_run_filter)
                <= m_CurrentTracts (snd s'))%Z)).
Proof.
  eexists. split; [apply line_seed_loop|].
  apply (@seed_loop_ends _ _ plain_ext line_run_filter 1 1 (Z.quot 1 100)
           (tt, start_run 1 initial_run) _ line_seed_loop).
  - repeat split.
  - reflexivity.
  - reflexivity.
Defined.

Lemma accepted_count_is_output_size_witness :
  exists f' rs',
    GenerateData plain_ext line_run_settings initial_run tt = Ok (f', rs', tt)
    /\ m_FiberPolyData rs' = m_Tractogram rs'
    /\ m_CurrentTracts rs'
       = to_unsigned (Z.of_nat (length (m_FiberPolyData rs'))).
Proof.
  destruct line_run as (f' & rs' & E & _).
  exists f', rs'. split; [exact E|].
  apply (@accepted_count_is_output_size _ _ plain_ext line_run_settings f'
           initial_run rs' tt tt E).
Defined.

Lemma GenerateData_output_witness :
  exists f' rs',
    GenerateData plain_ext line_run_settings initial_run tt = Ok (f', rs', tt)
    /\ Forall (outside_exclusion plain_ext
                 (prepare_members plain_ext line_run_settings))
              (m_Tractogram rs')
    /\ ((0 < m_MaxNumTracts line_run_settings < 2 ^ 31)%Z ->
        (m_CurrentTracts rs' <= m_MaxNumTracts line_run_settings)%Z
        /\ (Z.of_nat (length (m_Tractogram rs'))
            <= m_MaxNumTracts line_run_settings)%Z)
    /\ (m_UseOutputProbabilityMap line_run_settings = false ->
        m_FiberPolyData rs' = m_Tractogram rs').
Proof.
  destruct line_run as (f' & rs' & E & _).
  exists f', rs'. split; [exact E|].
  apply (@GenerateData_output _ _ plain_ext line_run_settings f'
           initial_run rs' tt tt E).
Defined.

(** ** A second run *)

Section SecondRun.

Context {World Image : Type}.
Variable ext : External World Image.

(** The filter a run returns: the prepared filter without seed points. *)
Lemma GenerateData_filter (f f' : Filter World Image) (rs rs' : RunState)
  (w w' : World) :
  GenerateData ext f rs w = Ok (f', rs', w') ->
  f' = set_SeedPoints (prepare_members ext f) [].
Proof.
  intros H. apply GenerateData_reaches in H.
  destruct H as (seeds & rs0 & rs3 & _ & _ & _ & _ & E).
  unfold AfterTracking in E. injection E as -> _. reflexivity.
Qed.

(** X19.  The filter a run returns is not the filter it was given: its
    seed points are cleared and every image is set, the default ones
    included.  So a second run takes the target and the seed image as
    set, never throws, reads its seeds from the seed image, and
    replaces a constraint that was still [NONE] in the first run by
    [EPS_IN_SEED_AND_TARGET]. *)
Theorem second_run (f f' : Filter World Image) (rs rs' rs2 : RunState)
  (w w' w2 : World) :
  GenerateData ext f rs w = Ok (f', rs', w') ->
  m_SeedPoints f' = []
  /\ m_EndpointConstraint f' = derived_constraint f
  /\ m_TargetImageSet (prepare_members ext f') = true
  /\ m_SeedImageSet (prepare_members ext f') = true
  /\ m_EndpointConstraint (prepare_members ext f')
     = match derived_constraint f with
       | NONE => EPS_IN_SEED_AND_TARGET
       | c => c
       end
  /\ is_Throw (GenerateData ext f' rs2 w2) = false.
Proof.
  intros H. apply GenerateData_filter in H. subst f'.
  destruct (prepared_constraint ext f) as (Ec & _ & _).
  destruct (prepared_constraint ext (set_SeedPoints (prepare_members ext f) []))
    as (Ec2 & Et2 & Es2).
  assert (D : derived_constraint (set_SeedPoints (prepare_members ext f) [])
              = match derived_constraint f with
                | NONE => EPS_IN_SEED_AND_TARGET
                | c => c
                end).
  { rewrite <- Ec. unfold derived_constraint at 1.
    change (m_EndpointConstraint (set_SeedPoints (prepare_members ext f) []))
      with (m_EndpointConstraint (prepare_members ext f)).
    destruct (m_EndpointConstraint (prepare_members ext f)); reflexivity. }
  split; [reflexivity|]. split; [exact Ec|].
  split; [rewrite Et2; reflexivity|]. split; [rewrite Es2; reflexivity|].
  split; [rewrite Ec2; exact D|].
  rewrite GenerateData_throws, BeforeTracking_throws, prepared_missing.
  unfold missing_in_settings. cbn [m_TargetRegions m_SeedImage set_SeedPoints
    prepare_members is_set negb]. rewrite !andb_false_r. reflexivity.
Qed.

End SecondRun.

Lemma second_run_witness :
  exists f' rs',
    GenerateData plain_ext line_run_settings initial_run tt = Ok (f', rs', tt)
    /\ m_SeedPoints f' = []
    /\ m_EndpointConstraint f' = derived_constraint line_run_settings
    /\ m_TargetImageSet (prepare_members plain_ext f') = true
    /\ m_SeedImageSet (prepare_members plain_ext f') = true
    /\ m_EndpointConstraint (prepare_members plain_ext f')
       = match derived_constraint line_run_settings with
         | NONE => EPS_IN_SEED_AND_TARGET
         | c => c
         end
    /\ is_Throw (GenerateData plain_ext f' initial_run tt) = false.
Proof.
  destruct line_run as (f' & rs' & E & _).
  exists f', rs'. split; [exact E|].
  apply (@second_run _ _ plain_ext line_run_settings f' initial_run rs'
           initial_run tt tt tt E).
Defined.

(** ** The stop flag and the limit *)

Section StopFlag.

Context {World Image : Type}.
Variable ext : External World Image.
Variable f : Filter World Image.

(** X20.  In every state the thread team reaches from the start of the
    parallel loop, the stop flag is set only with a positive limit that
    the count has reached; so without a positive limit it is never set,
    and with a positive limit (an [int]) it is set exactly when the count
    of accepted fibres is the limit. *)
Theorem stop_flag_iff_limit_reached (rs0 rs : RunState) :
  started rs0 ->
  reaches ext f rs0 rs ->
  ((m_MaxNumTracts f <= 0)%Z -> m_StopTracking rs = false)
  /\ ((0 < m_MaxNumTracts f < 2 ^ 31)%Z ->
      (m_StopTracking rs = true <-> m_CurrentTracts rs = m_MaxNumTracts f)).
Proof.
  intros H0 Hreach.
  assert (S0 : stopped_by_limit f rs0).
  { destruct H0 as (_ & Hs & _). intros E. congruence. }
  assert (R0 : m_BuildFibersReady rs0 = 0%Z) by apply H0.
  destruct (reaches_stopped_by_limit R0 S0 Hreach) as [_ Hstop].
  split.
  - intros Hm. destruct (m_StopTracking rs) eqn:E; [|reflexivity].
    destruct (Hstop E) as [Hpos _]. lia.
  - intros Hm.
    assert (W : within_limit f rs).
    { eapply reaches_within_limit; [exact Hm | | exact Hreach].
      apply started_within_limit; [lia | exact H0]. }
    destruct W as (_ & Hc & _ & Hset).
    split; [|exact Hset].
    intros E. destruct (Hstop E) as [_ Hle].
    rewrite to_unsigned_small in Hle by lia. lia.
Qed.

End StopFlag.

Lemma stop_flag_iff_limit_reached_witness :
  started initial_run
  /\ reaches plain_ext limit_filter initial_run after_one
  /\ (m_StopTracking after_one = true
      <-> m_CurrentTracts after_one = m_MaxNumTracts limit_filter).
Proof.
  assert (H0 : started initial_run) by (repeat split).
  assert (Hr : reaches plain_ext limit_filter initial_run after_one).
  { eapply reaches_step; [apply reaches_start|].
    apply (@cs_accept _ _ plain_ext limit_filter initial_run after_one
             [origin; forward_1] true).
    reflexivity. }
  split; [exact H0|]. split; [exact Hr|].
  apply (@stop_flag_iff_limit_reached _ _ plain_ext limit_filter initial_run
           after_one H0 Hr).
  split; reflexivity.
Defined.

(** ** Directions without neighbourhood sampling *)

Section NoSampling.

Context {World Image : Type}.
Variable ext : External World Image.
Variable f : Filter World Image.

Lemma CreateDirections_few (n : Z) : (n < 2)%Z -> CreateDirections n = [].
Proof.
  intros H. unfold CreateDirections.
  apply Z.ltb_lt in H. rewrite H. reflexivity.
Qed.

(** X21.  Without a prior handler, at the first direction of a trial (no
    previous directions) or with fewer than two neighbourhood samples,
    [GetNewDirection] does not sample: inside the tracking mask and
    outside the stopping regions it returns the proposal of the handler,
    normalised, when its magnitude exceeds 0.001, and the zero vector
    otherwise. *)
Theorem GetNewDirection_without_sampling (pos : Point) (olddirs : list vec3)
  (oldIndex : Index) (w : World) :
  m_TrackingPriorHandler f = None ->
  olddirs = [] \/ (m_NumberOfSamples f < 2)%Z ->
  GetNewDirection ext f pos olddirs oldIndex w
  = if InsideMask ext f pos (m_MaskInterpolator f)
       && negb (InsideMask ext f pos (m_StopInterpolator f))
    then
      let (proposal, w') :=
        ProposeDirection (m_TrackingHandler f) pos olddirs oldIndex w in
      (if Rgtb (magnitude proposal) 0.001 then normalize proposal else fill 0,
       w')
    else (fill 0, w).
Proof.
  intros Hp Hn. unfold GetNewDirection.
  destruct (_ && _); [|reflexivity].
  unfold bind.
  destruct (ProposeDirection (m_TrackingHandler f) pos olddirs oldIndex w)
    as [proposal w'].
  assert (C : collect_votes ext f pos olddirs oldIndex proposal w'
              = (mkVotes proposal 0 0 1, w')).
  { unfold collect_votes. destruct Hn as [-> | Hn]; [reflexivity|].
    rewrite (CreateDirections_few Hn). destruct olddirs; reflexivity. }
  rewrite C. unfold blend_prior. rewrite Hp. unfold ret.
  unfold voted_direction, votes_valid. cbn [direction possible_stop_votes].
  cbn [Z.eqb orb]. rewrite andb_true_r. reflexivity.
Qed.

End NoSampling.

Lemma GetNewDirection_without_sampling_witness :
  GetNewDirection plain_ext line_filter origin [] zeroIndex tt
  = if InsideMask plain_ext line_filter origin (m_MaskInterpolator line_filter)
       && negb (InsideMask plain_ext line_filter origin
                  (m_StopInterpolator line_filter))
    then
      let (proposal, w') :=
        ProposeDirection (m_TrackingHandler line_filter) origin [] zeroIndex tt in
      (if Rgtb (magnitude proposal) 0.001 then normalize proposal else fill 0,
       w')
    else (fill 0, tt).
Proof.
  apply (@GetNewDirection_without_sampling _ _ plain_ext line_filter origin []
           zeroIndex tt eq_refl).
  left. reflexivity.
Defined.

(** ** The fibres [BuildFibers] shows and takes back *)

Section ShownFibers.

Context {World Image : Type}.
Variable ext : External World Image.
Variable f : Filter World Image.

Lemma pop_back_n_app {A : Type} (kept shown : list A) :
  pop_back_n (length shown) (kept ++ shown) = kept.
Proof.
  induction shown as [|x shown IH] using rev_ind.
  - simpl. apply app_nil_r.
  - rewrite length_app. simpl. rewrite Nat.add_comm. simpl.
    rewrite app_assoc. unfold pop_back at 1. rewrite removelast_last.
    exact IH.
Qed.

(** X22.  [BuildFibers(true)] does nothing while fewer threads are ready
    than the team has.  Once all are ready, with the fibres they have
    pushed for display at the end of the tractogram, it builds the poly
    data from the whole tractogram, the pushed fibres included, takes
    exactly these fibres back from the tractogram and resets the counter
    of ready threads. *)
Theorem BuildFibers_shows_and_takes_back (rs : RunState)
  (kept shown : list FiberType) :
  m_Tractogram rs = kept ++ shown ->
  m_BuildFibersReady rs = Z.of_nat (length shown) ->
  if (m_BuildFibersReady rs <? omp_get_num_threads ext f)%Z
  then BuildFibers ext f true rs = rs
  else m_FiberPolyData (BuildFibers ext f true rs) = kept ++ shown
       /\ m_Tractogram (BuildFibers ext f true rs) = kept
       /\ m_BuildFibersReady (BuildFibers ext f true rs) = 0%Z
       /\ m_BuildFibersFinished (BuildFibers ext f true rs) = true
       /\ m_CurrentTracts (BuildFibers ext f true rs) = m_CurrentTracts rs
       /\ m_StopTracking (BuildFibers ext f true rs) = m_StopTracking rs
       /\ m_OutputProbabilityMap (BuildFibers ext f true rs)
          = m_OutputProbabilityMap rs.
Proof.
  intros Ht Hr. unfold BuildFibers.
  destruct (m_BuildFibersReady rs <? omp_get_num_threads ext f)%Z;
    [reflexivity|].
  cbn [andb m_FiberPolyData m_Tractogram m_BuildFibersReady
       m_BuildFibersFinished m_CurrentTracts m_StopTracking
       m_OutputProbabilityMap].
  rewrite Ht, Hr, Nat2Z.id, pop_back_n_app. repeat split.
Qed.

End ShownFibers.

(** The state of a run in demo mode in which the one thread has pushed the
    fibre of the seed point for display. *)
Definition shown_run : RunState :=
  set_BuildFibersReady (set_Tractogram initial_run [[origin]]) 1.

Lemma BuildFibers_shows_and_takes_back_witness :
  m_FiberPolyData (BuildFibers plain_ext (SetDemoMode true line_filter) true
                     shown_run) = [[origin]]
  /\ m_Tractogram (BuildFibers plain_ext (SetDemoMode true line_filter) true
                     shown_run) = [].
Proof.
  assert (H := @BuildFibers_shows_and_takes_back _ _ plain_ext
                 (SetDemoMode true line_filter) shown_run [] [[origin]]
                 eq_refl eq_refl).
  cbv beta iota delta [Z.ltb Z.compare Pos.compare Pos.compare_cont
    omp_get_num_threads m_DemoMode SetDemoMode m_BuildFibersReady shown_run
    set_BuildFibersReady] in H.
  destruct H as (H1 & H2 & _). split; assumption.
Defined.
